(** * Price-tag scanner: OCR text parser and price-history aggregator

  A shallow embedding of the parser of OCR text ([detectCurrency],
  [extractPrice], [detectPromo], [extractDiscount], [extractBarcode],
  [extractUnit] and [parseOcrResult], in src/backend/db.js), of the
  aggregate methods of the [Product] model ([getCurrentPrice],
  [getMinPrice], [getMaxPrice], [getAvgPrice], in src/unnamed/part_006)
  and of the routes that use them: the block of the scan route that
  writes a scan to a product (src/unnamed/part_003), and the filters of
  the product list and of the price history (src/unnamed/part_004).

  - A JavaScript string is a list of UTF-16 code units ([Z]).
  - A regular expression literal is a value of [regex]; [rmatch] is the
    backtracking matcher of ECMAScript (priority order of alternatives,
    greedy quantifiers, captures, [\b], negative lookahead).
  - A JavaScript Number is an IEEE-754 binary64 value, [spec_float] with
    precision 53 and maximal exponent 1024. *)

From Stdlib Require Import ZArith List Bool Lia String Ascii.
From Stdlib Require Import SpecFloat Sorted Permutation.
Import ListNotations.

Local Open Scope Z_scope.

(* ================================================================== *)
(** ** JavaScript strings *)

Module JsString.

(** A string value: the sequence of its UTF-16 code units. *)
Definition t := list Z.

(** The code units of one code point (a surrogate pair above the BMP). *)
Definition units_of_code_point (cp : Z) : list Z :=
  if cp <? 65536 then [cp]
  else [55296 + Z.shiftr (cp - 65536) 10; 56320 + Z.land (cp - 65536) 1023].

(** Decoder for the UTF-8 bytes of a literal of this file: [need] is the
    number of continuation bytes still expected, [acc] the bits read. *)
Fixpoint decode_utf8 (bs : list Z) (need : nat) (acc : Z) : list Z :=
  match bs with
  | [] => []
  | b :: bs' =>
      match need with
      | O =>
          if b <? 128 then b :: decode_utf8 bs' 0 0
          else if b <? 224 then decode_utf8 bs' 1 (b - 192)
          else if b <? 240 then decode_utf8 bs' 2 (b - 224)
          else decode_utf8 bs' 3 (b - 240)
      | S O => units_of_code_point (acc * 64 + (b - 128)) ++ decode_utf8 bs' 0 0
      | S n => decode_utf8 bs' n (acc * 64 + (b - 128))
      end
  end.

Definition bytes_of (s : string) : list Z :=
  List.map (fun a => Z.of_nat (nat_of_ascii a)) (list_ascii_of_string s).

(** The JavaScript string denoted by a literal of this file. *)
Definition of_string (s : string) : t := decode_utf8 (bytes_of s) 0 0.

(** [String.prototype.replace] with a one-character string pattern:
    only the first occurrence is replaced. *)
Fixpoint replace_first (x y : Z) (s : t) : t :=
  match s with
  | [] => []
  | c :: s' => if c =? x then y :: s' else c :: replace_first x y s'
  end.

End JsString.

Definition js (s : string) : JsString.t := JsString.of_string s.

(* ================================================================== *)
(** ** Regular expressions *)

Module RegExp.

(** Members of a character class [[...]] and the escapes [\d] [\s] [\w]. *)
Inductive catom :=
| AChar (c : Z)
| ADigit
| ASpace
| AWord.

Inductive regex :=
| Empty
| Char (c : Z)
| Class (cs : list catom)          (* [..], \d, \s *)
| Dot                              (* .      *)
| Seq (a b : regex)                (* ab     *)
| Alt (a b : regex)                (* a|b    *)
| Star (a : regex)                 (* a*     *)
| Opt (a : regex)                  (* a?     *)
| Rep (n : nat) (a : regex)        (* a{n}   *)
| Group (i : nat) (a : regex)      (* (a), the i-th capture group *)
| NotAhead (a : regex)             (* (?!a)  *)
| WordB.                           (* \b     *)

(** [a+] is [a] followed by [a*]. *)
Definition Plus (a : regex) : regex := Seq a (Star a).

(** A literal run of characters. *)
Fixpoint Lit (s : list Z) : regex :=
  match s with
  | [] => Empty
  | [c] => Char c
  | c :: s' => Seq (Char c) (Lit s')
  end.

Definition lit (s : string) : regex := Lit (js s).

(** Alternation of a non-empty list of branches, left to right. *)
Fixpoint alts (r : regex) (rs : list regex) : regex :=
  match rs with
  | [] => r
  | r' :: rs' => Alt r (alts r' rs')
  end.

Definition digit : regex := Class [ADigit].       (* \d *)
Definition space : regex := Class [ASpace].       (* \s *)

(** *** Character predicates *)

Definition is_digit (c : Z) : bool := (48 <=? c) && (c <=? 57).

(** [\w] without the [u] flag: the 63 basic word characters. *)
Definition is_word (c : Z) : bool :=
  ((97 <=? c) && (c <=? 122)) || ((65 <=? c) && (c <=? 90))
  || is_digit c || (c =? 95).

(** [\s]: WhiteSpace and LineTerminator code units. *)
Definition is_space (c : Z) : bool :=
  ((9 <=? c) && (c <=? 13)) || (c =? 32) || (c =? 160) || (c =? 5760)
  || ((8192 <=? c) && (c <=? 8202)) || (c =? 8232) || (c =? 8233)
  || (c =? 8239) || (c =? 8287) || (c =? 12288) || (c =? 65279).

Definition is_line_terminator (c : Z) : bool :=
  (c =? 10) || (c =? 13) || (c =? 8232) || (c =? 8233).

(** [Canonicalize] for the [i] flag without [u]: the code unit's upper
    case when that is a single code unit (and not an ASCII one for a
    non-ASCII input).  The table below is exact on every code unit whose
    upper case is a character of one of the patterns of this program
    (basic Latin, the Cyrillic block and the Cyrillic Extended-C letters
    that fold onto it); any other code unit is left as it is, which cannot
    change whether it equals the canonical form of a pattern character. *)
Definition upper (c : Z) : Z :=
  if (97 <=? c) && (c <=? 122) then c - 32                (* a-z *)
  else if (1072 <=? c) && (c <=? 1103) then c - 32        (* а-я *)
  else if (1104 <=? c) && (c <=? 1119) then c - 80        (* ѐ-џ, ё *)
  else if c =? 7296 then 1042                             (* ᲀ -> В *)
  else if c =? 7297 then 1044                             (* ᲁ -> Д *)
  else if c =? 7298 then 1054                             (* ᲂ -> О *)
  else if c =? 7299 then 1057                             (* ᲃ -> С *)
  else if (c =? 7300) || (c =? 7301) then 1058            (* ᲄ ᲅ -> Т *)
  else if c =? 7302 then 1066                             (* ᲆ -> Ъ *)
  else c.

Definition canon (ic : bool) (c : Z) : Z := if ic then upper c else c.

Definition atom_matches (ic : bool) (ch : Z) (a : catom) : bool :=
  match a with
  | AChar c => canon ic c =? canon ic ch
  | ADigit => is_digit ch
  | ASpace => is_space ch
  | AWord => is_word ch
  end.

Definition in_class (ic : bool) (cs : list catom) (ch : Z) : bool :=
  existsb (atom_matches ic ch) cs.

(** *** Matcher state

    The input is split at the current position: [prev] holds the code
    units before it, nearest first, and [rest] those from it on. [caps]
    holds the captures made so far, latest first. *)
Record mstate := MState {
  prev : list Z;
  rest : list Z;
  caps : list (nat * list Z)
}.

Definition position (s : mstate) : nat := List.length (prev s).

(** Consume one code unit satisfying [ok]. *)
Definition step (ok : Z -> bool) (s : mstate)
           (k : mstate -> option mstate) : option mstate :=
  match rest s with
  | c :: r => if ok c then k (MState (c :: prev s) r (caps s)) else None
  | [] => None
  end.

(** The text matched between state [s] and the later state [s']. *)
Definition consumed (s s' : mstate) : list Z :=
  rev (firstn (position s' - position s) (prev s')).

Definition progressed (s s' : mstate) : bool :=
  negb (Nat.eqb (position s') (position s)).

Definition word_before (s : mstate) : bool :=
  match prev s with c :: _ => is_word c | [] => false end.

Definition word_after (s : mstate) : bool :=
  match rest s with c :: _ => is_word c | [] => false end.

Definition orelse (a b : option mstate) : option mstate :=
  match a with Some x => Some x | None => b end.

(** The backtracking matcher, in continuation-passing style: [rmatch ic r
    s k] is the first way, in ECMAScript's priority order, of matching
    [r] at [s] such that the continuation [k] succeeds on the state
    reached. [ic] is the [i] flag.

    An iteration of [a*] or [a?] that matches the empty string is
    rejected, as RepeatMatcher does once the minimum is reached; so at
    most [length (rest s)] iterations of [a*] can succeed, and that is the
    bound of the inner loop.  RepeatMatcher also clears the captures of
    the groups inside [a] before each iteration; no pattern of this
    program has a group under a quantifier, and that is left out. *)
Fixpoint rmatch (ic : bool) (r : regex) (s : mstate)
         (k : mstate -> option mstate) {struct r} : option mstate :=
  match r with
  | Empty => k s
  | Char c => step (fun ch => canon ic c =? canon ic ch) s k
  | Class cs => step (in_class ic cs) s k
  | Dot => step (fun ch => negb (is_line_terminator ch)) s k
  | Seq a b => rmatch ic a s (fun s' => rmatch ic b s' k)
  | Alt a b => orelse (rmatch ic a s k) (rmatch ic b s k)
  | Star a =>
      (fix loop (n : nat) (s : mstate) {struct n} : option mstate :=
         match n with
         | O => k s
         | S n' =>
             orelse
               (rmatch ic a s
                  (fun s' => if progressed s s' then loop n' s' else None))
               (k s)
         end) (List.length (rest s)) s
  | Opt a =>
      orelse (rmatch ic a s (fun s' => if progressed s s' then k s' else None))
             (k s)
  | Rep n a =>
      (fix loop (n : nat) (s : mstate) {struct n} : option mstate :=
         match n with
         | O => k s
         | S n' => rmatch ic a s (fun s' => loop n' s')
         end) n s
  | Group i a =>
      rmatch ic a s
        (fun s' => k (MState (prev s') (rest s') ((i, consumed s s') :: caps s')))
  | NotAhead a =>
      match rmatch ic a s (fun s' => Some s') with
      | Some _ => None
      | None => k s
      end
  | WordB => if xorb (word_before s) (word_after s) then k s else None
  end.

(** A successful match: where it starts and the state at its end. *)
Record rmatch_result := MatchResult {
  m_index : nat;
  m_end : mstate
}.

(** The value of capture group [i] in a match ([undefined] is [None]). *)
Fixpoint lookup_cap (i : nat) (cs : list (nat * list Z)) : option (list Z) :=
  match cs with
  | [] => None
  | (j, v) :: cs' => if Nat.eqb i j then Some v else lookup_cap i cs'
  end.

Definition group (i : nat) (m : rmatch_result) : option (list Z) :=
  lookup_cap i (caps (m_end m)).

(** The whole matched text, [match[0]]. *)
Definition matched (m : rmatch_result) : list Z :=
  rev (firstn (position (m_end m) - m_index m) (prev (m_end m))).

(** A regular expression object: the pattern and its [i] flag. *)
Record regexp := RegExp { source : regex; ignoreCase : bool }.

(** RegExpBuiltinExec without the sticky flag: the leftmost position at or
    after the current one where the pattern matches. *)
Fixpoint search (re : regexp) (before after : list Z) : option rmatch_result :=
  match rmatch (ignoreCase re) (source re) (MState before after [])
               (fun s => Some s) with
  | Some s' => Some (MatchResult (List.length before) s')
  | None =>
      match after with
      | [] => None
      | c :: after' => search re (c :: before) after'
      end
  end.

(** [re.exec(text)] / [text.match(re)] on a fresh non-global expression. *)
Definition exec (re : regexp) (text : list Z) : option rmatch_result :=
  search re [] text.

(** [re.test(text)]. *)
Definition test (re : regexp) (text : list Z) : bool :=
  match exec re text with Some _ => true | None => false end.

(** The loop [while ((match = re.exec(text)) !== null) ...] on a global
    expression whose [lastIndex] starts at 0: every call resumes the
    search at the end of the previous match.  A pattern that matched the
    empty string would leave [lastIndex] where it is and the loop would
    not end; [None] stands for that (the bound is exhausted). *)
Fixpoint exec_loop (fuel : nat) (re : regexp) (before after : list Z)
  : option (list rmatch_result) :=
  match fuel with
  | O => None
  | S fuel' =>
      match search re before after with
      | None => Some []
      | Some m =>
          match exec_loop fuel' re (prev (m_end m)) (rest (m_end m)) with
          | Some ms => Some (m :: ms)
          | None => None
          end
      end
  end.

Definition exec_all (re : regexp) (text : list Z) : option (list rmatch_result) :=
  exec_loop (S (List.length text)) re [] text.

(** *** Vocabulary for the properties of the matcher *)

(** A pattern every match of which holds at least one character. *)
Fixpoint consumes (r : regex) : bool :=
  match r with
  | Char _ | Class _ | Dot => true
  | Seq a b => consumes a || consumes b
  | Alt a b => consumes a && consumes b
  | Rep n a => negb (Nat.eqb n 0) && consumes a
  | Group _ a => consumes a
  | Empty | Star _ | Opt _ | NotAhead _ | WordB => false
  end.

(** State [s1] is state [s] moved forward over the word [w]. *)
Definition advanced (w : list Z) (s s1 : mstate) : Prop :=
  prev s1 = rev w ++ prev s /\ rest s = w ++ rest s1.

(** What a match of [r] can be, whatever the priorities: the relation
    between the state where the match of [r] starts and the state it hands
    to its continuation.  (Nothing is required of a negative lookahead.) *)
Inductive derives (ic : bool) : regex -> mstate -> mstate -> Prop :=
| D_Empty s : derives ic Empty s s
| D_Char c s ch r :
    rest s = ch :: r -> (canon ic c =? canon ic ch) = true ->
    derives ic (Char c) s (MState (ch :: prev s) r (caps s))
| D_Class cs s ch r :
    rest s = ch :: r -> in_class ic cs ch = true ->
    derives ic (Class cs) s (MState (ch :: prev s) r (caps s))
| D_Dot s ch r :
    rest s = ch :: r -> negb (is_line_terminator ch) = true ->
    derives ic Dot s (MState (ch :: prev s) r (caps s))
| D_Seq a b s s1 s2 :
    derives ic a s s1 -> derives ic b s1 s2 -> derives ic (Seq a b) s s2
| D_AltL a b s s1 : derives ic a s s1 -> derives ic (Alt a b) s s1
| D_AltR a b s s1 : derives ic b s s1 -> derives ic (Alt a b) s s1
| D_Star0 a s : derives ic (Star a) s s
| D_StarS a s s1 s2 :
    derives ic a s s1 -> progressed s s1 = true ->
    derives ic (Star a) s1 s2 -> derives ic (Star a) s s2
| D_Opt0 a s : derives ic (Opt a) s s
| D_Opt1 a s s1 : derives ic a s s1 -> derives ic (Opt a) s s1
| D_Rep0 a s : derives ic (Rep 0 a) s s
| D_RepS n a s s1 s2 :
    derives ic a s s1 -> derives ic (Rep n a) s1 s2 ->
    derives ic (Rep (S n) a) s s2
| D_Group i a s s1 :
    derives ic a s s1 ->
    derives ic (Group i a) s
            (MState (prev s1) (rest s1) ((i, consumed s s1) :: caps s1))
| D_NotAhead a s : derives ic (NotAhead a) s s
| D_WordB s :
    xorb (word_before s) (word_after s) = true -> derives ic WordB s s.

(** A match of [re]: its end state is derived from a state without
    captures. *)
Definition match_of (re : regexp) (m : rmatch_result) : Prop :=
  exists s0, caps s0 = [] /\ derives (ignoreCase re) (source re) s0 (m_end m).

(** A pattern in every match of which group [i] takes part. *)
Fixpoint binds (i : nat) (r : regex) : bool :=
  match r with
  | Seq a b => binds i a || binds i b
  | Alt a b => binds i a && binds i b
  | Rep n a => negb (Nat.eqb n 0) && binds i a
  | Group j a => Nat.eqb i j || binds i a
  | _ => false
  end.

(** [r] takes only decimal digits and the characters of [extra] from the
    text. *)
Fixpoint only_chars (extra : list Z) (r : regex) : bool :=
  match r with
  | Empty | NotAhead _ | WordB => true
  | Char c => existsb (Z.eqb c) extra
  | Class cs =>
      forallb (fun a => match a with
                        | ADigit => true
                        | AChar c => existsb (Z.eqb c) extra
                        | _ => false
                        end) cs
  | Dot => false
  | Seq a b | Alt a b => only_chars extra a && only_chars extra b
  | Star a | Opt a | Rep _ a | Group _ a => only_chars extra a
  end.

(** Every capture group of [r] is [only_chars]. *)
Fixpoint groups_only (extra : list Z) (r : regex) : bool :=
  match r with
  | Group _ a => only_chars extra a && groups_only extra a
  | Seq a b | Alt a b => groups_only extra a && groups_only extra b
  | Star a | Opt a | Rep _ a => groups_only extra a
  | _ => true
  end.

Definition allowed (extra : list Z) (ch : Z) : bool :=
  is_digit ch || existsb (Z.eqb ch) extra.

(** Captures that hold allowed characters only. *)
Definition caps_allowed (extra : list Z) (cs : list (nat * list Z)) : Prop :=
  Forall (fun iv => forallb (allowed extra) (snd iv) = true) cs.

(** A character that only itself canonicalizes to. *)
Definition caseless (c : Z) : Prop :=
  forall ic ch, canon ic c = canon ic ch -> ch = c.

End RegExp.

Import RegExp.

(* ================================================================== *)
(** ** JavaScript Numbers *)

Module Number.

(** Binary64. *)
Definition prec : Z := 53.
Definition emax : Z := 1024.

Definition t := spec_float.

Definition NaN : t := S754_nan.
Definition zero : t := S754_zero false.

Definition add : t -> t -> t := SFadd prec emax.
Definition sub : t -> t -> t := SFsub prec emax.
Definition div : t -> t -> t := SFdiv prec emax.

(** The Number nearest to the integer [n] (ties to even). *)
Definition of_Z (n : Z) : t := binary_normalize prec emax n 0 false.

(** [a < b], [a <= b], [a > b], [a >= b]: false when either is NaN. *)
Definition ltb (a b : t) : bool := SFltb a b.
Definition leb (a b : t) : bool := SFleb a b.
Definition gtb (a b : t) : bool := SFltb b a.
Definition geb (a b : t) : bool := SFleb b a.

Definition is_nan (a : t) : bool :=
  match a with S754_nan => true | _ => false end.

(** SameValueZero, the equality of [Set]: NaN equals NaN, +0 equals -0. *)
Definition same_value_zero (a b : t) : bool :=
  match a, b with
  | S754_nan, S754_nan => true
  | _, _ => SFeqb a b
  end.

Fixpoint pow10 (k : nat) : positive :=
  match k with
  | O => 1%positive
  | S k' => (10 * pow10 k')%positive
  end.

(** The Number nearest to [n / 10^k] (ties to even), [n >= 0]: the value of
    a decimal literal with digits [n] of which [k] follow the point. *)
Definition of_decimal (n : Z) (k : nat) : t :=
  match n with
  | Z0 => zero
  | Zpos p => div (S754_finite false p 0) (S754_finite false (pow10 k) 0)
  | Zneg _ => NaN
  end.

(** The decimal digits at the head of [s]: their value on top of [acc],
    how many there are, and what follows them. *)
Fixpoint read_digits (s : JsString.t) (acc : Z) (count : nat)
  : Z * nat * JsString.t :=
  match s with
  | c :: s' =>
      if is_digit c then read_digits s' (10 * acc + (c - 48)) (S count)
      else (acc, count, s)
  | [] => (acc, count, s)
  end.

(** [parseFloat] on a string of digits with at most one point, the only
    strings the parser passes to it: the longest prefix that is a decimal
    literal [digits], [digits.], [digits.digits] or [.digits] is read and
    rounded to the nearest Number; without any digit the result is NaN.
    Signs, exponents, [Infinity] and leading blanks cannot occur there:
    the captures hold digits, points and commas only
    ([price_capture_decimal]). *)
Definition parseFloat (s : JsString.t) : t :=
  let '(n, c, s1) := read_digits s 0 0 in
  match s1 with
  | 46 :: s2 =>
      let '(n', c', _) := read_digits s2 n 0 in
      match (c + c')%nat with
      | O => NaN
      | _ => of_decimal n' c'
      end
  | _ =>
      match c with
      | O => NaN
      | _ => of_decimal n 0
      end
  end.

(** [parseInt] in radix 10 on a string that starts with decimal digits:
    the integer they denote, [None] (NaN) without any digit.  The result is
    kept as the exact integer: a Number holds every integer below 2^53
    exactly, and the only use of the result is a comparison with 0 and 99. *)
Definition parseInt (s : JsString.t) : option Z :=
  let '(n, c, _) := read_digits s 0 0 in
  match c with
  | O => None
  | _ => Some n
  end.

(** [Math.min(...xs)] and [Math.max(...xs)]: NaN if any argument is NaN,
    -0 below +0, and the infinities for no argument. *)
Definition min2 (lowest x : t) : t :=
  match lowest, x with
  | S754_nan, _ | _, S754_nan => S754_nan
  | S754_zero false, S754_zero true => x
  | _, _ => if ltb x lowest then x else lowest
  end.

Definition max2 (highest x : t) : t :=
  match highest, x with
  | S754_nan, _ | _, S754_nan => S754_nan
  | S754_zero true, S754_zero false => x
  | _, _ => if gtb x highest then x else highest
  end.

Definition Math_min (xs : list t) : t := fold_left min2 xs (S754_infinity false).
Definition Math_max (xs : list t) : t := fold_left max2 xs (S754_infinity true).

(** [[...new Set(xs)]]: the first occurrence of every value, in insertion
    order, values compared by SameValueZero; [Set] stores -0 as +0. *)
Definition set_key (x : t) : t :=
  match x with S754_zero true => S754_zero false | _ => x end.

Fixpoint set_values (xs : list t) : list t :=
  match xs with
  | [] => []
  | x :: xs' =>
      let k := set_key x in
      k :: filter (fun y => negb (same_value_zero k y)) (set_values xs')
  end.

(** [xs.sort(comparefn)]: ECMAScript fixes the result for a consistent
    comparator, the stable ascending order; insertion from the right
    computes it. [x] goes after [y] when [comparefn(x, y) > 0] (a NaN
    result counts as 0). *)
Fixpoint sort_insert (comparefn : t -> t -> t) (x : t) (l : list t) : list t :=
  match l with
  | [] => [x]
  | y :: l' =>
      if gtb (comparefn x y) zero then y :: sort_insert comparefn x l'
      else x :: l
  end.

Definition sort (comparefn : t -> t -> t) (xs : list t) : list t :=
  fold_right (sort_insert comparefn) [] xs.

(** *** Vocabulary for the properties of Numbers *)

Definition K1 (x : t) : Z :=
  match x with
  | S754_infinity true => -2
  | S754_finite true _ _ => -1
  | S754_finite false _ _ => 1
  | S754_infinity false => 2
  | _ => 0
  end.

Definition K2 (x : t) : Z :=
  match x with
  | S754_finite true _ e => - e
  | S754_finite false _ e => e
  | _ => 0
  end.

Definition K3 (x : t) : Z :=
  match x with
  | S754_finite true m _ => - Zpos m
  | S754_finite false m _ => Zpos m
  | _ => 0
  end.

Definition key_lt (a b : t) : Prop :=
  K1 a < K1 b \/ (K1 a = K1 b /\ (K2 a < K2 b \/ (K2 a = K2 b /\ K3 a < K3 b))).

Definition key_eq (a b : t) : Prop :=
  K1 a = K1 b /\ K2 a = K2 b /\ K3 a = K3 b.

Definition is_price (x : t) : bool :=
  match x with
  | S754_finite false m e => bounded prec emax m e
  | _ => false
  end.

(** [<=] and [<] as relations, for sortedness. *)
Definition num_le (a b : t) : Prop := leb a b = true.

Definition num_lt (a b : t) : Prop := ltb a b = true.

Definition is_finite (x : t) : bool :=
  match x with
  | S754_zero _ => true
  | S754_finite _ m e => bounded prec emax m e
  | _ => false
  end.

Definition units (x : t) : Z :=
  match x with
  | S754_finite false m e => Zpos m * 2 ^ (e + 1074)
  | S754_finite true m e => - (Zpos m * 2 ^ (e + 1074))
  | _ => 0
  end.

Definition sum_units (xs : list t) : Z := fold_right (fun x s => units x + s) 0 xs.

End Number.

(* ================================================================== *)
(** ** The parser: the six detectors and their composition *)

Module Parser.

Definition code (s : string) : Z := hd 0 (js s).

(** An ordered rule list evaluated with early return: the result of the
    first rule whose pattern tests true, [dflt] when none does. *)
Fixpoint first_rule {A : Type} (rules : list (regexp * A)) (dflt : A)
         (text : JsString.t) : A :=
  match rules with
  | [] => dflt
  | (re, a) :: rules' => if test re text then a else first_rule rules' dflt text
  end.

(** *** detectCurrency *)

Definition currencyPatterns : list (regexp * (string * string)) :=
  [ (RegExp (alts (lit "руб") [lit "₽"; lit "рубл"; lit "RUB"]) true, ("RUB", "₽"));
    (RegExp (alts (lit "$") [lit "USD"; lit "долл"]) true, ("USD", "$"));
    (RegExp (alts (lit "€") [lit "EUR"; lit "евро"]) true, ("EUR", "€"));
    (RegExp (alts (lit "₸") [lit "KZT"; lit "тенге"]) true, ("KZT", "₸"));
    (RegExp (alts (lit "₴") [lit "UAH"; lit "грн"]) true, ("UAH", "₴"));
    (RegExp (alts (lit "Br") [lit "BYN"; lit "бел"]) true, ("BYN", "Br")) ]%string.

Definition detectCurrency (text : JsString.t) : string * string :=
  first_rule currencyPatterns ("RUB", "₽")%string text.

(** *** detectPromo *)

Definition promoPatterns : list (regexp * (bool * option string)) :=
  let rule re type := (RegExp re true, (true, Some type)) in
  [ rule (Seq (lit "акци") (Class [AChar (code "я"); AChar (code "и")])) "акция";
    rule (Seq (lit "скидк") (Class [AChar (code "а"); AChar (code "и")])) "скидка";
    rule (lit "распродаж") "распродажа";
    rule (Seq (lit "специальн") (Seq (Star Dot) (lit "цен"))) "спеццена";
    rule (lit "выгодн") "выгодная цена";
    rule (lit "sale") "sale";
    rule (lit "промо") "промо";
    rule (Seq (lit "-") (Seq (Star space) (Seq (Plus digit)
            (Seq (Star space) (lit "%"))))) "скидка";
    rule (Seq (Plus digit) (Seq (Star space) (Seq (lit "%") (Seq (Star space)
            (Alt (lit "скидк") (lit "off")))))) "скидка";
    rule (Seq (lit "старая") (Seq (Star space) (lit "цена"))) "скидка";
    rule (lit "было") "скидка";
    rule (Seq (lit "красн") (Seq (Star Dot) (lit "цен"))) "красная цена";
    rule (Alt (Seq (lit "жёлт") (Seq (Star Dot) (lit "цен")))
              (Seq (lit "желт") (Seq (Star Dot) (lit "цен")))) "желтая цена" ]%string.

Definition detectPromo (text : JsString.t) : bool * option string :=
  first_rule promoPatterns (false, None) text.

(** *** extractBarcode *)

Definition digitRun (n : nat) : regexp :=
  RegExp (Seq WordB (Seq (Group 1 (Rep n digit)) WordB)) false.

Definition extractBarcode (text : JsString.t) : option JsString.t :=
  match exec (digitRun 13) text with
  | Some ean13 => group 1 ean13
  | None =>
      match exec (digitRun 8) text with
      | Some ean8 => group 1 ean8
      | None =>
          match exec (digitRun 12) text with
          | Some upc => group 1 upc
          | None => None
          end
      end
  end.

(** *** extractUnit *)

Definition unitPatterns : list (regexp * option string) :=
  let rule re unit := (RegExp re true, Some unit) in
  let za s := Seq (lit "за") (Seq (Star space) (lit s)) in
  [ rule (alts (za "кг") [lit "/кг"; lit "килограмм"]) "кг";
    rule (alts (za "шт") [lit "/шт"; lit "штук"]) "шт";
    rule (alts (za "л") [lit "/л"; lit "литр"]) "л";
    rule (alts (za "г") [Seq (lit "/г") (NotAhead (lit "р")); lit "грамм"]) "г";
    rule (alts (za "мл") [lit "/мл"; lit "миллилитр"]) "мл";
    rule (alts (za "уп") [lit "/уп"; lit "упаковк"]) "уп" ]%string.

Definition extractUnit (text : JsString.t) : option string :=
  first_rule unitPatterns None text.

(** [(?:руб|₽|р\.?|RUB|\$|€)] *)
Definition currencyToken : regex :=
  alts (lit "руб")
       [lit "₽"; Seq (lit "р") (Opt (lit ".")); lit "RUB"; lit "$"; lit "€"].

Definition separator : regex := Class [AChar (code "."); AChar (code ",")].

Definition pricePatterns : list regexp :=
  [ (* /(\d+[\.,]\d{2})\s*(?:руб|₽|р\.?|RUB|\$|€)?/gi *)
    RegExp (Seq (Group 1 (Seq (Plus digit) (Seq separator (Rep 2 digit))))
                (Seq (Star space) (Opt currencyToken))) true;
    (* /(\d+)\s*(?:руб|₽|р\.?|RUB|\$|€)/gi *)
    RegExp (Seq (Group 1 (Plus digit)) (Seq (Star space) currencyToken)) true;
    (* /цена[:\s]*( \d+[\.,]?\d* )/gi, the group spaced out here *)
    RegExp (Seq (lit "цена")
                (Seq (Star (Class [AChar (code ":"); ASpace]))
                     (Group 1 (Seq (Plus digit) (Seq (Opt separator) (Star digit))))))
           true;
    (* /стоимость[:\s]*( \d+[\.,]?\d* )/gi, likewise *)
    RegExp (Seq (lit "стоимость")
                (Seq (Star (Class [AChar (code ":"); ASpace]))
                     (Group 1 (Seq (Plus digit) (Seq (Opt separator) (Star digit))))))
           true ].

(** The body of the [while] loop of [extractPrice] for one match: what it
    pushes onto [prices]. [None]: [match[1]] is undefined and [.replace]
    throws. *)
Definition price_of_match (m : rmatch_result) : option (list Number.t) :=
  match group 1 m with
  | None => None
  | Some capture =>
      let priceStr := JsString.replace_first (code ",") (code ".") capture in
      let price := Number.parseFloat priceStr in
      if Number.gtb price Number.zero && Number.ltb price (Number.of_Z 1000000)
      then Some [price] else Some []
  end.

Fixpoint prices_of_matches (ms : list rmatch_result) : option (list Number.t) :=
  match ms with
  | [] => Some []
  | m :: ms' =>
      match price_of_match m, prices_of_matches ms' with
      | Some p, Some ps => Some (p ++ ps)
      | _, _ => None
      end
  end.

(** The [for] loop over the patterns: the prices pushed, in order. [None]
    when the loop does not complete normally. *)
Fixpoint collect_prices (patterns : list regexp) (text : JsString.t)
  : option (list Number.t) :=
  match patterns with
  | [] => Some []
  | pattern :: patterns' =>
      match exec_all pattern text with
      | None => None
      | Some ms =>
          match prices_of_matches ms, collect_prices patterns' text with
          | Some ps, Some ps' => Some (ps ++ ps')
          | _, _ => None
          end
      end
  end.

Definition extractPrice (text : JsString.t) : option (list Number.t) :=
  match collect_prices pricePatterns text with
  | None => None
  | Some prices => Some (Number.sort Number.sub (Number.set_values prices))
  end.

(** *** extractDiscount *)

(** [/-?\s*(\d+)\s*%/g] *)
Definition discountPattern : regexp :=
  RegExp (Seq (Opt (lit "-")) (Seq (Star space)
            (Seq (Group 1 (Plus digit)) (Seq (Star space) (lit "%"))))) false.

(** The body of the [while] loop for one match: what it pushes onto
    [discounts] ([parseInt] of an undefined capture is NaN, nothing pushed). *)
Definition discount_of_match (m : rmatch_result) : list Z :=
  match group 1 m with
  | None => []
  | Some capture =>
      match Number.parseInt capture with
      | Some discount =>
          if (0 <? discount) && (discount <=? 99) then [discount] else []
      | None => []
      end
  end.

(** [Math.max(...discounts)] on a non-empty array of integers. *)
Definition max_of (discounts : list Z) : option Z :=
  match discounts with
  | [] => None
  | d :: ds => Some (fold_left Z.max ds d)
  end.

(** The outer [None]: the loop does not complete; the inner one: [null]. *)
Definition extractDiscount (text : JsString.t) : option (option Z) :=
  match exec_all discountPattern text with
  | None => None
  | Some ms => Some (max_of (flat_map discount_of_match ms))
  end.

(** *** parseOcrResult *)

Record ParsedData := {
  price : option Number.t;
  originalPrice : option Number.t;
  pricePerUnit : option Number.t;
  currency : string;
  currencySymbol : string;
  unit : option string;
  barcode : option JsString.t;
  isPromo : bool;
  promoType : option string;
  discountPercent : option Z;
  rawText : JsString.t
}.

(** [None]: the call does not complete normally. *)
Definition parseOcrResult (text : JsString.t) : option ParsedData :=
  match extractPrice text, extractDiscount text with
  | Some prices, Some discountPercent =>
      let '(currency, symbol) := detectCurrency text in
      let '(isPromo, promoType) := detectPromo text in
      let barcode := extractBarcode text in
      let unit := extractUnit text in
      let '(price, originalPrice) :=
        if (2 <=? List.length prices)%nat && isPromo then
          (nth_error prices 0, nth_error prices (List.length prices - 1))
        else if (1 <=? List.length prices)%nat then
          (nth_error prices 0, None)
        else (None, None) in
      let pricePerUnit :=
        if (1 <? List.length prices)%nat then Some (Number.Math_min prices)
        else None in
      Some {| price := price;
              originalPrice := originalPrice;
              pricePerUnit := pricePerUnit;
              currency := currency;
              currencySymbol := symbol;
              unit := unit;
              barcode := barcode;
              isPromo := isPromo;
              promoType := promoType;
              discountPercent := discountPercent;
              rawText := text |}
  | _, _ => None
  end.

(** *** Vocabulary for the properties of the parser *)

(** The guard of [extractPrice]. *)
Definition in_range (p : Number.t) : Prop :=
  Number.gtb p Number.zero = true
  /\ Number.ltb p (Number.of_Z 1000000) = true.

(** The numeric values of the matched percent occurrences, in order. *)
Definition occurrence_values (ms : list rmatch_result) : list Z :=
  flat_map (fun m =>
              match group 1 m with
              | Some capture =>
                  match Number.parseInt capture with
                  | Some v => [v]
                  | None => []
                  end
              | None => []
              end) ms.

Definition plausible (v : Z) : bool := (1 <=? v) && (v <=? 99).

Definition starts_word (s : list Z) : bool :=
  match s with c :: _ => is_word c | [] => false end.

(** [run] is a run of exactly [n] digits of [text], after the prefix [pre],
    with a word boundary on each side (no letter of [A-Za-z], digit or
    underscore next to it). *)
Definition digit_run (n : nat) (text pre run : JsString.t) : Prop :=
  exists post,
    text = pre ++ run ++ post
    /\ List.length run = n
    /\ forallb is_digit run = true
    /\ starts_word (rev pre) = false
    /\ starts_word post = false.

(** The text holds a digit run of length [n]. *)
Definition has_run (n : nat) (text : JsString.t) : Prop :=
  exists pre run, digit_run n text pre run.

(** [run] is the first (leftmost) digit run of length [n] of the text. *)
Definition first_run (n : nat) (text run : JsString.t) : Prop :=
  exists pre,
    digit_run n text pre run
    /\ forall pre' run', digit_run n text pre' run' ->
       (List.length pre <= List.length pre')%nat.

End Parser.

(* ================================================================== *)
(** ** The Product model: aggregates over the price history *)

Module Product.

(** An entry of [priceHistory] ([priceHistorySchema]); [price] is a
    required Number, which the schema type never lets be NaN.  The
    references [userId] and [scanId] play no part here and are left out. *)
Record PricePoint := {
  price : Number.t;
  originalPrice : option Number.t;
  currency : string;
  isPromo : bool;
  store : option string;
  scannedAt : Z
}.

Definition getCurrentPrice (priceHistory : list PricePoint) : option PricePoint :=
  if (List.length priceHistory =? 0)%nat then None
  else nth_error priceHistory (List.length priceHistory - 1).

Definition getMinPrice (priceHistory : list PricePoint) : option Number.t :=
  if (List.length priceHistory =? 0)%nat then None
  else Some (Number.Math_min (List.map price priceHistory)).

Definition getMaxPrice (priceHistory : list PricePoint) : option Number.t :=
  if (List.length priceHistory =? 0)%nat then None
  else Some (Number.Math_max (List.map price priceHistory)).

Definition getAvgPrice (priceHistory : list PricePoint) : option Number.t :=
  if (List.length priceHistory =? 0)%nat then None
  else
    let sum := fold_left (fun acc p => Number.add acc (price p))
                         priceHistory Number.zero in
    Some (Number.div sum (Number.of_Z (Z.of_nat (List.length priceHistory)))).

End Product.

(* ================================================================== *)
(** ** Scenarios and the statements that fail *)

Module Scenario.
Import Number Parser.

Definition promo_tag : JsString.t := js "АКЦИЯ 100.00 руб 80.00 руб".

Definition milk : JsString.t := js "Молоко 2.5% 1л. Цена: 89.90 руб".

(** The Number that the literal [89.90] denotes. *)
Definition n89_90 : Number.t := of_decimal 8990 2.

(** C2 as the specification states it: the record for [milk]. *)
Definition milk_scenario (r : ParsedData) : Prop :=
  price r = Some n89_90
  /\ currency r = "RUB"%string
  /\ currencySymbol r = "₽"%string
  /\ unit r = Some "л"%string
  /\ isPromo r = false
  /\ barcode r = None.

Definition scan_89_90 : Product.PricePoint :=
  {| Product.price := n89_90;
     Product.originalPrice := None;
     Product.currency := "RUB";
     Product.isPromo := false;
     Product.store := None;
     Product.scannedAt := 0 |}.

(** The milk tag scanned three times. *)
Definition three_scans : list Product.PricePoint := [scan_89_90; scan_89_90; scan_89_90].

(** C5 as the specification states it. *)
Definition aggregator_laws (priceHistory : list Product.PricePoint) : Prop :=
  (priceHistory = [] ->
   Product.getCurrentPrice priceHistory = None /\ Product.getMinPrice priceHistory = None
   /\ Product.getMaxPrice priceHistory = None /\ Product.getAvgPrice priceHistory = None)
  /\ (priceHistory <> [] ->
      exists mn avg mx,
        Product.getMinPrice priceHistory = Some mn
        /\ Product.getAvgPrice priceHistory = Some avg
        /\ Product.getMaxPrice priceHistory = Some mx
        /\ leb mn avg = true /\ leb avg mx = true).

End Scenario.

(* ================================================================== *)
(** ** The scan route: what a scan writes to a product

    The block [if (parsedData.barcode) { ... }] of [POST /api/scan]
    (src/unnamed/part_003): the product with the barcode is looked up or
    created, the price of the scan is pushed onto its history, and the
    document is saved. *)

Module ScanRoute.

(** ToBoolean of a Number or null: null, NaN, +0 and -0 are false. *)
Definition truthy_number (x : option Number.t) : bool :=
  match x with
  | Some (S754_finite _ _ _) | Some (S754_infinity _) => true
  | _ => false
  end.

(** ToBoolean of a string or null: null and the empty string are false. *)
Definition truthy_string (s : option JsString.t) : bool :=
  match s with
  | Some (_ :: _) => true
  | _ => false
  end.

(** A [Product] document, as far as the route reads or writes it. *)
Record ProductDoc := {
  barcode : option JsString.t;
  name : JsString.t;
  unit : option string;
  priceHistory : list Product.PricePoint
}.

(** [new Product({ barcode: parsedData.barcode, name: productName,
    unit: parsedData.unit })]. *)
Definition new_product (parsedData : Parser.ParsedData)
           (productName : JsString.t) : ProductDoc :=
  {| barcode := Parser.barcode parsedData;
     name := productName;
     unit := Parser.unit parsedData;
     priceHistory := [] |}.

(** The object literal [{ price: parsedData.price, originalPrice:
    parsedData.originalPrice, currency: parsedData.currency, isPromo:
    parsedData.isPromo, userId, scannedAt: new Date() }], [now] being the
    date. *)
Definition entry (now : Z) (parsedData : Parser.ParsedData) (price : Number.t)
  : Product.PricePoint :=
  {| Product.price := price;
     Product.originalPrice := Parser.originalPrice parsedData;
     Product.currency := Parser.currency parsedData;
     Product.isPromo := Parser.isPromo parsedData;
     Product.store := None;
     Product.scannedAt := now |}.

(** [product.priceHistory.push({ ... })]. *)
Definition push_price (now : Z) (parsedData : Parser.ParsedData)
           (price : Number.t) (product : ProductDoc) : ProductDoc :=
  {| barcode := barcode product;
     name := name product;
     unit := unit product;
     priceHistory := priceHistory product ++ [entry now parsedData price] |}.

(** [let product = await Product.findOne({ barcode }); if (!product)
    product = new Product({ ... })], [found] being what [findOne]
    returned. *)
Definition find_or_new (productName : JsString.t)
           (parsedData : Parser.ParsedData) (found : option ProductDoc)
  : ProductDoc :=
  match found with
  | Some product => product
  | None => new_product parsedData productName
  end.

(** The block: the result is the document handed to [save], [None] when
    there is no barcode and no product is touched. *)
Definition scan_product (now : Z) (productName : JsString.t)
           (parsedData : Parser.ParsedData) (found : option ProductDoc)
  : option ProductDoc :=
  if truthy_string (Parser.barcode parsedData) then
    let product := find_or_new productName parsedData found in
    match Parser.price parsedData with
    | Some price =>
        if truthy_number (Some price)
        then Some (push_price now parsedData price product)
        else Some product
    | None => Some product
    end
  else None.

(** The histories that scans alone build: that of a new product, and that
    of a product with such a history after one more scan of some text. *)
Inductive scanned : list Product.PricePoint -> Prop :=
| scanned_first text now productName parsedData product :
    Parser.parseOcrResult text = Some parsedData ->
    scan_product now productName parsedData None = Some product ->
    scanned (priceHistory product)
| scanned_next text now productName parsedData found product :
    scanned (priceHistory found) ->
    Parser.parseOcrResult text = Some parsedData ->
    scan_product now productName parsedData (Some found) = Some product ->
    scanned (priceHistory product).

(** A price point as a scan writes it: a price that passed the guard of
    [extractPrice], and an original price only on a promotion and not
    below the price. *)
Definition well_formed (p : Product.PricePoint) : Prop :=
  Parser.in_range (Product.price p)
  /\ Number.is_price (Product.price p) = true
  /\ forall o, Product.originalPrice p = Some o ->
               Product.isPromo p = true
               /\ Parser.in_range o
               /\ Number.leb (Product.price p) o = true.

End ScanRoute.

(* ================================================================== *)
(** ** The products routes: filters over the price history

    [GET /api/products] and [GET /api/products/:id/price-history]
    (src/unnamed/part_004).  A query parameter is given here by what the
    route makes of it: a price bound is [None] when the parameter is absent
    or empty and otherwise the Number [parseFloat] gives for it, NaN
    included; a date is [None] when absent or empty and otherwise the time
    value of [new Date(...)], itself [None] for an invalid date. *)

Module ProductsRoute.

(** The callback of [products.filter] for [minPrice] and [maxPrice]. *)
Definition price_in_bounds (minPrice maxPrice : option Number.t)
           (p : ScanRoute.ProductDoc) : bool :=
  match Product.getCurrentPrice (ScanRoute.priceHistory p) with
  | None => false
  | Some current =>
      if match minPrice with
         | Some bound => Number.ltb (Product.price current) bound
         | None => false
         end
      then false
      else if match maxPrice with
              | Some bound => Number.gtb (Product.price current) bound
              | None => false
              end
      then false
      else true
  end.

Definition is_given {A : Type} (x : option A) : bool :=
  match x with Some _ => true | None => false end.

(** [if (minPrice || maxPrice) products = products.filter(...)]. *)
Definition filter_by_price (minPrice maxPrice : option Number.t)
           (products : list ScanRoute.ProductDoc) : list ScanRoute.ProductDoc :=
  if is_given minPrice || is_given maxPrice
  then filter (price_in_bounds minPrice maxPrice) products
  else products.

(** [if (hasPromo === 'true') products = products.filter(p =>
    p.getCurrentPrice()?.isPromo)]; [hasPromo] is the test. *)
Definition filter_by_promo (hasPromo : bool)
           (products : list ScanRoute.ProductDoc) : list ScanRoute.ProductDoc :=
  if hasPromo
  then filter (fun p =>
                 match Product.getCurrentPrice (ScanRoute.priceHistory p) with
                 | Some current => Product.isPromo current
                 | None => false
                 end) products
  else products.

(** [Array.prototype.slice(start)] for an integral [start]: from the end
    when negative, clamped to the array. *)
Definition slice {A : Type} (start : Z) (l : list A) : list A :=
  let len := Z.of_nat (List.length l) in
  let k := if start <? 0 then Z.max (len + start) 0 else Z.min start len in
  skipn (Z.to_nat k) l.

(** [h.scannedAt >= date] and [h.scannedAt <= date]: false for an invalid
    date, whose time value is NaN. *)
Definition on_or_after (date : option Z) (h : Product.PricePoint) : bool :=
  match date with
  | Some t => t <=? Product.scannedAt h
  | None => false
  end.

Definition on_or_before (date : option Z) (h : Product.PricePoint) : bool :=
  match date with
  | Some t => Product.scannedAt h <=? t
  | None => false
  end.

(** The integer [-parseInt(limit)] that [slice] gets: [limit] is [None]
    when the parameter is absent (the default 100 applies) and otherwise
    what [parseInt] gives, [None] for NaN, which [slice] takes as 0. *)
Definition slice_start (limit : option (option Z)) : Z :=
  match limit with
  | None => - 100
  | Some (Some n) => - n
  | Some None => 0
  end.

(** The two date filters of the price-history route. *)
Definition between (startDate endDate : option (option Z))
           (priceHistory : list Product.PricePoint) : list Product.PricePoint :=
  let history := priceHistory in
  let history :=
    match startDate with
    | Some date => filter (on_or_after date) history
    | None => history
    end in
  let history :=
    match endDate with
    | Some date => filter (on_or_before date) history
    | None => history
    end in
  history.

(** The entries that the price-history route charts. *)
Definition charted (startDate endDate : option (option Z))
           (limit : option (option Z)) (priceHistory : list Product.PricePoint)
  : list Product.PricePoint :=
  let history := between startDate endDate priceHistory in
  slice (slice_start limit) history.

(** [priceHistory: p.priceHistory.slice(-30)] of the compare route. *)
Definition compared (priceHistory : list Product.PricePoint)
  : list Product.PricePoint :=
  slice (- 30) priceHistory.

(** The two filters of the product list, in the order of the route. *)
Definition listed (minPrice maxPrice : option Number.t) (hasPromo : bool)
           (products : list ScanRoute.ProductDoc) : list ScanRoute.ProductDoc :=
  let products := filter_by_price minPrice maxPrice products in
  filter_by_promo hasPromo products.

(** An entry within the dates of the query: not before the start date
    if one is given, not after the end date if one is given, and neither
    date invalid. *)
Definition within (startDate endDate : option (option Z))
           (e : Product.PricePoint) : Prop :=
  (forall date, startDate = Some date ->
                exists t, date = Some t /\ t <= Product.scannedAt e)
  /\ (forall date, endDate = Some date ->
                   exists t, date = Some t /\ Product.scannedAt e <= t).

(** [l1] is [l2] with some entries left out, the order kept. *)
Inductive sublist {A : Type} : list A -> list A -> Prop :=
| sublist_nil : sublist [] []
| sublist_skip x l1 l2 : sublist l1 l2 -> sublist l1 (x :: l2)
| sublist_keep x l1 l2 : sublist l1 l2 -> sublist (x :: l1) (x :: l2).

End ProductsRoute.

(* ================================================================== *)
(** ** The history routes: who reaches a scan

    [GET /api/history], [GET /api/history/:id] and [DELETE
    /api/history/:id] (src/unnamed/part_004).  [user] is the [_id] of
    [req.user], [None] when [optionalAuth] set no user. *)

Module HistoryRoute.

(** A [ScanHistory] document, as far as access to it goes. *)
Record Scan := {
  _id : Z;
  userId : option Z
}.

(** The answers of [GET /:id]: the scan, 404 or 403. *)
Inductive response :=
| Json (scan : Scan)
| NotFound
| Forbidden.

(** The filter on [userId] of the list and of the summary: [{ userId:
    req.user._id }] for a user and [{ userId: { $exists: false } }]
    without one. *)
Definition selects (user : option Z) (scan : Scan) : bool :=
  match user with
  | Some u =>
      match userId scan with
      | Some owner => owner =? u
      | None => false
      end
  | None =>
      match userId scan with
      | Some _ => false
      | None => true
      end
  end.

(** [GET /:id], [found] being what [findById] returned. *)
Definition get_scan (found : option Scan) (user : option Z) : response :=
  match found with
  | None => NotFound
  | Some scan =>
      if match userId scan with
         | Some owner =>
             match user with
             | None => true
             | Some u => negb (owner =? u)
             end
         | None => false
         end
      then Forbidden
      else Json scan
  end.

(** The filter [{ _id: req.params.id, userId: req.user._id }] of
    [findOneAndDelete]; the route is behind [auth], so there is a user. *)
Definition deletes (id user : Z) (scan : Scan) : bool :=
  (_id scan =? id)
  && match userId scan with
     | Some owner => owner =? user
     | None => false
     end.

End HistoryRoute.

(* ================================================================== *)
(** ** Words of a text *)

Module Words.

(** [c] occurs in [text] as a run of consecutive code units. *)
Definition occurs_in (c text : JsString.t) : Prop :=
  exists pre post, text = pre ++ c ++ post.

(** [token] is at the head of [rest], letter case ignored. *)
Fixpoint prefix_ci (token rest : JsString.t) : bool :=
  match token, rest with
  | [], _ => true
  | c :: token', ch :: rest' => (upper c =? upper ch) && prefix_ci token' rest'
  | _ :: _, [] => false
  end.

(** [token] occurs in [text], letter case ignored. *)
Fixpoint contains_ci (token text : JsString.t) : bool :=
  prefix_ci token text
  || match text with
     | [] => false
     | _ :: text' => contains_ci token text'
     end.

(** An ordered list of (words, result): the result of the first entry one
    of whose words occurs in the text, [dflt] when none does. *)
Fixpoint first_keyword {A : Type} (rules : list (list string * A)) (dflt : A)
         (text : JsString.t) : A :=
  match rules with
  | [] => dflt
  | (words, a) :: rules' =>
      if existsb (fun w => contains_ci (js w) text) words then a
      else first_keyword rules' dflt text
  end.

(** The words of the currency rules. *)
Definition currencyKeywords : list (list string * (string * string)) :=
  [ (["руб"; "₽"; "рубл"; "RUB"], ("RUB", "₽"));
    (["$"; "USD"; "долл"], ("USD", "$"));
    (["€"; "EUR"; "евро"], ("EUR", "€"));
    (["₸"; "KZT"; "тенге"], ("KZT", "₸"));
    (["₴"; "UAH"; "грн"], ("UAH", "₴"));
    (["Br"; "BYN"; "бел"], ("BYN", "Br")) ]%string.

(** Words of the promotion rules that stand for a whole rule or for one
    of the two endings of a rule. *)
Definition promoWords : list string :=
  [ "акция"; "акции"; "скидка"; "скидки"; "распродаж"; "выгодн"; "sale";
    "промо"; "было" ]%string.

(** The pattern [w1|w2|...] of literal words; that of no word matches
    nothing. *)
Definition any_of (words : list string) : regex :=
  match words with
  | [] => NotAhead Empty
  | w :: ws => alts (lit w) (List.map lit ws)
  end.

(** The test [o !== null]. *)
Definition is_some {A : Type} (o : option A) : bool :=
  match o with Some _ => true | None => false end.










(** The state [s] is a position of [text]. *)
Definition state_of (text : JsString.t) (s : mstate) : Prop :=
  rev (prev s) ++ rest s = text.

(** The match [m] was found in [text]: it is derived from a position of
    [text] without captures. *)
Definition match_in (text : JsString.t) (re : regexp) (m : rmatch_result) : Prop :=
  exists s0,
    caps s0 = []
    /\ state_of text s0
    /\ derives (ignoreCase re) (source re) s0 (m_end m).

(** Two matches of a loop in the order found: the later one starts where
    the earlier one ended, or after it. *)
Definition in_turn (m1 m2 : rmatch_result) : Prop :=
  (position (m_end m1) <= m_index m2)%nat.

(** Every capture of [cs] occurs in [text]. *)
Definition caps_occur (text : JsString.t) (cs : list (nat * list Z)) : Prop :=
  Forall (fun iv => occurs_in (snd iv) text) cs.

(** [p] is the value of a decimal that is written in [text], with a point
    or a comma. *)
Definition price_written (text : JsString.t) (p : Number.t) : Prop :=
  exists c,
    occurs_in c text
    /\ forallb (allowed [46; 44]) c = true
    /\ p = Number.parseFloat (JsString.replace_first 44 46 c).

(** [d] is the value of a run of digits that is written in [text]. *)
Definition percent_written (text : JsString.t) (d : Z) : Prop :=
  exists c,
    occurs_in c text
    /\ forallb is_digit c = true
    /\ Number.parseInt c = Some d.

End Words.

(* ================================================================== *)
(** ** Inputs of the routes *)

Module RouteScenario.

(** A tag with a barcode, scanned at time 0 for a product not yet known. *)
Definition kefir : JsString.t := js "Кефир 89.90 руб 4601234567890".

Definition kefir_scan : option ScanRoute.ProductDoc :=
  match Parser.parseOcrResult kefir with
  | Some parsedData => ScanRoute.scan_product 0 (js "Кефир") parsedData None
  | None => None
  end.

Definition kefir_history : list Product.PricePoint :=
  match kefir_scan with
  | Some product => ScanRoute.priceHistory product
  | None => []
  end.

(** A product with the history [three_scans]. *)
Definition milk_product : ScanRoute.ProductDoc :=
  {| ScanRoute.barcode := Some (js "4601234567890");
     ScanRoute.name := js "Молоко";
     ScanRoute.unit := None;
     ScanRoute.priceHistory := Scenario.three_scans |}.


Definition tag_capital : JsString.t :=
  js "АКЦИЯ! КЕФИР 89,90 РУБ ЗА КГ -15% 4601234567890".

End RouteScenario.

(* ================================================================== *)
(** ** Properties of the matcher *)

Section Matcher.

Lemma advanced_refl s : advanced [] s s.
Proof. split; reflexivity. Qed.

Lemma advanced_trans w1 w2 s s1 s2 :
  advanced w1 s s1 -> advanced w2 s1 s2 -> advanced (w1 ++ w2) s s2.
Proof.
  intros [P1 R1] [P2 R2]; split.
  - rewrite P2, P1, rev_app_distr, app_assoc; reflexivity.
  - rewrite R1, R2, app_assoc; reflexivity.
Qed.

Lemma advanced_caps w s s1 cs :
  advanced w s s1 -> advanced w s (MState (prev s1) (rest s1) cs).
Proof. intros [P R]; split; assumption. Qed.

Lemma step_inv ok s k s' :
  step ok s k = Some s' ->
  exists c r, rest s = c :: r /\ ok c = true
              /\ k (MState (c :: prev s) r (caps s)) = Some s'.
Proof.
  unfold step; destruct (rest s) as [|c r]; [discriminate|].
  destruct (ok c) eqn:E; [|discriminate].
  intros H; exists c, r; auto.
Qed.

Lemma orelse_inv a b s' :
  orelse a b = Some s' -> a = Some s' \/ (a = None /\ b = Some s').
Proof. destruct a; simpl; intros H; [left | right]; auto. Qed.

(** The matcher is sound for [derives]: the state it hands to its
    continuation is one that [r] derives. *)
Lemma rmatch_sound ic r :
  forall s k s', rmatch ic r s k = Some s' ->
  exists s1, derives ic r s s1 /\ k s1 = Some s'.
Proof.
  induction r as [ | c | cs | | a IHa b IHb | a IHa b IHb | a IHa | a IHa
                   | n a IHa | i a IHa | a IHa | ]; intros s k s' H; simpl in H.
  - exists s; split; [constructor | exact H].
  - apply step_inv in H as (ch & r & R & O & K).
    eexists; split; [eapply D_Char; eassumption | exact K].
  - apply step_inv in H as (ch & r & R & O & K).
    eexists; split; [eapply D_Class; eassumption | exact K].
  - apply step_inv in H as (ch & r & R & O & K).
    eexists; split; [eapply D_Dot; eassumption | exact K].
  - apply IHa in H as (s1 & D1 & K1). apply IHb in K1 as (s2 & D2 & K2).
    exists s2; split; [econstructor; eassumption | exact K2].
  - apply orelse_inv in H as [H | [_ H]].
    + apply IHa in H as (s1 & D & K). exists s1; split; [apply D_AltL|]; assumption.
    + apply IHb in H as (s1 & D & K). exists s1; split; [apply D_AltR|]; assumption.
  - revert H; generalize (List.length (rest s)) as n; intros n; revert s.
    induction n as [|n IHn]; intros s H.
    + exists s; split; [constructor | exact H].
    + apply orelse_inv in H as [H | [_ H]].
      * apply IHa in H as (s1 & D1 & K1).
        destruct (progressed s s1) eqn:P; [|discriminate].
        apply IHn in K1 as (s2 & D2 & K2).
        exists s2; split; [eapply D_StarS; eassumption | exact K2].
      * exists s; split; [constructor | exact H].
  - apply orelse_inv in H as [H | [_ H]].
    + apply IHa in H as (s1 & D & K).
      destruct (progressed s s1); [|discriminate].
      exists s1; split; [apply D_Opt1|]; assumption.
    + exists s; split; [constructor | exact H].
  - revert s H; induction n as [|n IHn]; intros s H.
    + exists s; split; [constructor | exact H].
    + apply IHa in H as (s1 & D1 & K1). apply IHn in K1 as (s2 & D2 & K2).
      exists s2; split; [econstructor; eassumption | exact K2].
  - apply IHa in H as (s1 & D & K).
    eexists; split; [apply D_Group; exact D | exact K].
  - destruct (rmatch ic a s (fun s0 => Some s0)); [discriminate|].
    exists s; split; [constructor | exact H].
  - destruct (xorb (word_before s) (word_after s)) eqn:X; [|discriminate].
    exists s; split; [constructor; exact X | exact H].
Qed.

(** A derived state is the starting state moved forward, strictly for a
    pattern that [consumes]. *)
Lemma derives_advanced ic r s s1 :
  derives ic r s s1 ->
  exists w, advanced w s s1 /\ (consumes r = true -> w <> []).
Proof.
  induction 1 as [ s | c s ch r R O | cs s ch r R O | s ch r R O
                 | a b s s1 s2 _ [w1 [A1 C1]] _ [w2 [A2 C2]]
                 | a b s s1 _ [w [A C]] | a b s s1 _ [w [A C]]
                 | a s | a s s1 s2 _ [w1 [A1 _]] _ _ [w2 [A2 _]]
                 | a s | a s s1 _ [w [A _]]
                 | a s | n a s s1 s2 _ [w1 [A1 C1]] _ [w2 [A2 _]]
                 | i a s s1 _ [w [A C]] | a s | s X ].
  - exists []; split; [apply advanced_refl | discriminate].
  - exists [ch]; split; [split; simpl; auto | discriminate].
  - exists [ch]; split; [split; simpl; auto | discriminate].
  - exists [ch]; split; [split; simpl; auto | discriminate].
  - exists (w1 ++ w2); split; [eapply advanced_trans; eauto|].
    simpl; intros C E. apply app_eq_nil in E as [E1 E2].
    apply orb_true_iff in C as [C|C]; [exact (C1 C E1) | exact (C2 C E2)].
  - exists w; split; [exact A|]. simpl; intros E.
    apply andb_true_iff in E as [E _]; auto.
  - exists w; split; [exact A|]. simpl; intros E.
    apply andb_true_iff in E as [_ E]; auto.
  - exists []; split; [apply advanced_refl | discriminate].
  - exists (w1 ++ w2); split; [eapply advanced_trans; eauto | discriminate].
  - exists []; split; [apply advanced_refl | discriminate].
  - exists w; split; [exact A | discriminate].
  - exists []; split; [apply advanced_refl | discriminate].
  - exists (w1 ++ w2); split; [eapply advanced_trans; eauto|].
    simpl; intros C E. apply app_eq_nil in E as [E1 _]. exact (C1 C E1).
  - exists w; split; [apply advanced_caps; exact A | exact C].
  - exists []; split; [apply advanced_refl | discriminate].
  - exists []; split; [apply advanced_refl | discriminate].
Qed.

Lemma rmatch_advance ic r s k s' :
  rmatch ic r s k = Some s' ->
  exists s1 w, advanced w s s1 /\ k s1 = Some s'
               /\ (consumes r = true -> w <> []).
Proof.
  intros H. apply rmatch_sound in H as (s1 & D & K).
  apply derives_advanced in D as (w & A & C).
  exists s1, w; auto.
Qed.

(** The text between two states is the word one is moved over. *)
Lemma consumed_advanced w s s1 : advanced w s s1 -> consumed s s1 = w.
Proof.
  intros [P _]. unfold consumed, position. rewrite P, length_app, length_rev.
  replace (List.length w + List.length (prev s) - List.length (prev s))%nat
    with (List.length (rev w)) by (rewrite length_rev; lia).
  rewrite firstn_app, Nat.sub_diag, firstn_all; simpl.
  rewrite app_nil_r. apply rev_involutive.
Qed.

(** Captures are only added. *)
Lemma derives_caps ic r s s1 :
  derives ic r s s1 -> exists cs, caps s1 = cs ++ caps s.
Proof.
  induction 1 as [ s | c s ch r R O | cs s ch r R O | s ch r R O
                 | a b s s1 s2 _ [c1 E1] _ [c2 E2]
                 | a b s s1 _ [c E] | a b s s1 _ [c E]
                 | a s | a s s1 s2 _ [c1 E1] _ _ [c2 E2]
                 | a s | a s s1 _ [c E]
                 | a s | n a s s1 s2 _ [c1 E1] _ [c2 E2]
                 | i a s s1 _ [c E] | a s | s X ];
    try (exists []; reflexivity);
    try (exists (c2 ++ c1); rewrite E2, E1, app_assoc; reflexivity);
    try (exists c; exact E).
  exists ((i, consumed s s1) :: c); simpl; rewrite E; reflexivity.
Qed.

Lemma lookup_cap_app i cs cs' :
  lookup_cap i cs' <> None -> lookup_cap i (cs ++ cs') <> None.
Proof.
  intros H; induction cs as [|[j v] cs IH]; simpl; [exact H|].
  destruct (Nat.eqb i j); [discriminate | exact IH].
Qed.

Lemma derives_binds ic i r s s1 :
  derives ic r s s1 -> binds i r = true -> lookup_cap i (caps s1) <> None.
Proof.
  induction 1 as [ s | c s ch r R O | cs s ch r R O | s ch r R O
                 | a b s s1 s2 D1 IH1 D2 IH2
                 | a b s s1 _ IH | a b s s1 _ IH
                 | a s | a s s1 s2 _ _ _ _ _
                 | a s | a s s1 _ _
                 | a s | n a s s1 s2 D1 IH1 D2 _
                 | j a s s1 _ IH | a s | s X ]; simpl; try discriminate.
  - intros B. apply orb_true_iff in B as [B|B]; [|auto].
    destruct (derives_caps _ _ _ _ D2) as [c ->].
    apply lookup_cap_app; auto.
  - intros B. apply andb_true_iff in B as [B _]; auto.
  - intros B. apply andb_true_iff in B as [_ B]; auto.
  - intros B. destruct (derives_caps _ _ _ _ D2) as [c ->].
    apply lookup_cap_app; auto.
  - intros B. destruct (Nat.eqb i j); [discriminate|]. simpl in B. auto.
Qed.

(** A match found by [search] ends inside the text searched, and strictly
    after the starting point when the pattern [consumes]. *)
Lemma search_advance re :
  forall after before m, search re before after = Some m ->
  (List.length (rest (m_end m)) <= List.length after)%nat
  /\ (consumes (source re) = true ->
      (List.length (rest (m_end m)) < List.length after)%nat).
Proof.
  induction after as [|c after IH]; intros before m H; simpl in H.
  - destruct (rmatch _ _ _ _) as [s'|] eqn:E; [|discriminate].
    injection H as <-; simpl.
    apply rmatch_advance in E as (s1 & w & [_ R] & K & C).
    injection K as <-; simpl in R.
    assert (L := f_equal (@List.length Z) R); rewrite length_app in L; simpl in L.
    split; [lia|]. intros Hc; apply C in Hc. destruct w; [congruence|simpl in L; lia].
  - destruct (rmatch _ _ _ _) as [s'|] eqn:E.
    + injection H as <-; simpl.
      apply rmatch_advance in E as (s1 & w & [_ R] & K & C).
      injection K as <-; simpl in R.
      assert (L := f_equal (@List.length Z) R); rewrite length_app in L; simpl in L.
      split; [lia|]. intros Hc; apply C in Hc. destruct w; [congruence|simpl in L; lia].
    + apply IH in H as [H1 H2]; simpl; split; [lia|].
      intros Hc; apply H2 in Hc; lia.
Qed.

(** The [exec] loop over a pattern that [consumes] ends within the bound
    [exec_all] gives it. *)
Lemma exec_loop_total re (Hc : consumes (source re) = true) :
  forall fuel before after, (List.length after < fuel)%nat ->
  exists ms, exec_loop fuel re before after = Some ms.
Proof.
  induction fuel as [|fuel IH]; intros before after L; [lia|]; simpl.
  destruct (search re before after) as [m|] eqn:E; [|exists []; reflexivity].
  apply search_advance in E as [_ E]; specialize (E Hc).
  destruct (IH (prev (m_end m)) (rest (m_end m))) as [ms ->]; [lia|].
  exists (m :: ms); reflexivity.
Qed.

Lemma exec_all_total re text :
  consumes (source re) = true -> exists ms, exec_all re text = Some ms.
Proof. intros Hc; apply exec_loop_total; [exact Hc | lia]. Qed.

Lemma search_sound re :
  forall after before m, search re before after = Some m ->
  exists skipped rest0,
    after = skipped ++ rest0
    /\ m_index m = (List.length before + List.length skipped)%nat
    /\ derives (ignoreCase re) (source re)
               (MState (rev skipped ++ before) rest0 []) (m_end m)
    /\ (forall sk r, after = sk ++ r ->
        (List.length sk < List.length skipped)%nat ->
        rmatch (ignoreCase re) (source re) (MState (rev sk ++ before) r [])
               (fun s => Some s) = None).
Proof.
  induction after as [|c after IH]; intros before m H; simpl in H.
  - destruct (rmatch _ _ _ _) as [s'|] eqn:E; [|discriminate].
    injection H as <-. apply rmatch_sound in E as (s1 & D & K).
    injection K as <-. exists [], []; simpl. rewrite Nat.add_0_r.
    repeat split; auto. intros; lia.
  - destruct (rmatch _ _ _ _) as [s'|] eqn:E.
    + injection H as <-. apply rmatch_sound in E as (s1 & D & K).
      injection K as <-. exists [], (c :: after); simpl. rewrite Nat.add_0_r.
      repeat split; auto. intros; lia.
    + apply IH in H as (skipped & rest0 & -> & I & D & L).
      exists (c :: skipped), rest0; simpl in *.
      rewrite <- app_assoc; simpl. repeat split; [lia | exact D |].
      intros sk r Hsk Hl. destruct sk as [|c' sk]; simpl in *.
      * subst r. exact E.
      * injection Hsk as <- Hsk. rewrite <- app_assoc; simpl.
        apply L; [exact Hsk | lia].
Qed.

(** [search] finds a match whenever the pattern matches somewhere. *)
Lemma search_complete re :
  forall skipped before rest0,
  rmatch (ignoreCase re) (source re) (MState (rev skipped ++ before) rest0 [])
         (fun s => Some s) <> None ->
  search re before (skipped ++ rest0) <> None.
Proof.
  induction skipped as [|c skipped IH]; intros before rest0 H; simpl in *.
  - destruct rest0; simpl;
      destruct (rmatch _ _ _ _); try discriminate; contradiction.
  - destruct (rmatch _ _ (MState before _ _) _); [discriminate|].
    apply IH. rewrite <- app_assoc in H. exact H.
Qed.

Lemma search_match_of re before after m :
  search re before after = Some m -> match_of re m.
Proof.
  intros H. apply search_sound in H as (skipped & rest0 & _ & _ & D & _).
  eexists; split; [|exact D]. reflexivity.
Qed.

Lemma exec_loop_match_of re :
  forall fuel before after ms,
  exec_loop fuel re before after = Some ms -> Forall (match_of re) ms.
Proof.
  induction fuel as [|fuel IH]; intros before after ms H; simpl in H; [discriminate|].
  destruct (search re before after) as [m|] eqn:E.
  - destruct (exec_loop fuel re _ _) as [ms'|] eqn:E'; [|discriminate].
    injection H as <-. constructor; [eapply search_match_of; exact E|].
    eapply IH; exact E'.
  - injection H as <-; constructor.
Qed.

Lemma match_of_group re m i :
  binds i (source re) = true -> match_of re m -> group i m <> None.
Proof.
  intros B (s0 & _ & D). unfold group. eapply derives_binds; eassumption.
Qed.

(** *** The alphabet of captures *)

Lemma caseless_point : caseless 46.
Proof.
  intros ic ch; unfold canon, upper; destruct ic; [|intros <-; reflexivity].
  simpl.
  repeat match goal with
         | |- context [if ?b then _ else _] => destruct b eqn:?
         end; lia.
Qed.

Lemma caseless_comma : caseless 44.
Proof.
  intros ic ch; unfold canon, upper; destruct ic; [|intros <-; reflexivity].
  simpl.
  repeat match goal with
         | |- context [if ?b then _ else _] => destruct b eqn:?
         end; lia.
Qed.

Lemma existsb_eqb_In c l : existsb (Z.eqb c) l = true -> In c l.
Proof.
  intros H. apply existsb_exists in H as (x & I & E).
  apply Z.eqb_eq in E; subst; exact I.
Qed.

Lemma In_existsb_eqb c l : In c l -> existsb (Z.eqb c) l = true.
Proof. intros I. apply existsb_exists. exists c; split; [exact I | apply Z.eqb_refl]. Qed.

Lemma forallb_app_true {A} (f : A -> bool) l1 l2 :
  forallb f l1 = true -> forallb f l2 = true -> forallb f (l1 ++ l2) = true.
Proof. intros H1 H2. rewrite forallb_app, H1, H2; reflexivity. Qed.

Section Alphabet.

Variable extra : list Z.
Hypothesis extra_caseless : Forall caseless extra.

Lemma class_allowed ic cs ch :
  forallb (fun a => match a with
                    | ADigit => true
                    | AChar c => existsb (Z.eqb c) extra
                    | _ => false
                    end) cs = true ->
  in_class ic cs ch = true -> allowed extra ch = true.
Proof.
  intros O I. apply existsb_exists in I as (a & Ia & M).
  rewrite forallb_forall in O. specialize (O a Ia). unfold allowed.
  destruct a as [c| | |]; try discriminate; simpl in M.
  - apply existsb_eqb_In in O. rewrite Forall_forall in extra_caseless.
    apply Z.eqb_eq in M. apply (extra_caseless c O) in M. subst ch.
    rewrite (In_existsb_eqb c extra O). apply orb_true_r.
  - rewrite M; reflexivity.
Qed.

(** A pattern that is [only_chars] moves over allowed characters only. *)
Lemma derives_only_chars ic r s s1 :
  derives ic r s s1 -> only_chars extra r = true ->
  exists w, advanced w s s1 /\ forallb (allowed extra) w = true.
Proof.
  induction 1 as [ s | c s ch r R O | cs s ch r R O | s ch r R O
                 | a b s s1 s2 _ IH1 _ IH2
                 | a b s s1 _ IH | a b s s1 _ IH
                 | a s | a s s1 s2 _ IH1 _ _ IH2
                 | a s | a s s1 _ IH
                 | a s | n a s s1 s2 _ IH1 _ IH2
                 | i a s s1 _ IH | a s | s X ]; simpl; intros C;
    try (exists []; split; [apply advanced_refl | reflexivity]);
    try discriminate.
  - exists [ch]; split; [split; simpl; auto|]. unfold allowed; simpl.
    apply existsb_eqb_In in C. rewrite Forall_forall in extra_caseless.
    apply Z.eqb_eq in O. apply (extra_caseless c C) in O. subst ch.
    rewrite (In_existsb_eqb c extra C). rewrite orb_true_r; reflexivity.
  - exists [ch]; split; [split; simpl; auto|]. simpl.
    rewrite (class_allowed ic cs ch C O); reflexivity.
  - apply andb_true_iff in C as [Ca Cb].
    destruct (IH1 Ca) as (w1 & A1 & F1). destruct (IH2 Cb) as (w2 & A2 & F2).
    exists (w1 ++ w2); split; [eapply advanced_trans; eauto|].
    apply forallb_app_true; assumption.
  - apply andb_true_iff in C as [Ca _]. exact (IH Ca).
  - apply andb_true_iff in C as [_ Cb]. exact (IH Cb).
  - destruct (IH1 C) as (w1 & A1 & F1). destruct (IH2 C) as (w2 & A2 & F2).
    exists (w1 ++ w2); split; [eapply advanced_trans; eauto|].
    apply forallb_app_true; assumption.
  - exact (IH C).
  - destruct (IH1 C) as (w1 & A1 & F1). destruct (IH2 C) as (w2 & A2 & F2).
    exists (w1 ++ w2); split; [eapply advanced_trans; eauto|].
    apply forallb_app_true; assumption.
  - destruct (IH C) as (w & A & F).
    exists w; split; [apply advanced_caps; exact A | exact F].
Qed.

(** The captures of a pattern whose groups are [only_chars] hold allowed
    characters only. *)
Lemma derives_groups_only ic r s s1 :
  derives ic r s s1 -> groups_only extra r = true ->
  caps_allowed extra (caps s) -> caps_allowed extra (caps s1).
Proof.
  unfold caps_allowed.
  induction 1 as [ s | c s ch r R O | cs s ch r R O | s ch r R O
                 | a b s s1 s2 _ IH1 _ IH2
                 | a b s s1 _ IH | a b s s1 _ IH
                 | a s | a s s1 s2 _ IH1 _ _ IH2
                 | a s | a s s1 _ IH
                 | a s | n a s s1 s2 _ IH1 _ IH2
                 | i a s s1 D IH | a s | s X ]; simpl; intros C K;
    try exact K.
  - apply andb_true_iff in C as [Ca Cb]. auto.
  - apply andb_true_iff in C as [Ca _]. auto.
  - apply andb_true_iff in C as [_ Cb]. auto.
  - auto.
  - auto.
  - auto.
  - apply andb_true_iff in C as [Co Cg].
    constructor; [|auto]. simpl.
    destruct (derives_only_chars _ _ _ _ D Co) as (w & A & F).
    rewrite (consumed_advanced _ _ _ A). exact F.
Qed.

Lemma lookup_cap_In i cs c : lookup_cap i cs = Some c -> In (i, c) cs.
Proof.
  induction cs as [|[j v] cs IH]; simpl; [discriminate|].
  destruct (Nat.eqb_spec i j) as [->|N].
  - intros E; injection E as ->; left; reflexivity.
  - intros E; right; exact (IH E).
Qed.

Lemma match_of_group_allowed re m i c :
  groups_only extra (source re) = true -> match_of re m ->
  group i m = Some c -> forallb (allowed extra) c = true.
Proof.
  intros G (s0 & C0 & D) E.
  assert (K : caps_allowed extra (caps (m_end m))).
  { eapply derives_groups_only; [exact D | exact G |]. rewrite C0. constructor. }
  unfold group in E. apply lookup_cap_In in E.
  unfold caps_allowed in K. rewrite Forall_forall in K.
  apply (K (i, c) E).
Qed.

End Alphabet.

End Matcher.

(* ================================================================== *)
(** ** Facts on binary64 rounding *)

Module NumberFacts.
Import Number.

Local Abbreviation fexp := (SpecFloat.fexp prec emax).
Local Abbreviation emin := (SpecFloat.emin prec emax).

Lemma emin_eq : emin = -1074.
Proof. reflexivity. Qed.

Lemma fexp_eq e : fexp e = Z.max (e - 53) (-1074).
Proof. reflexivity. Qed.

(** *** Number of binary digits *)

Lemma digits2_log2 p : Zpos (digits2_pos p) = Z.log2 (Zpos p) + 1.
Proof.
  assert (S : forall q, digits2_pos q = Pos.size q)
    by (induction q; simpl; congruence).
  rewrite S; destruct p; simpl; rewrite ?Pos.add_1_r; reflexivity.
Qed.

Lemma Zdigits2_log2 m : 0 < m -> Zdigits2 m = Z.log2 m + 1.
Proof. destruct m; try lia; intros _; apply digits2_log2. Qed.

Lemma Zdigits2_nonneg m : 0 <= Zdigits2 m.
Proof. destruct m; simpl; lia. Qed.

Lemma Zdigits2_bounds m :
  0 < m -> 2 ^ (Zdigits2 m - 1) <= m < 2 ^ Zdigits2 m.
Proof.
  intros H; rewrite (Zdigits2_log2 m H).
  replace (Z.log2 m + 1 - 1) with (Z.log2 m) by lia.
  apply Z.log2_spec; exact H.
Qed.

Lemma Zdigits2_ge m j : 0 <= j -> 2 ^ j <= m -> j + 1 <= Zdigits2 m.
Proof.
  intros Hj Hm.
  assert (0 < m) by (assert (0 < 2 ^ j) by (apply Z.pow_pos_nonneg; lia); lia).
  rewrite (Zdigits2_log2 m H).
  assert (Z.log2 (2 ^ j) <= Z.log2 m) by (apply Z.log2_le_mono; exact Hm).
  rewrite Z.log2_pow2 in H0; lia.
Qed.

Lemma Zdigits2_lt m d : 0 <= d -> 0 <= m < 2 ^ d -> Zdigits2 m <= d.
Proof.
  intros Hd [H0 Hm].
  destruct (Z.eq_dec m 0) as [->|N]; [simpl; lia|].
  assert (P : 0 < m) by lia.
  destruct (Zdigits2_bounds m P) as [L _].
  destruct (Z_le_gt_dec (Zdigits2 m) d) as [|G]; [assumption|].
  assert (2 ^ d <= 2 ^ (Zdigits2 m - 1)) by (apply Z.pow_le_mono_r; lia).
  lia.
Qed.

(** *** Shifting the mantissa *)

Lemma shr_1_m mrs : 0 <= shr_m mrs -> shr_m (shr_1 mrs) = shr_m mrs / 2.
Proof.
  destruct mrs as [m r s]; simpl; intros H.
  destruct m as [|[p|p|]|p]; simpl; try lia; try reflexivity.
  - rewrite Pos2Z.inj_xI; apply Z.div_unique with 1; lia.
  - rewrite Pos2Z.inj_xO; apply Z.div_unique with 0; lia.
Qed.

Lemma iter_shr_1_m p :
  forall mrs, 0 <= shr_m mrs ->
  shr_m (iter_pos shr_1 p mrs) = shr_m mrs / 2 ^ Zpos p.
Proof.
  assert (D : forall m a b, 0 <= a -> 0 <= b -> m / 2 ^ a / 2 ^ b = m / 2 ^ (a + b)).
  { intros m a b Ha Hb. rewrite Z.pow_add_r by assumption.
    assert (0 < 2 ^ a) by (apply Z.pow_pos_nonneg; lia).
    assert (0 < 2 ^ b) by (apply Z.pow_pos_nonneg; lia).
    apply Z.div_div; lia. }
  assert (N : forall m a, 0 <= m -> 0 <= m / 2 ^ a).
  { intros m a Hm. destruct (Z_le_gt_dec 0 a).
    - apply Z.div_pos; [assumption | apply Z.pow_pos_nonneg; lia].
    - rewrite Z.pow_neg_r by lia. rewrite Z.div_0_r; lia. }
  induction p as [p IH|p IH|]; intros mrs H; cbn [iter_pos].
  - assert (H1 : 0 <= shr_m (shr_1 mrs)) by (rewrite shr_1_m by assumption; apply (N _ 1); assumption).
    rewrite IH; [rewrite IH by assumption|rewrite IH by assumption; apply N; assumption].
    rewrite shr_1_m by assumption.
    change (shr_m mrs / 2) with (shr_m mrs / 2 ^ 1).
    rewrite !D by lia. f_equal; f_equal; lia.
  - rewrite IH; [rewrite IH by assumption|rewrite IH by assumption; apply N; assumption].
    rewrite D by lia. f_equal; f_equal; lia.
  - apply shr_1_m; assumption.
Qed.

Lemma shr_record_of_loc_m m l : shr_m (shr_record_of_loc m l) = m.
Proof. destruct l as [|[]]; reflexivity. Qed.

(** [shr] by [n] divides the mantissa by [2^n] and adds [n] to the
    exponent; a non-positive [n] changes nothing. *)
Lemma shr_spec mrs e n :
  0 <= shr_m mrs ->
  shr_m (fst (shr mrs e n)) = shr_m mrs / 2 ^ Z.max n 0
  /\ snd (shr mrs e n) = e + Z.max n 0.
Proof.
  intros H; destruct n as [|p|p]; simpl.
  - rewrite Z.div_1_r; lia.
  - rewrite iter_shr_1_m by assumption; rewrite Z.max_l by lia; split; reflexivity.
  - rewrite Z.div_1_r; lia.
Qed.

Lemma shr_fexp_spec m e l :
  0 <= m ->
  let n := Z.max (fexp (Zdigits2 m + e) - e) 0 in
  shr_m (fst (shr_fexp prec emax m e l)) = m / 2 ^ n
  /\ snd (shr_fexp prec emax m e l) = e + n.
Proof.
  intros H n; unfold shr_fexp.
  destruct (shr_spec (shr_record_of_loc m l) e (fexp (Zdigits2 m + e) - e)) as [A B];
    rewrite shr_record_of_loc_m in *; auto.
Qed.

Lemma round_nearest_even_range m l :
  m <= round_nearest_even m l <= m + 1.
Proof.
  destruct l as [|[]]; simpl; try lia. destruct (Z.even m); lia.
Qed.

Lemma pow2_pos j : 0 <= j -> 0 < 2 ^ j.
Proof. intros; apply Z.pow_pos_nonneg; lia. Qed.

Lemma pow2_split a b : 0 <= a -> 0 <= b -> 2 ^ (a + b) = 2 ^ a * 2 ^ b.
Proof. intros; apply Z.pow_add_r; assumption. Qed.

(** *** The two shifts of [binary_round_aux] *)

(** A positive mantissa at an exponent not below [emin] stays positive. *)
Lemma shr_fexp_pos m e l :
  0 < m -> emin <= e ->
  0 < shr_m (fst (shr_fexp prec emax m e l))
  /\ emin <= snd (shr_fexp prec emax m e l).
Proof.
  intros Hm He.
  destruct (shr_fexp_spec m e l) as [A B]; [lia|]. rewrite A, B; clear A B.
  rewrite emin_eq in *; rewrite fexp_eq.
  destruct (Zdigits2_bounds m Hm) as [L _].
  set (d := Zdigits2 m) in *.
  destruct (Z_le_gt_dec (Z.max (d + e - 53) (-1074) - e) 0) as [C|C].
  - rewrite (Z.max_r _ 0) by lia. rewrite Z.div_1_r; lia.
  - rewrite (Z.max_l _ 0) by lia.
    assert (F : Z.max (d + e - 53) (-1074) = d + e - 53) by lia.
    rewrite F in *. replace (d + e - 53 - e) with (d - 53) in * by lia.
    split; [|lia].
    assert (2 ^ 52 <= m / 2 ^ (d - 53)); [|lia].
    apply Z.div_le_lower_bound; [apply pow2_pos; lia|].
    rewrite <- pow2_split by lia. replace (d - 53 + 52) with (d - 1) by lia.
    exact L.
Qed.

(** With enough digits on entry, the first shift leaves a mantissa of at
    most 53 bits at the canonical exponent. *)
Lemma shr_fexp_first m e l :
  0 <= m -> e <= fexp (Zdigits2 m + e) ->
  let m1 := shr_m (fst (shr_fexp prec emax m e l)) in
  let e1 := snd (shr_fexp prec emax m e l) in
  0 <= m1 < 2 ^ 53 /\ emin <= e1 /\ (emin < e1 -> 2 ^ 52 <= m1).
Proof.
  intros Hm He m1 e1; subst m1 e1.
  destruct (shr_fexp_spec m e l) as [A B]; [lia|]. rewrite A, B; clear A B.
  rewrite emin_eq in *; rewrite fexp_eq in *.
  assert (D0 := Zdigits2_nonneg m).
  set (d := Zdigits2 m) in *.
  rewrite (Z.max_l _ 0) by lia.
  set (n := Z.max (d + e - 53) (-1074) - e).
  assert (Hn : 0 <= n) by (unfold n; lia).
  assert (P := pow2_pos n Hn).
  split; [split|split].
  - apply Z.div_pos; lia.
  - apply Z.div_lt_upper_bound; [exact P|].
    destruct (Z.eq_dec m 0) as [->|N]; [assert (0 < 2 ^ 53) by (apply pow2_pos; lia); lia|].
    destruct (Zdigits2_bounds m) as [_ U]; [lia|]. fold d in U.
    rewrite <- pow2_split by lia.
    assert (2 ^ d <= 2 ^ (n + 53)) by (apply Z.pow_le_mono_r; unfold n; lia). lia.
  - unfold n; lia.
  - intros G.
    assert (F : Z.max (d + e - 53) (-1074) = d + e - 53) by lia.
    assert (Nn : n = d - 53) by (unfold n; lia).
    assert (0 < m).
    { destruct (Z.eq_dec m 0) as [E|N]; [|lia].
      subst m; unfold d in *; simpl in *; lia. }
    destruct (Zdigits2_bounds m H) as [L _]. fold d in L.
    apply Z.div_le_lower_bound; [exact P|].
    rewrite <- pow2_split by lia. replace (n + 52) with (d - 1) by lia. exact L.
Qed.

(** After rounding, the second shift yields zero or a canonical mantissa. *)
Lemma shr_fexp_second m e :
  0 <= m <= 2 ^ 53 -> emin <= e -> (emin < e -> 2 ^ 52 <= m) ->
  let m3 := shr_m (fst (shr_fexp prec emax m e loc_Exact)) in
  let e3 := snd (shr_fexp prec emax m e loc_Exact) in
  (m = 0 /\ m3 = 0)
  \/ (0 < m /\ 0 < m3 /\ fexp (Zdigits2 m3 + e3) = e3 /\ e <= e3).
Proof.
  intros Hm He Hn m3 e3; subst m3 e3.
  destruct (shr_fexp_spec m e loc_Exact) as [A B]; [lia|]. rewrite A, B; clear A B.
  rewrite emin_eq in *; rewrite !fexp_eq.
  destruct (Z.eq_dec m 0) as [->|N0].
  - left; split; [reflexivity|]. apply Z.div_0_l.
    assert (0 < 2 ^ Z.max (Z.max (Zdigits2 0 + e - 53) (-1074) - e) 0)
      by (apply pow2_pos; lia). lia.
  - right; split; [lia|].
    destruct (Z.eq_dec m (2 ^ 53)) as [->|N1].
    + assert (D : Zdigits2 (2 ^ 53) = 54) by reflexivity.
      rewrite D.
      replace (Z.max (Z.max (54 + e - 53) (-1074) - e) 0) with 1 by lia.
      change (2 ^ 53 / 2 ^ 1) with (2 ^ 52).
      assert (D' : Zdigits2 (2 ^ 52) = 53) by reflexivity.
      rewrite D'. split; [reflexivity|]. lia.
    + assert (D : Zdigits2 m <= 53) by (apply Zdigits2_lt; lia).
      assert (D0 : 1 <= Zdigits2 m).
      { apply (Zdigits2_ge m 0); [lia| change (2 ^ 0) with 1; lia]. }
      assert (Z.max (Zdigits2 m + e - 53) (-1074) = e).
      { destruct (Z.eq_dec e (-1074)) as [->|G]; [lia|].
        assert (53 <= Zdigits2 m) by (apply (Zdigits2_ge m 52); lia). lia. }
      rewrite H. replace (Z.max (e - e) 0) with 0 by lia.
      change (2 ^ 0) with 1. rewrite Z.div_1_r, Z.add_0_r, H.
      split; [lia|]. split; [reflexivity | lia].
Qed.

(** *** Results of rounding *)

(** [binary_round_aux] returns a valid Number when the mantissa it is given
    has at least as many digits as the format keeps. *)
Lemma binary_round_aux_valid s m e l :
  0 <= m -> e <= fexp (Zdigits2 m + e) ->
  valid_binary prec emax (binary_round_aux prec emax s m e l) = true.
Proof.
  intros Hm He. unfold binary_round_aux.
  assert (F := shr_fexp_first m e l Hm He); cbv zeta in F.
  destruct (shr_fexp prec emax m e l) as [mrs1 e1]; simpl fst in F; simpl snd in F.
  destruct F as (R1 & E1 & N1).
  assert (R2 := round_nearest_even_range (shr_m mrs1) (loc_of_shr_record mrs1)).
  set (m2 := round_nearest_even (shr_m mrs1) (loc_of_shr_record mrs1)) in *.
  assert (H2 : 0 <= m2 <= 2 ^ 53) by lia.
  assert (H3 : emin < e1 -> 2 ^ 52 <= m2) by (intros G; specialize (N1 G); lia).
  assert (S := shr_fexp_second m2 e1 H2 E1 H3); cbv zeta in S.
  destruct (shr_fexp prec emax m2 e1 loc_Exact) as [mrs3 e3]; simpl fst in S; simpl snd in S.
  destruct S as [[_ Z3] | (_ & P3 & C3 & _)].
  - rewrite Z3; reflexivity.
  - destruct (shr_m mrs3) as [|m3|m3]; try lia.
    destruct (e3 <=? emax - prec) eqn:B; [|reflexivity].
    simpl. unfold bounded, canonical_mantissa. rewrite B, andb_true_r.
    apply Z.eqb_eq. exact C3.
Qed.

(** A positive mantissa at an exponent not below [emin] never rounds to
    zero: the result keeps the sign it is given. *)
Lemma binary_round_aux_sign s m e l :
  0 < m -> emin <= e ->
  (exists m' e', binary_round_aux prec emax s m e l = S754_finite s m' e')
  \/ binary_round_aux prec emax s m e l = S754_infinity s.
Proof.
  intros Hm He. unfold binary_round_aux.
  assert (F := shr_fexp_pos m e l Hm He).
  destruct (shr_fexp prec emax m e l) as [mrs1 e1]; simpl fst in F; simpl snd in F.
  destruct F as [P1 E1].
  assert (R2 := round_nearest_even_range (shr_m mrs1) (loc_of_shr_record mrs1)).
  set (m2 := round_nearest_even (shr_m mrs1) (loc_of_shr_record mrs1)) in *.
  assert (H2 : 0 < m2) by lia.
  assert (S := shr_fexp_pos m2 e1 loc_Exact H2 E1).
  destruct (shr_fexp prec emax m2 e1 loc_Exact) as [mrs3 e3]; simpl fst in S; simpl snd in S.
  destruct S as [P3 _].
  destruct (shr_m mrs3) as [|m3|m3]; try lia.
  destruct (e3 <=? emax - prec); [left; eauto | right; reflexivity].
Qed.

Lemma fexp_mono a b : a <= b -> fexp a <= fexp b.
Proof. rewrite !fexp_eq; lia. Qed.

(** The quotient computed for a division has enough digits. *)
Lemma SFdiv_core_binary_digits mx ex my ey :
  let '(q, e', _) := SFdiv_core_binary prec emax (Zpos mx) ex (Zpos my) ey in
  0 <= q /\ e' <= fexp (Zdigits2 q + e').
Proof.
  unfold SFdiv_core_binary.
  set (d1 := Zdigits2 (Zpos mx)). set (d2 := Zdigits2 (Zpos my)).
  set (e' := Z.min (fexp (d1 + ex - (d2 + ey))) (ex - ey)).
  set (s := ex - ey - e').
  assert (Hs : 0 <= s) by (unfold s, e'; lia).
  set (m' := match s with Zpos _ => Z.shiftl (Zpos mx) s | 0 => Zpos mx | Zneg _ => 0 end).
  assert (Hm' : m' = Zpos mx * 2 ^ s).
  { unfold m'; destruct s as [|p|p];
      [simpl; lia | rewrite Z.shiftl_mul_pow2 by lia; reflexivity | lia]. }
  assert (Q := Z.div_eucl_eq m' (Zpos my)).
  assert (Qd : fst (Z.div_eucl m' (Zpos my)) = m' / Zpos my) by reflexivity.
  destruct (Z.div_eucl m' (Zpos my)) as [q r]; simpl in Qd; subst q.
  assert (P := pow2_pos s Hs).
  assert (L1 : 0 < Zpos mx) by lia. assert (L2 : 0 < Zpos my) by lia.
  destruct (Zdigits2_bounds _ L1) as [B1 _]; fold d1 in B1.
  destruct (Zdigits2_bounds _ L2) as [_ B2]; fold d2 in B2.
  assert (D1 : 1 <= d1) by (unfold d1; simpl; lia).
  assert (D2 : 1 <= d2) by (unfold d2; simpl; lia).
  split.
  - apply Z.div_pos; [rewrite Hm'|]; lia.
  - apply Z.le_trans with (fexp (d1 + ex - (d2 + ey))); [unfold e'; lia|].
    apply fexp_mono.
    assert (d1 - d2 + s <= Zdigits2 (m' / Zpos my)); [|unfold s in *; lia].
    destruct (Z_le_gt_dec (d1 - d2 + s) 0) as [C|C].
    + assert (N := Zdigits2_nonneg (m' / Zpos my)); lia.
    + assert (J : d1 - d2 + s - 1 + 1 <= Zdigits2 (m' / Zpos my)); [|lia].
      apply Zdigits2_ge; [lia|].
      apply Z.div_le_lower_bound; [lia|].
      assert (Pj := pow2_pos (d1 - d2 + s - 1)).
      assert (Zpos my * 2 ^ (d1 - d2 + s - 1) <= 2 ^ d2 * 2 ^ (d1 - d2 + s - 1))
        by (apply Z.mul_le_mono_nonneg_r; lia).
      rewrite <- pow2_split in H by lia.
      replace (d2 + (d1 - d2 + s - 1)) with ((d1 - 1) + s) in H by lia.
      rewrite pow2_split in H by lia.
      assert (2 ^ (d1 - 1) * 2 ^ s <= Zpos mx * 2 ^ s)
        by (apply Z.mul_le_mono_nonneg_r; lia).
      lia.
Qed.

(** Division always returns a valid Number. *)
Lemma div_valid a b : valid_binary prec emax (div a b) = true.
Proof.
  destruct a as [sa|sa| |sa ma ea], b as [sb|sb| |sb mb eb]; try reflexivity.
  unfold div, SFdiv.
  assert (D := SFdiv_core_binary_digits ma ea mb eb).
  destruct (SFdiv_core_binary prec emax (Zpos ma) ea (Zpos mb) eb) as [[q e'] l].
  destruct D as [D1 D2]. apply binary_round_aux_valid; assumption.
Qed.

(** *** Alignment and subtraction *)

Lemma iter_xO m d : Zpos (Pos.iter xO m d) = Zpos m * 2 ^ Zpos d.
Proof.
  induction d as [|d IH] using Pos.peano_ind.
  - simpl; lia.
  - rewrite Pos.iter_succ, Pos2Z.inj_xO, IH, Pos2Z.inj_succ, Z.pow_succ_r; lia.
Qed.

Lemma shl_align_spec mx ex ex' :
  Zpos (fst (shl_align mx ex ex')) = Zpos mx * 2 ^ (ex - Z.min ex ex')
  /\ snd (shl_align mx ex ex') = Z.min ex ex'.
Proof.
  unfold shl_align. destruct (ex' - ex) as [|d|d] eqn:E; simpl.
  - rewrite Z.min_l by lia. rewrite Z.sub_diag; simpl; lia.
  - rewrite Z.min_l by lia. rewrite Z.sub_diag; simpl; lia.
  - rewrite Z.min_r by lia. rewrite iter_xO.
    replace (ex - ex') with (Zpos d) by lia. split; reflexivity.
Qed.

(** Rounding a positive mantissa at an exponent not below [emin] gives a
    non-zero Number of the sign asked for. *)
Lemma binary_round_sign s mx ex :
  emin <= ex ->
  (exists m' e', binary_round prec emax s mx ex = S754_finite s m' e')
  \/ binary_round prec emax s mx ex = S754_infinity s.
Proof.
  intros He. unfold binary_round.
  destruct (shl_align_spec mx ex (fexp (Zpos (digits2_pos mx) + ex))) as [_ B].
  destruct (shl_align mx ex (fexp (Zpos (digits2_pos mx) + ex))) as [mz ez].
  simpl in B. apply binary_round_aux_sign; [lia|].
  rewrite B, emin_eq in *; rewrite fexp_eq; lia.
Qed.

(** A valid finite Number has its exponent at or above [emin], and a full
    53-bit mantissa above it. *)
Lemma bounded_inv m e :
  bounded prec emax m e = true ->
  -1074 <= e /\ Zpos m < 2 ^ 53 /\ (-1074 < e -> 2 ^ 52 <= Zpos m).
Proof.
  unfold bounded, canonical_mantissa; intros H.
  apply andb_true_iff in H as [C _]. apply Z.eqb_eq in C.
  rewrite fexp_eq in C.
  assert (P : 0 < Zpos m) by lia.
  destruct (Zdigits2_bounds _ P) as [L U]. simpl Zdigits2 in L, U.
  set (d := Zpos (digits2_pos m)) in *.
  split; [lia|]. split.
  - assert (2 ^ d <= 2 ^ 53) by (apply Z.pow_le_mono_r; lia). lia.
  - intros G. assert (2 ^ 52 <= 2 ^ (d - 1)) by (apply Z.pow_le_mono_r; lia). lia.
Qed.

(** *** The order of Numbers

    [SFcompare] is the lexicographic order of three integers: the class of
    the Number (-inf, negative, zero, positive, +inf), then its exponent
    and its mantissa, negated below zero. *)

Lemma SFcompare_key a b :
  is_nan a = false -> is_nan b = false ->
  exists c, SFcompare a b = Some c
            /\ match c with
               | Lt => key_lt a b
               | Eq => key_eq a b
               | Gt => key_lt b a
               end.
Proof.
  unfold key_lt, key_eq.
  destruct a as [sa|sa| |sa ma ea], b as [sb|sb| |sb mb eb];
    try discriminate; intros _ _; simpl;
    try (destruct sa); try (destruct sb); simpl;
    try (eexists; split; [reflexivity|]; simpl; lia).
  - change (Pos.compare_cont Eq ma mb) with (Pos.compare ma mb).
    destruct (Z.compare_spec ea eb), (Pos.compare_spec ma mb);
      (eexists; split; [reflexivity|]; simpl; lia).
  - change (Pos.compare_cont Eq ma mb) with (Pos.compare ma mb).
    destruct (Z.compare_spec ea eb), (Pos.compare_spec ma mb);
      (eexists; split; [reflexivity|]; simpl; lia).
Qed.

Lemma compare_nan_l a b : SFcompare a b <> None -> is_nan a = false.
Proof. destruct a; simpl; congruence. Qed.

Lemma compare_nan_r a b : SFcompare a b <> None -> is_nan b = false.
Proof. destruct a, b; simpl; congruence. Qed.

(** A comparison that holds: neither side is NaN, and the keys are related
    as the comparison says. *)
Ltac compare_to_key a b H :=
  let Na := fresh "Na" in
  let Nb := fresh "Nb" in
  let c := fresh "c" in
  let E := fresh "E" in
  let K := fresh "K" in
  assert (Na : is_nan a = false)
    by (apply (compare_nan_l a b); destruct (SFcompare a b); congruence);
  assert (Nb : is_nan b = false)
    by (apply (compare_nan_r a b); destruct (SFcompare a b); congruence);
  destruct (SFcompare_key a b Na Nb) as (c & E & K);
  rewrite E in H; destruct c; try discriminate; auto.

Ltac key_to_compare a b Na Nb :=
  let c := fresh "c" in
  let E := fresh "E" in
  let K := fresh "K" in
  destruct (SFcompare_key a b Na Nb) as (c & E & K);
  rewrite E; unfold key_lt, key_eq in *; destruct c; try reflexivity; lia.

Lemma ltb_key a b :
  ltb a b = true <-> is_nan a = false /\ is_nan b = false /\ key_lt a b.
Proof.
  unfold ltb, SFltb; split.
  - intros H. compare_to_key a b H.
  - intros (Na & Nb & K). key_to_compare a b Na Nb.
Qed.

Lemma leb_key a b :
  leb a b = true
  <-> is_nan a = false /\ is_nan b = false /\ (key_lt a b \/ key_eq a b).
Proof.
  unfold leb, SFleb; split.
  - intros H. compare_to_key a b H.
  - intros (Na & Nb & K). key_to_compare a b Na Nb.
Qed.

Lemma eqb_key a b :
  SFeqb a b = true <-> is_nan a = false /\ is_nan b = false /\ key_eq a b.
Proof.
  unfold SFeqb; split.
  - intros H. compare_to_key a b H.
  - intros (Na & Nb & K). key_to_compare a b Na Nb.
Qed.

Lemma leb_trans a b c : leb a b = true -> leb b c = true -> leb a c = true.
Proof.
  rewrite !leb_key; unfold key_lt, key_eq; intros (? & ? & ?) (? & ? & ?).
  repeat split; try assumption; lia.
Qed.

Lemma leb_refl a : is_nan a = false -> leb a a = true.
Proof. intros; apply leb_key; unfold key_eq; repeat split; auto. Qed.

Lemma ltb_leb a b : ltb a b = true -> leb a b = true.
Proof. rewrite ltb_key, leb_key; intuition. Qed.

Lemma ltb_false_leb a b :
  is_nan a = false -> is_nan b = false -> ltb a b = false -> leb b a = true.
Proof.
  intros Na Nb H. apply leb_key; repeat split; try assumption.
  destruct (ltb a b) eqn:E; [discriminate|].
  assert (~ key_lt a b) by (intros K; rewrite (proj2 (ltb_key a b)) in E; auto; discriminate).
  unfold key_lt, key_eq in *; lia.
Qed.

(** *** Candidate prices: valid positive finite Numbers *)

Lemma is_price_not_nan x : is_price x = true -> is_nan x = false.
Proof. destruct x as [| | |[] ? ?]; simpl; congruence. Qed.

(** Aligned to the smaller exponent, two valid mantissas compare as the
    Numbers do: by exponent, then by mantissa. *)
Lemma align_compare ma ea mb eb :
  bounded prec emax ma ea = true -> bounded prec emax mb eb = true ->
  Zpos mb * 2 ^ (eb - Z.min ea eb) < Zpos ma * 2 ^ (ea - Z.min ea eb)
  <-> (eb < ea \/ (eb = ea /\ Zpos mb < Zpos ma)).
Proof.
  intros Ba Bb.
  apply bounded_inv in Ba as (La & Ua & Na).
  apply bounded_inv in Bb as (Lb & Ub & Nb).
  assert (T : 2 ^ 53 = 2 * 2 ^ 52) by reflexivity.
  assert (P52 : 0 < 2 ^ 52) by reflexivity.
  destruct (Z.compare_spec ea eb) as [E|L|G].
  - subst eb. rewrite Z.min_id, Z.sub_diag. change (2 ^ 0) with 1. lia.
  - rewrite Z.min_l by lia. rewrite Z.sub_diag. change (2 ^ 0) with 1.
    assert (2 ^ 1 <= 2 ^ (eb - ea)) by (apply Z.pow_le_mono_r; lia).
    change (2 ^ 1) with 2 in H.
    assert (2 ^ 52 * 2 <= Zpos mb * 2 ^ (eb - ea))
      by (apply Z.mul_le_mono_nonneg; lia).
    lia.
  - rewrite Z.min_r by lia. rewrite Z.sub_diag. change (2 ^ 0) with 1.
    assert (2 ^ 1 <= 2 ^ (ea - eb)) by (apply Z.pow_le_mono_r; lia).
    change (2 ^ 1) with 2 in H.
    assert (2 ^ 52 * 2 <= Zpos ma * 2 ^ (ea - eb))
      by (apply Z.mul_le_mono_nonneg; lia).
    lia.
Qed.

(** The comparator [(a, b) => a - b] is consistent on prices: the
    difference is positive exactly when [a > b]. *)
Lemma sub_gtb a b :
  is_price a = true -> is_price b = true ->
  gtb (sub a b) zero = gtb a b.
Proof.
  destruct a as [| | |[] ma ea]; try discriminate.
  destruct b as [| | |[] mb eb]; try discriminate.
  simpl is_price; intros Ba Bb.
  assert (C := align_compare ma ea mb eb Ba Bb).
  assert (Ea : -1074 <= ea) by (apply bounded_inv in Ba; lia).
  assert (Eb : -1074 <= eb) by (apply bounded_inv in Bb; lia).
  unfold sub, SFsub; cbv zeta; unfold cond_Zopp.
  destruct (shl_align_spec ma ea (Z.min ea eb)) as [Xa _].
  destruct (shl_align_spec mb eb (Z.min ea eb)) as [Xb _].
  rewrite Xa, Xb.
  replace (Z.min ea (Z.min ea eb)) with (Z.min ea eb) in * by lia.
  replace (Z.min eb (Z.min ea eb)) with (Z.min ea eb) in * by lia.
  set (X := Zpos ma * 2 ^ (ea - Z.min ea eb)) in *.
  set (Y := Zpos mb * 2 ^ (eb - Z.min ea eb)) in *.
  assert (G : gtb (S754_finite false ma ea) (S754_finite false mb eb) = true
              <-> (eb < ea \/ (eb = ea /\ Zpos mb < Zpos ma))).
  { unfold gtb. fold (ltb (S754_finite false mb eb) (S754_finite false ma ea)).
    rewrite ltb_key; unfold key_lt; simpl. intuition lia. }
  assert (R : gtb (binary_normalize prec emax (X - Y) (Z.min ea eb) false) zero = true
              <-> Y < X).
  { unfold binary_normalize. destruct (X - Y) as [|p|p] eqn:D.
    - simpl; split; [discriminate | lia].
    - destruct (binary_round_sign false p (Z.min ea eb)) as [(m' & e' & ->) | ->];
        [rewrite emin_eq; lia | |]; simpl; split; auto; lia.
    - destruct (binary_round_sign true p (Z.min ea eb)) as [(m' & e' & ->) | ->];
        [rewrite emin_eq; lia | |]; simpl; split; try discriminate; lia. }
  destruct (gtb (S754_finite false ma ea) (S754_finite false mb eb)) eqn:E1;
    destruct (gtb (binary_normalize prec emax (X - Y) (Z.min ea eb) false) zero) eqn:E2;
    try reflexivity; exfalso.
  - assert (Y < X) by (apply C, G; reflexivity).
    apply R in H; congruence.
  - assert (Y < X) by (apply R; reflexivity).
    apply C, G in H; congruence.
Qed.

(** *** parseFloat *)

Lemma of_decimal_valid n k : valid_binary prec emax (of_decimal n k) = true.
Proof. destruct n; try reflexivity. apply div_valid. Qed.

Lemma parseFloat_valid s : valid_binary prec emax (parseFloat s) = true.
Proof.
  unfold parseFloat.
  destruct (read_digits s 0 0) as [[n c] s1].
  destruct s1 as [|ch s2].
  - destruct c; [reflexivity | apply of_decimal_valid].
  - assert (D : valid_binary prec emax
                  match c with O => NaN | _ => of_decimal n 0 end = true)
      by (destruct c; [reflexivity | apply of_decimal_valid]).
    destruct ch as [|p|p]; try exact D.
    do 6 (destruct p as [p|p|]; try exact D).
    destruct (read_digits s2 n 0) as [[n' c'] s3].
    destruct (c + c')%nat; [reflexivity | apply of_decimal_valid].
Qed.

(** A Number that passes the guard [price > 0 && price < 1000000] and
    comes from [parseFloat] is a price. *)
Lemma guard_is_price x :
  valid_binary prec emax x = true ->
  gtb x zero = true -> ltb x (of_Z 1000000) = true -> is_price x = true.
Proof.
  destruct x as [s|s| |s m e]; simpl; intros V G L; try discriminate.
  - destruct s; discriminate.
  - destruct s; [discriminate | exact V].
Qed.

(** *** Sets and sorting *)

Lemma price_eq a b :
  is_price a = true -> is_price b = true -> key_eq a b -> a = b.
Proof.
  destruct a as [| | |[] ma ea]; try discriminate.
  destruct b as [| | |[] mb eb]; try discriminate.
  unfold key_eq; simpl; intros _ _ (_ & E & M). congruence.
Qed.

Lemma price_le_neq_lt a b :
  is_price a = true -> is_price b = true -> num_le a b -> a <> b -> num_lt a b.
Proof.
  intros Pa Pb L N. apply leb_key in L as (Na & Nb & [K|K]).
  - apply ltb_key; auto.
  - elim N; apply price_eq; assumption.
Qed.

Lemma same_value_zero_refl x : same_value_zero x x = true.
Proof.
  destruct x as [s|s| |s m e]; try reflexivity.
  - destruct s; reflexivity.
  - apply eqb_key; unfold key_eq; auto.
Qed.

Lemma set_key_price x : is_price x = true -> set_key x = x.
Proof. destruct x as [| | |[] ? ?]; simpl; try discriminate; reflexivity. Qed.

(** The values of a [Set] are pairwise different. *)
Lemma set_values_NoDup xs : NoDup (set_values xs).
Proof.
  induction xs as [|x xs IH]; simpl; constructor.
  - intros H. apply filter_In in H as [_ H].
    rewrite same_value_zero_refl in H. discriminate.
  - apply NoDup_filter; exact IH.
Qed.

(** They are values that were added. *)
Lemma set_values_In xs y :
  In y (set_values xs) -> exists x, In x xs /\ y = set_key x.
Proof.
  induction xs as [|x xs IH]; simpl; intros H; [contradiction|].
  destruct H as [<-|H].
  - exists x; auto.
  - apply filter_In in H as [H _]. destruct (IH H) as (x' & I & E).
    exists x'; auto.
Qed.

Lemma sort_insert_perm cmp x l : Permutation (x :: l) (sort_insert cmp x l).
Proof.
  induction l as [|y l IH]; simpl; [reflexivity|].
  destruct (gtb (cmp x y) zero); [|reflexivity].
  rewrite perm_swap. constructor. exact IH.
Qed.

(** [sort] only rearranges the array. *)
Lemma sort_perm cmp xs : Permutation xs (sort cmp xs).
Proof.
  induction xs as [|x xs IH]; simpl; [constructor|].
  rewrite <- sort_insert_perm. constructor. exact IH.
Qed.

Lemma sort_insert_sorted x l :
  is_price x = true -> Forall (fun y => is_price y = true) l ->
  StronglySorted num_le l -> StronglySorted num_le (sort_insert sub x l).
Proof.
  intros Px Pl S. induction S as [|y l S IH F]; simpl.
  - repeat constructor.
  - apply Forall_cons_iff in Pl as [Py Pl].
    rewrite (sub_gtb x y Px Py). destruct (gtb x y) eqn:G.
    + constructor; [apply IH; exact Pl|].
      rewrite <- sort_insert_perm. constructor; [|exact F].
      apply ltb_leb; exact G.
    + assert (L : num_le x y).
      { apply ltb_false_leb; [apply is_price_not_nan; exact Py
                             | apply is_price_not_nan; exact Px | exact G]. }
      constructor; [constructor; assumption|].
      constructor; [exact L|].
      eapply Forall_impl; [|exact F]. intros z Hz. eapply leb_trans; eauto.
Qed.

(** On prices, [sort((a, b) => a - b)] gives the ascending order. *)
Lemma sort_sorted xs :
  Forall (fun y => is_price y = true) xs -> StronglySorted num_le (sort sub xs).
Proof.
  induction xs as [|x xs IH]; simpl; intros P; [constructor|].
  apply Forall_cons_iff in P as [Px P].
  apply sort_insert_sorted; [exact Px | | apply IH; exact P].
  eapply Permutation_Forall; [apply sort_perm | exact P].
Qed.

(** Ascending and pairwise different is strictly ascending. *)
Lemma sorted_strict l :
  Forall (fun y => is_price y = true) l -> NoDup l ->
  StronglySorted num_le l -> StronglySorted num_lt l.
Proof.
  intros P N S. induction S as [|y l S IH F]; [constructor|].
  apply Forall_cons_iff in P as [Py P]. inversion N as [|? ? Ny N']; subst.
  constructor; [apply IH; assumption|].
  rewrite Forall_forall in *. intros z Hz.
  apply price_le_neq_lt; auto. intros ->; contradiction.
Qed.

End NumberFacts.

(* ================================================================== *)
(** ** The parser completes and its candidates are prices *)

Module ParserFacts.
Import Number NumberFacts Parser.

Lemma pricePatterns_ok :
  Forall (fun re => consumes (source re) = true /\ binds 1 (source re) = true)
         pricePatterns.
Proof. repeat constructor. Qed.

Lemma discountPattern_ok : consumes (source discountPattern) = true.
Proof. reflexivity. Qed.

Lemma price_of_match_spec re m :
  binds 1 (source re) = true -> match_of re m ->
  exists ps, price_of_match m = Some ps
             /\ Forall (fun p => is_price p = true /\ in_range p) ps.
Proof.
  intros B M. unfold price_of_match.
  destruct (group 1 m) as [capture|] eqn:G;
    [|elim (match_of_group re m 1 B M G)].
  set (price := parseFloat (JsString.replace_first (code ",") (code ".") capture)).
  destruct (gtb price zero) eqn:G0; destruct (ltb price (of_Z 1000000)) eqn:L;
    cbn [andb]; (eexists; split; [reflexivity|]).
  2-4: constructor.
  constructor; [|constructor]. split; [|split; assumption].
  apply guard_is_price; [apply parseFloat_valid | assumption | assumption].
Qed.

Lemma prices_of_matches_spec re ms :
  binds 1 (source re) = true -> Forall (match_of re) ms ->
  exists ps, prices_of_matches ms = Some ps
             /\ Forall (fun p => is_price p = true /\ in_range p) ps.
Proof.
  intros B; induction 1 as [|m ms M _ (ps & E & F)]; simpl.
  - exists []; split; [reflexivity | constructor].
  - destruct (price_of_match_spec re m B M) as (p & -> & Fp). rewrite E.
    eexists; split; [reflexivity|]. apply Forall_app; split; assumption.
Qed.

Lemma collect_prices_spec patterns text :
  Forall (fun re => consumes (source re) = true /\ binds 1 (source re) = true)
         patterns ->
  exists ps, collect_prices patterns text = Some ps
             /\ Forall (fun p => is_price p = true /\ in_range p) ps.
Proof.
  induction 1 as [|re patterns [C B] _ (ps' & E' & F')]; simpl.
  - exists []; split; [reflexivity | constructor].
  - destruct (exec_all_total re text C) as [ms Ems]. rewrite Ems.
    apply exec_loop_match_of in Ems.
    destruct (prices_of_matches_spec re ms B Ems) as (ps & -> & F). rewrite E'.
    eexists; split; [reflexivity|]. apply Forall_app; split; assumption.
Qed.

(** No match of any pattern: nothing is collected. *)
Lemma collect_prices_none patterns text :
  Forall (fun re => exec re text = None) patterns ->
  collect_prices patterns text = Some [].
Proof.
  induction 1 as [|re patterns N _ IH]; simpl; [reflexivity|].
  unfold exec_all; simpl. unfold exec in N. rewrite N. simpl. rewrite IH.
  reflexivity.
Qed.

(** What [extractPrice] returns, from what the loops collected. *)
Lemma extractPrice_spec text :
  exists raw prices,
    collect_prices pricePatterns text = Some raw
    /\ extractPrice text = Some prices
    /\ prices = sort sub (set_values raw)
    /\ Forall (fun p => is_price p = true /\ in_range p) raw
    /\ Forall (fun p => is_price p = true /\ in_range p) prices
    /\ incl prices raw
    /\ NoDup prices
    /\ StronglySorted num_le prices.
Proof.
  destruct (collect_prices_spec pricePatterns text pricePatterns_ok) as (raw & E & F).
  exists raw, (sort sub (set_values raw)). unfold extractPrice. rewrite E.
  assert (I : forall y, In y (set_values raw) -> In y raw).
  { intros y Hy. apply set_values_In in Hy as (x & Hx & ->).
    rewrite Forall_forall in F. rewrite set_key_price; [exact Hx | apply F; exact Hx]. }
  assert (Fs : Forall (fun p => is_price p = true /\ in_range p) (set_values raw)).
  { rewrite Forall_forall in *. intros y Hy. apply F, I, Hy. }
  repeat split; try assumption.
  - eapply Permutation_Forall; [apply sort_perm | exact Fs].
  - intros y Hy. apply I. eapply Permutation_in; [symmetry; apply sort_perm | exact Hy].
  - eapply Permutation_NoDup; [apply sort_perm | apply set_values_NoDup].
  - apply sort_sorted. eapply Forall_impl; [|exact Fs]. intros p [P _]; exact P.
Qed.

Lemma extractDiscount_total text : exists d, extractDiscount text = Some d.
Proof.
  unfold extractDiscount.
  destruct (exec_all_total discountPattern text discountPattern_ok) as [ms ->].
  eexists; reflexivity.
Qed.

(** In an ascending list the first element is the least and the last one
    the greatest. *)
Lemma sorted_first_least x l :
  StronglySorted num_le (x :: l) -> is_nan x = false ->
  Forall (fun c => leb x c = true) (x :: l).
Proof.
  intros S N. inversion S; subst. constructor; [apply leb_refl; exact N | assumption].
Qed.

Lemma sorted_last_greatest l :
  StronglySorted num_le l -> Forall (fun c => is_nan c = false) l ->
  forall hi, nth_error l (List.length l - 1) = Some hi ->
  Forall (fun c => leb c hi = true) l.
Proof.
  induction 1 as [|x l S IH F]; intros N hi H; [constructor|].
  apply Forall_cons_iff in N as [Nx N].
  destruct l as [|y l'].
  - simpl in H. injection H as <-. constructor; [apply leb_refl; exact Nx | constructor].
  - assert (H' : nth_error (y :: l') (List.length (y :: l') - 1) = Some hi).
    { simpl in *. rewrite Nat.sub_0_r in *. exact H. }
    specialize (IH N hi H'). constructor; [|exact IH].
    apply nth_error_In in H'. rewrite Forall_forall in F. apply F; exact H'.
Qed.

(** The price fields of the record, from the candidates. *)
Lemma parseOcrResult_fields text prices d :
  extractPrice text = Some prices -> extractDiscount text = Some d ->
  exists r,
    parseOcrResult text = Some r
    /\ price r = (if (1 <=? List.length prices)%nat then nth_error prices 0 else None)
    /\ originalPrice r =
         (if (2 <=? List.length prices)%nat && fst (detectPromo text)
          then nth_error prices (List.length prices - 1) else None)
    /\ pricePerUnit r =
         (if (1 <? List.length prices)%nat then Some (Math_min prices) else None)
    /\ (currency r, currencySymbol r) = detectCurrency text
    /\ (isPromo r, promoType r) = detectPromo text
    /\ unit r = extractUnit text
    /\ barcode r = extractBarcode text
    /\ discountPercent r = d
    /\ rawText r = text.
Proof.
  intros E D. unfold parseOcrResult. rewrite E, D.
  destruct (detectCurrency text) as [c s]. destruct (detectPromo text) as [p t].
  generalize (extractBarcode text) (extractUnit text) (Math_min prices).
  intros bc u mn. cbn [fst].
  destruct ((2 <=? List.length prices)%nat && p) eqn:C2.
  - eexists; split; [reflexivity|].
    cbn [price originalPrice pricePerUnit currency currencySymbol unit barcode
         isPromo promoType discountPercent rawText].
    apply andb_true_iff in C2 as [C2 _]. apply Nat.leb_le in C2.
    destruct (Nat.leb_spec 1 (List.length prices)); [|lia].
    repeat split; reflexivity.
  - destruct (1 <=? List.length prices)%nat eqn:C1;
      (eexists; split; [reflexivity|]);
      cbn [price originalPrice pricePerUnit currency currencySymbol unit barcode
           isPromo promoType discountPercent rawText];
      repeat split; reflexivity.
Qed.

Lemma parseOcrResult_total text : exists r, parseOcrResult text = Some r.
Proof.
  destruct (extractPrice_spec text) as (raw & prices & _ & E & _).
  destruct (extractDiscount_total text) as [d D].
  destruct (parseOcrResult_fields text prices d E D) as (r & R & _).
  exists r; exact R.
Qed.

(** *** What [parseFloat] and [parseInt] are given

    The captures of the price patterns hold digits, points and commas
    only, and those of the discount pattern digits only: no sign, exponent
    or blank ever reaches [parseFloat] or [parseInt]. *)

Lemma price_capture_decimal re m c :
  In re pricePatterns -> match_of re m -> group 1 m = Some c ->
  forallb (allowed [46; 44]) c = true.
Proof.
  intros I M G.
  assert (C : Forall caseless [46; 44])
    by (repeat constructor; [apply caseless_point | apply caseless_comma]).
  apply (match_of_group_allowed [46; 44] C re m 1 c); try assumption.
  assert (A : Forall (fun re => groups_only [46; 44] (source re) = true) pricePatterns)
    by (repeat constructor).
  rewrite Forall_forall in A. apply A; exact I.
Qed.

Lemma discount_capture_digits m c :
  match_of discountPattern m -> group 1 m = Some c ->
  forallb is_digit c = true.
Proof.
  intros M G.
  assert (H := match_of_group_allowed [] (Forall_nil _) discountPattern m 1 c
                 eq_refl M G).
  rewrite forallb_forall in *. intros x Hx. specialize (H x Hx).
  unfold allowed in H. simpl in H. rewrite orb_false_r in H. exact H.
Qed.

(** *** The discount loop *)

Lemma discounts_are_plausible_values ms :
  flat_map discount_of_match ms = filter plausible (occurrence_values ms).
Proof.
  unfold occurrence_values.
  induction ms as [|m ms IH]; simpl; [reflexivity|].
  rewrite filter_app, <- IH. f_equal.
  unfold discount_of_match. destruct (group 1 m) as [c|]; [|reflexivity].
  destruct (parseInt c) as [v|]; [|reflexivity]. simpl. unfold plausible.
  replace (1 <=? v) with (0 <? v) by (destruct (Z.ltb_spec 0 v), (Z.leb_spec 1 v); lia).
  destruct ((0 <? v) && (v <=? 99)); reflexivity.
Qed.

Lemma fold_max_spec ds :
  forall d, In (fold_left Z.max ds d) (d :: ds)
            /\ Forall (fun x => x <= fold_left Z.max ds d) (d :: ds).
Proof.
  induction ds as [|x ds IH]; intros d; simpl.
  - split; [left; reflexivity | repeat constructor; lia].
  - destruct (IH (Z.max d x)) as [I F]. split.
    + destruct I as [I|I]; [|right; right; exact I].
      rewrite <- I. destruct (Z.max_spec d x) as [[_ ->]|[_ ->]]; auto.
    + apply Forall_cons_iff in F as [F0 F].
      constructor; [lia|]. constructor; [lia | exact F].
Qed.

Lemma max_of_spec ds :
  match max_of ds with
  | None => ds = []
  | Some d => In d ds /\ Forall (fun x => x <= d) ds
  end.
Proof. destruct ds as [|d ds]; simpl; [reflexivity | apply fold_max_spec]. Qed.

End ParserFacts.

(* ================================================================== *)
(** ** Digit runs and the barcode patterns *)

Module BarcodeFacts.
Import Parser.

Lemma is_digit_word c : is_digit c = true -> is_word c = true.
Proof. unfold is_word; intros ->. rewrite !orb_true_r; reflexivity. Qed.

Lemma rmatch_rep_digits ic w :
  forall p r c k, forallb is_digit w = true ->
  rmatch ic (Rep (List.length w) digit) (MState p (w ++ r) c) k
  = k (MState (rev w ++ p) r c).
Proof.
  induction w as [|x w IH]; intros p r c k H; [reflexivity|].
  simpl in H. apply andb_true_iff in H as [Hx Hw].
  change (rmatch ic (Rep (List.length (x :: w)) digit) (MState p ((x :: w) ++ r) c) k)
    with (step (in_class ic [ADigit]) (MState p (x :: w ++ r) c)
               (fun s' => rmatch ic (Rep (List.length w) digit) s' k)).
  unfold step; simpl rest. unfold in_class; simpl existsb. rewrite Hx.
  cbn [orb prev caps]. rewrite IH by exact Hw.
  simpl rev. rewrite <- app_assoc; reflexivity.
Qed.

Lemma derives_rep_digit ic n :
  forall s s1, derives ic (Rep n digit) s s1 ->
  exists w, advanced w s s1 /\ List.length w = n
            /\ forallb is_digit w = true /\ caps s1 = caps s.
Proof.
  induction n as [|n IH]; intros s s1 D; inversion D; subst.
  - exists []; repeat split; reflexivity.
  - match goal with H : derives _ digit _ _ |- _ => inversion H; subst end.
    match goal with H : derives _ (Rep n digit) _ _ |- _ =>
      apply IH in H as (w & [P R] & L & F & C) end.
    simpl in *. exists (ch :: w); repeat split; simpl.
    + rewrite P, <- app_assoc; reflexivity.
    + congruence.
    + congruence.
    + rewrite F, andb_true_r.
      match goal with H : (is_digit ch || false) = true |- _ =>
        rewrite orb_false_r in H; exact H end.
    + exact C.
Qed.

(** At a digit run the pattern matches. *)
Lemma rmatch_digit_run n pre run post :
  List.length run = S n -> forallb is_digit run = true ->
  starts_word (rev pre) = false -> starts_word post = false ->
  rmatch false (source (digitRun (S n))) (MState (rev pre ++ []) (run ++ post) [])
         (fun s => Some s) <> None.
Proof.
  intros L F B A. rewrite app_nil_r.
  destruct run as [|d run]; [discriminate|].
  assert (Hd : is_word d = true)
    by (simpl in F; apply andb_true_iff in F as [F _]; apply is_digit_word; exact F).
  change (source (digitRun (S n)))
    with (Seq WordB (Seq (Group 1 (Rep (S n) digit)) WordB)).
  change (rmatch false (Seq WordB (Seq (Group 1 (Rep (S n) digit)) WordB))
                 (MState (rev pre) ((d :: run) ++ post) []) (fun s => Some s))
    with (if xorb (starts_word (rev pre)) (is_word d)
          then rmatch false (Rep (S n) digit) (MState (rev pre) ((d :: run) ++ post) [])
                 (fun s' => rmatch false WordB
                    (MState (prev s') (rest s')
                       ((1%nat, consumed (MState (rev pre) ((d :: run) ++ post) []) s')
                          :: caps s'))
                    (fun s => Some s))
          else None).
  rewrite B, Hd; simpl xorb; cbv iota.
  rewrite <- L. rewrite rmatch_rep_digits by exact F.
  remember (rev (d :: run)) as rr eqn:R.
  simpl rmatch. unfold word_before, word_after; simpl prev; simpl rest.
  fold (starts_word post). rewrite A.
  destruct rr as [|z zs].
  - apply (f_equal (@List.length Z)) in R. rewrite length_rev in R. discriminate.
  - assert (Hz : is_word z = true).
    { apply is_digit_word. rewrite forallb_forall in F. apply F.
      apply in_rev. rewrite <- R. left; reflexivity. }
    simpl. rewrite Hz. simpl. discriminate.
Qed.

(** The pattern finds a match whenever the text holds a digit run. *)
Lemma exec_digitRun_complete n text pre run :
  digit_run (S n) text pre run -> exec (digitRun (S n)) text <> None.
Proof.
  intros (post & -> & L & F & B & A). unfold exec.
  apply search_complete. apply rmatch_digit_run; assumption.
Qed.

(** A match of the pattern is the leftmost digit run, and group 1 holds it. *)
Lemma exec_digitRun_sound n text m :
  exec (digitRun (S n)) text = Some m ->
  exists pre run,
    group 1 m = Some run
    /\ digit_run (S n) text pre run
    /\ (forall pre' run', digit_run (S n) text pre' run' ->
        (List.length pre <= List.length pre')%nat).
Proof.
  unfold exec; intros H.
  apply search_sound in H as (pre & rest0 & T & _ & D & Lm).
  change (source (digitRun (S n)))
    with (Seq WordB (Seq (Group 1 (Rep (S n) digit)) WordB)) in D.
  destruct m as [idx me]; simpl m_end in *. rewrite app_nil_r in D.
  inversion D as [ | | | | ? ? ? s1 ? D1 D2 | | | | | | | | | | | ]; subst.
  inversion D1 as [ | | | | | | | | | | | | | | | ? X1 ]; subst.
  inversion D2 as [ | | | | ? ? ? s2 ? D3 D4 | | | | | | | | | | | ]; subst.
  inversion D3 as [ | | | | | | | | | | | | | ? ? ? s3 D5 | | ]; subst.
  inversion D4 as [ | | | | | | | | | | | | | | | ? X2 ]; subst.
  apply derives_rep_digit in D5 as (w & A & L & F & C).
  assert (Cw := consumed_advanced _ _ _ A).
  destruct A as [P R]. simpl in P, R.
  exists pre, w. split; [|split].
  - unfold group. simpl. rewrite Cw. reflexivity.
  - exists (rest s3).
    destruct w as [|d w]; [discriminate|].
    assert (Hd : is_word d = true)
      by (simpl in F; apply andb_true_iff in F as [F' _]; apply is_digit_word; exact F').
    split; [rewrite R; reflexivity|].
    split; [exact L|]. split; [exact F|]. split.
    + unfold word_before, word_after in X1. simpl in X1. rewrite R in X1.
      simpl in X1. rewrite Hd in X1. unfold starts_word.
      destruct (rev pre) as [|c ?]; [reflexivity|].
      destruct (is_word c); [discriminate | reflexivity].
    + unfold word_before, word_after in X2. simpl in X2. rewrite P in X2.
      destruct (rev (d :: w)) as [|z zs] eqn:Rv.
      * apply (f_equal (@List.length Z)) in Rv. rewrite length_rev in Rv. discriminate.
      * assert (Hz : is_word z = true).
        { apply is_digit_word. rewrite forallb_forall in F. apply F.
          apply in_rev. rewrite Rv. left; reflexivity. }
        simpl in X2. rewrite Hz in X2. unfold starts_word.
        destruct (rest s3) as [|c ?]; [reflexivity|].
        destruct (is_word c); [discriminate | reflexivity].
  - intros pre' run' (post' & T' & L' & F' & B' & A').
    destruct (Nat.le_gt_cases (List.length pre) (List.length pre')) as [|G]; [assumption|].
    exfalso. apply (rmatch_digit_run n pre' run' post' L' F' B' A').
    apply Lm; [exact T' | exact G].
Qed.

Lemma exec_digitRun_none n text :
  ~ has_run (S n) text -> exec (digitRun (S n)) text = None.
Proof.
  intros N. destruct (exec (digitRun (S n)) text) as [m|] eqn:E; [|reflexivity].
  apply exec_digitRun_sound in E as (pre & run & _ & R & _).
  elim N; exists pre, run; exact R.
Qed.

Lemma exec_digitRun_some n text :
  has_run (S n) text ->
  exists m run, exec (digitRun (S n)) text = Some m
                /\ group 1 m = Some run /\ first_run (S n) text run.
Proof.
  intros (pre & run & R). apply exec_digitRun_complete in R.
  destruct (exec (digitRun (S n)) text) as [m|] eqn:E; [|contradiction].
  destruct (exec_digitRun_sound n text m E) as (pre' & run' & G & R' & L).
  exists m, run'; repeat split; try assumption. exists pre'; auto.
Qed.

End BarcodeFacts.

(* ================================================================== *)
(** ** Minimum, maximum and mean of a price history *)

Module ProductFacts.
Import Number NumberFacts Product.

Lemma min2_spec lowest x :
  is_nan lowest = false -> is_nan x = false ->
  is_nan (min2 lowest x) = false
  /\ leb (min2 lowest x) lowest = true /\ leb (min2 lowest x) x = true
  /\ (min2 lowest x = lowest \/ min2 lowest x = x).
Proof.
  intros Nl Nx.
  assert (G : forall r, r = (if ltb x lowest then x else lowest) ->
              is_nan r = false /\ leb r lowest = true /\ leb r x = true
              /\ (r = lowest \/ r = x)).
  { intros r ->. destruct (ltb x lowest) eqn:E.
    - repeat split; [exact Nx | apply ltb_leb; exact E | apply leb_refl; exact Nx | auto].
    - repeat split; [exact Nl | apply leb_refl; exact Nl
                    | apply ltb_false_leb; assumption | auto]. }
  destruct lowest as [[]| | |], x as [[]| | |]; try discriminate;
    try (apply G; reflexivity).
  simpl; auto.
Qed.

Lemma max2_spec highest x :
  is_nan highest = false -> is_nan x = false ->
  is_nan (max2 highest x) = false
  /\ leb highest (max2 highest x) = true /\ leb x (max2 highest x) = true
  /\ (max2 highest x = highest \/ max2 highest x = x).
Proof.
  intros Nh Nx.
  assert (G : forall r, r = (if gtb x highest then x else highest) ->
              is_nan r = false /\ leb highest r = true /\ leb x r = true
              /\ (r = highest \/ r = x)).
  { intros r ->. unfold gtb. fold (ltb highest x). destruct (ltb highest x) eqn:E.
    - repeat split; [exact Nx | apply ltb_leb; exact E | apply leb_refl; exact Nx | auto].
    - repeat split; [exact Nh | apply leb_refl; exact Nh
                    | apply ltb_false_leb; assumption | auto]. }
  destruct highest as [[]| | |], x as [[]| | |]; try discriminate;
    try (apply G; reflexivity).
  simpl; auto.
Qed.

Lemma fold_min2_spec xs :
  forall acc, is_nan acc = false -> Forall (fun x => is_nan x = false) xs ->
  is_nan (fold_left min2 xs acc) = false
  /\ leb (fold_left min2 xs acc) acc = true
  /\ Forall (fun x => leb (fold_left min2 xs acc) x = true) xs
  /\ In (fold_left min2 xs acc) (acc :: xs).
Proof.
  induction xs as [|x xs IH]; intros acc Na N; simpl.
  - repeat split; [exact Na | apply leb_refl; exact Na | constructor | auto].
  - apply Forall_cons_iff in N as [Nx N].
    destruct (min2_spec acc x Na Nx) as (Nm & La & Lx & Im).
    destruct (IH (min2 acc x) Nm N) as (Nr & Lr & Fr & Ir).
    repeat split; try assumption.
    + eapply leb_trans; eassumption.
    + constructor; [eapply leb_trans; eassumption | exact Fr].
    + destruct Ir as [Ir|Ir]; [|auto].
      rewrite <- Ir. destruct Im as [->| ->]; auto.
Qed.

Lemma fold_max2_spec xs :
  forall acc, is_nan acc = false -> Forall (fun x => is_nan x = false) xs ->
  is_nan (fold_left max2 xs acc) = false
  /\ leb acc (fold_left max2 xs acc) = true
  /\ Forall (fun x => leb x (fold_left max2 xs acc) = true) xs
  /\ In (fold_left max2 xs acc) (acc :: xs).
Proof.
  induction xs as [|x xs IH]; intros acc Na N; simpl.
  - repeat split; [exact Na | apply leb_refl; exact Na | constructor | auto].
  - apply Forall_cons_iff in N as [Nx N].
    destruct (max2_spec acc x Na Nx) as (Nm & La & Lx & Im).
    destruct (IH (max2 acc x) Nm N) as (Nr & Lr & Fr & Ir).
    repeat split; try assumption.
    + eapply leb_trans; eassumption.
    + constructor; [eapply leb_trans; eassumption | exact Fr].
    + destruct Ir as [Ir|Ir]; [|auto].
      rewrite <- Ir. destruct Im as [->| ->]; auto.
Qed.

(** [Math.min] of Numbers none of which is NaN is below each of them, and
    is one of them when there is one. *)
Lemma Math_min_spec xs :
  Forall (fun x => is_nan x = false) xs ->
  Forall (fun x => leb (Math_min xs) x = true) xs
  /\ (xs <> [] -> In (Math_min xs) xs).
Proof.
  intros N. unfold Math_min.
  destruct (fold_min2_spec xs (S754_infinity false) eq_refl N) as (_ & _ & F & I).
  split; [exact F|]. intros Hne.
  destruct I as [I|I]; [|exact I].
  destruct xs as [|x xs]; [contradiction|].
  assert (L := Forall_inv F). rewrite <- I in L.
  apply Forall_inv in N.
  destruct x as [| [] | |[] ? ?]; try discriminate.
  rewrite <- I. left; reflexivity.
Qed.

Lemma Math_max_spec xs :
  Forall (fun x => is_nan x = false) xs ->
  Forall (fun x => leb x (Math_max xs) = true) xs
  /\ (xs <> [] -> In (Math_max xs) xs).
Proof.
  intros N. unfold Math_max.
  destruct (fold_max2_spec xs (S754_infinity true) eq_refl N) as (_ & _ & F & I).
  split; [exact F|]. intros Hne.
  destruct I as [I|I]; [|exact I].
  destruct xs as [|x xs]; [contradiction|].
  assert (L := Forall_inv F). rewrite <- I in L.
  apply Forall_inv in N.
  destruct x as [| [] | |[] ? ?]; try discriminate.
  rewrite <- I. left; reflexivity.
Qed.

(** *** Exact values

    A finite Number is an integer multiple of 2^-1074; [units x] is that
    integer, the exact value of [x] in units of 2^-1074. *)

Lemma is_finite_not_nan x : is_finite x = true -> is_nan x = false.
Proof. destruct x; simpl; congruence. Qed.

Lemma units_mono ma ea mb eb :
  bounded prec emax ma ea = true -> bounded prec emax mb eb = true ->
  ea < eb \/ (ea = eb /\ Zpos ma <= Zpos mb) ->
  Zpos ma * 2 ^ (ea + 1074) <= Zpos mb * 2 ^ (eb + 1074).
Proof.
  intros Ba Bb H.
  apply bounded_inv in Ba as (La & Ua & _).
  apply bounded_inv in Bb as (Lb & _ & Nb).
  assert (Pa := pow2_pos (ea + 1074)). assert (Pb := pow2_pos (eb + 1074)).
  destruct H as [H|[-> H]].
  - assert (T : 2 ^ 53 = 2 ^ 52 * 2) by reflexivity.
    assert (S : 2 ^ (ea + 1075) = 2 ^ (ea + 1074) * 2)
      by (replace (ea + 1075) with (ea + 1074 + 1) by lia; rewrite pow2_split by lia; reflexivity).
    assert (M : 2 ^ (ea + 1075) <= 2 ^ (eb + 1074)) by (apply Z.pow_le_mono_r; lia).
    assert (A : Zpos ma * 2 ^ (ea + 1074) <= 2 ^ 53 * 2 ^ (ea + 1074))
      by (apply Z.mul_le_mono_nonneg_r; lia).
    assert (B : 2 ^ 52 * 2 ^ (ea + 1075) <= Zpos mb * 2 ^ (eb + 1074))
      by (apply Z.mul_le_mono_nonneg; try lia; apply Z.lt_le_incl; reflexivity).
    rewrite T in A. rewrite S in B. lia.
  - apply Z.mul_le_mono_nonneg_r; lia.
Qed.

Lemma units_pos m e : bounded prec emax m e = true -> 0 < Zpos m * 2 ^ (e + 1074).
Proof.
  intros B. apply bounded_inv in B as (L & _ & _).
  apply Z.mul_pos_pos; [lia | apply pow2_pos; lia].
Qed.

(** [<=] on finite Numbers is [<=] on their exact values. *)
Lemma units_le a b :
  is_finite a = true -> is_finite b = true -> leb a b = true ->
  units a <= units b.
Proof.
  intros Fa Fb L. apply leb_key in L as (_ & _ & K).
  unfold key_lt, key_eq in K.
  destruct a as [sa| | |[] ma ea], b as [sb| | |[] mb eb]; try discriminate;
    cbn [is_finite] in Fa, Fb; cbn [K1 K2 K3] in K; cbn [units];
    try (assert (Pa := units_pos ma ea Fa));
    try (assert (Pb := units_pos mb eb Fb)); try lia.
  - assert (M := units_mono mb eb ma ea Fb Fa). lia.
  - apply units_mono; try assumption. lia.
Qed.

Lemma sum_units_bounds lo hi xs :
  Forall (fun x => lo <= units x <= hi) xs ->
  Z.of_nat (List.length xs) * lo <= sum_units xs <= Z.of_nat (List.length xs) * hi.
Proof.
  induction 1 as [|x xs Hx _ IH]; simpl List.length; simpl sum_units; [lia|].
  rewrite Nat2Z.inj_succ. lia.
Qed.

End ProductFacts.

(* ================================================================== *)
(** ** The specification, claim by claim *)

Import Number NumberFacts Parser ParserFacts BarcodeFacts ProductFacts Scenario.

(** C1. For every text for which [extractPrice] yields at least two
    candidates and [detectPromo] reports a promotion, [parseOcrResult] sets
    [price] to the smallest candidate and [originalPrice] to the largest
    one, so that [originalPrice >= price]. *)
Theorem promo_price_min_original_max :
  forall (text : JsString.t) (prices : list Number.t),
  extractPrice text = Some prices ->
  (2 <= List.length prices)%nat ->
  fst (detectPromo text) = true ->
  exists r lo hi,
    parseOcrResult text = Some r
    /\ price r = Some lo /\ originalPrice r = Some hi
    /\ In lo prices /\ In hi prices
    /\ Forall (fun c => leb lo c = true /\ leb c hi = true) prices
    /\ geb hi lo = true.
Proof.
  intros text prices E L P.
  destruct (extractPrice_spec text) as (raw & prices' & _ & E' & _ & _ & F & _ & _ & S).
  rewrite E in E'; injection E' as <-.
  destruct (extractDiscount_total text) as [d D].
  destruct (parseOcrResult_fields text prices d E D)
    as (r & R & Hp & Ho & _).
  rewrite P in Ho.
  destruct (Nat.leb_spec 1 (List.length prices)); [|lia].
  destruct (Nat.leb_spec 2 (List.length prices)); [|lia].
  cbn [andb] in Ho.
  assert (N : Forall (fun c => is_nan c = false) prices).
  { eapply Forall_impl; [|exact F]. intros p [Q _]. apply is_price_not_nan; exact Q. }
  destruct prices as [|lo rest]; [simpl in L; lia|].
  destruct (nth_error (lo :: rest) (List.length (lo :: rest) - 1)) as [hi|] eqn:Hhi;
    [|apply nth_error_None in Hhi; simpl in Hhi; lia].
  assert (Lo := sorted_first_least lo rest S (Forall_inv N)).
  assert (Hi := sorted_last_greatest (lo :: rest) S N hi Hhi).
  exists r, lo, hi. repeat split; try assumption.
  - left; reflexivity.
  - eapply nth_error_In; exact Hhi.
  - rewrite Forall_forall in *. intros c Hc; split; auto.
  - unfold geb. fold (leb lo hi). rewrite Forall_forall in Hi.
    apply Hi. left; reflexivity.
Qed.

(** On [promo_tag] the candidates are 80 and 100 and the word [АКЦИЯ]
    marks a promotion. *)
Lemma promo_price_min_original_max_witness :
  exists r lo hi,
    parseOcrResult promo_tag = Some r
    /\ price r = Some lo /\ originalPrice r = Some hi
    /\ In lo [parseFloat (js "80.00"); parseFloat (js "100.00")]
    /\ In hi [parseFloat (js "80.00"); parseFloat (js "100.00")]
    /\ Forall (fun c => leb lo c = true /\ leb c hi = true)
              [parseFloat (js "80.00"); parseFloat (js "100.00")]
    /\ geb hi lo = true.
Proof.
  apply (promo_price_min_original_max promo_tag
           [parseFloat (js "80.00"); parseFloat (js "100.00")]).
  - vm_compute; reflexivity.
  - simpl; lia.
  - vm_compute; reflexivity.
Defined.

(** C2 fails: no unit rule matches the text (the litre rule needs
    [за л], [/л] or [литр]; [1л] is none of them), so [unit] is null. *)
Lemma milk_scenario_fails :
  ~ exists r, parseOcrResult milk = Some r /\ milk_scenario r.
Proof.
  intros (r & E & _ & _ & _ & U & _).
  vm_compute in E. injection E as <-. discriminate U.
Qed.

(** C2, amended. On [milk], [parseOcrResult] returns [price = 89.90],
    [currency = "RUB"], [currencySymbol = "₽"], [unit = null],
    [isPromo = false] and [barcode = null]. *)
Theorem milk_parsed :
  exists r,
    parseOcrResult milk = Some r
    /\ price r = Some n89_90
    /\ n89_90 = S754_finite false 6326150101571994 (-46)
    /\ currency r = "RUB"%string
    /\ currencySymbol r = "₽"%string
    /\ unit r = None
    /\ isPromo r = false
    /\ barcode r = None.
Proof.
  eexists. split; [vm_compute; reflexivity|].
  vm_compute. repeat split.
Qed.

(** C3. For every text, [extractPrice] completes (no error is raised) and
    returns a sequence that is duplicate-free, sorted in ascending order
    (strictly so), and whose elements all lie strictly between 0 and
    1,000,000; when none of the four patterns matches, the sequence is
    empty. *)
Theorem extractPrice_sorted_unique_in_range :
  forall text : JsString.t,
  exists prices,
    extractPrice text = Some prices
    /\ NoDup prices
    /\ StronglySorted (fun a b => leb a b = true) prices
    /\ StronglySorted (fun a b => ltb a b = true) prices
    /\ Forall (fun p => gtb p zero = true /\ ltb p (of_Z 1000000) = true) prices
    /\ (Forall (fun re => exec re text = None) pricePatterns -> prices = []).
Proof.
  intros text.
  destruct (extractPrice_spec text) as (raw & prices & Er & E & Ep & Fr & F & I & N & S).
  exists prices. repeat split; try assumption.
  - apply sorted_strict; try assumption.
    eapply Forall_impl; [|exact F]. intros p [P _]; exact P.
  - eapply Forall_impl; [|exact F]. intros p [_ R]; exact R.
  - intros H. apply collect_prices_none in H. rewrite H in Er.
    injection Er as <-. subst prices. reflexivity.
Qed.

(** C4. For every text, the record returned by [parseOcrResult] has a
    non-null [originalPrice] only if [isPromo] is true and two distinct
    valid candidates (two different values in range among the matches)
    existed; and whenever [price] is null, so is [originalPrice]. *)
Theorem originalPrice_only_with_promo_and_two_candidates :
  forall text : JsString.t,
  exists r raw,
    parseOcrResult text = Some r
    /\ collect_prices pricePatterns text = Some raw
    /\ (originalPrice r <> None ->
        isPromo r = true
        /\ exists a b, In a raw /\ In b raw /\ in_range a /\ in_range b
                       /\ ltb a b = true /\ a <> b)
    /\ (price r = None -> originalPrice r = None).
Proof.
  intros text.
  destruct (extractPrice_spec text) as (raw & prices & Er & E & _ & Fr & F & I & N & S).
  destruct (extractDiscount_total text) as [d D].
  destruct (parseOcrResult_fields text prices d E D)
    as (r & R & Hp & Ho & _ & _ & Hi & _).
  exists r, raw. repeat split; try assumption.
  - destruct (detectPromo text) as [p t]; injection Hi as -> _. cbn [fst] in Ho.
    destruct ((2 <=? List.length prices)%nat && p) eqn:C; [|congruence].
    apply andb_true_iff in C as [_ C]; exact C.
  - destruct ((2 <=? List.length prices)%nat && fst (detectPromo text)) eqn:C;
      [|congruence].
    apply andb_true_iff in C as [C _]. apply Nat.leb_le in C.
    destruct prices as [|a [|b rest]]; simpl in C; try lia.
    assert (St : StronglySorted num_lt (a :: b :: rest)).
    { apply sorted_strict; try assumption.
      eapply Forall_impl; [|exact F]. intros p [Q _]; exact Q. }
    rewrite Forall_forall in F.
    exists a, b. repeat split.
    + apply I; left; reflexivity.
    + apply I; right; left; reflexivity.
    + apply F; left; reflexivity.
    + apply F; left; reflexivity.
    + apply F; right; left; reflexivity.
    + apply F; right; left; reflexivity.
    + inversion St as [|? ? _ Fa]; subst. apply (Forall_inv Fa).
    + inversion N as [|? ? Na _]; subst. intros ->. apply Na; left; reflexivity.
  - rewrite Hp, Ho. destruct (Nat.leb_spec 1 (List.length prices)) as [L1|L1].
    + destruct prices; [simpl in L1; lia | discriminate].
    + intros _. destruct (Nat.leb_spec 2 (List.length prices)); [lia | reflexivity].
Qed.

(** C5 fails: for three entries of 89.9 the sum 269.70000000000005 and its
    third 89.90000000000002 are rounded, and the average exceeds the
    maximum 89.9. *)
Lemma aggregator_laws_fail : ~ aggregator_laws three_scans.
Proof.
  intros [_ H]. destruct H as (mn & avg & mx & _ & A & M & _ & L); [discriminate|].
  vm_compute in A, M. injection A as <-. injection M as <-.
  vm_compute in L. discriminate L.
Qed.

(** The average and the maximum of [three_scans]. *)
Example three_scans_avg_above_max :
  Product.getAvgPrice three_scans = Some (S754_finite false 6326150101571995 (-46))
  /\ Product.getMaxPrice three_scans = Some (S754_finite false 6326150101571994 (-46))
  /\ Product.getMinPrice three_scans = Some (S754_finite false 6326150101571994 (-46)).
Proof. vm_compute. repeat split. Qed.

(** C5, amended. For every price history of finite Numbers: if it is
    empty, the four methods return null; if it is not, none returns null,
    every price lies between [Product.getMinPrice()] and [Product.getMaxPrice()], which are
    prices of the history, the exact mean of the prices lies between them
    ([n * min <= sum <= n * max] on exact values), and [Product.getAvgPrice()] is
    that mean as binary64 computes it: the sum from the left, then one
    division, each operation rounded. *)
Theorem aggregates_of_history :
  forall priceHistory : list Product.PricePoint,
  Forall (fun p => is_finite (Product.price p) = true) priceHistory ->
  (priceHistory = [] ->
   Product.getCurrentPrice priceHistory = None /\ Product.getMinPrice priceHistory = None
   /\ Product.getMaxPrice priceHistory = None /\ Product.getAvgPrice priceHistory = None)
  /\ (priceHistory <> [] ->
      exists current mn avg mx,
        Product.getCurrentPrice priceHistory = Some current
        /\ Product.getMinPrice priceHistory = Some mn
        /\ Product.getAvgPrice priceHistory = Some avg
        /\ Product.getMaxPrice priceHistory = Some mx
        /\ In mn (List.map Product.price priceHistory)
        /\ In mx (List.map Product.price priceHistory)
        /\ Forall (fun p => leb mn (Product.price p) = true
                            /\ leb (Product.price p) mx = true) priceHistory
        /\ leb mn mx = true
        /\ Z.of_nat (List.length priceHistory) * units mn
           <= sum_units (List.map Product.price priceHistory)
           <= Z.of_nat (List.length priceHistory) * units mx
        /\ avg = div (fold_left add (List.map Product.price priceHistory) zero)
                     (of_Z (Z.of_nat (List.length priceHistory)))).
Proof.
  intros h F. split; [intros ->; repeat split|]. intros Hne.
  assert (Hl : List.length h <> 0%nat) by (destruct h; simpl; congruence).
  unfold Product.getCurrentPrice, Product.getMinPrice, Product.getMaxPrice, Product.getAvgPrice.
  destruct (Nat.eqb_spec (List.length h) 0); [contradiction|].
  destruct (nth_error h (List.length h - 1)) as [cur|] eqn:E;
    [|apply nth_error_None in E; lia].
  set (ps := List.map Product.price h).
  assert (Fp : Forall (fun x => is_finite x = true) ps) by (apply Forall_map; exact F).
  assert (Np : Forall (fun x => is_nan x = false) ps).
  { eapply Forall_impl; [|exact Fp]. intros x; apply is_finite_not_nan. }
  assert (Pne : ps <> []) by (unfold ps; destruct h; simpl; congruence).
  destruct (Math_min_spec ps Np) as [Fmin Imin]. specialize (Imin Pne).
  destruct (Math_max_spec ps Np) as [Fmax Imax]. specialize (Imax Pne).
  rewrite Forall_forall in Fmin, Fmax, Fp.
  exists cur, (Math_min ps). eexists. exists (Math_max ps).
  split; [reflexivity|]. split; [reflexivity|]. split; [reflexivity|].
  split; [reflexivity|]. split; [exact Imin|]. split; [exact Imax|].
  split; [|split; [|split]].
  - rewrite Forall_forall. intros p Hp.
    assert (In (Product.price p) ps) by (apply in_map; exact Hp). auto.
  - apply Fmax; exact Imin.
  - replace (List.length h) with (List.length ps) by (apply length_map).
    apply sum_units_bounds. rewrite Forall_forall. intros x Hx. split.
    + apply units_le; auto.
    + apply units_le; auto.
  - f_equal. unfold ps. clear. generalize zero.
    induction h as [|p h IH]; intros acc; simpl; [reflexivity | apply IH].
Qed.

(** [three_scans] is a history of finite Numbers. *)
Lemma aggregates_of_history_witness :
  (three_scans = [] ->
   Product.getCurrentPrice three_scans = None /\ Product.getMinPrice three_scans = None
   /\ Product.getMaxPrice three_scans = None /\ Product.getAvgPrice three_scans = None)
  /\ (three_scans <> [] ->
      exists current mn avg mx,
        Product.getCurrentPrice three_scans = Some current
        /\ Product.getMinPrice three_scans = Some mn
        /\ Product.getAvgPrice three_scans = Some avg
        /\ Product.getMaxPrice three_scans = Some mx
        /\ In mn (List.map Product.price three_scans)
        /\ In mx (List.map Product.price three_scans)
        /\ Forall (fun p => leb mn (Product.price p) = true
                            /\ leb (Product.price p) mx = true) three_scans
        /\ leb mn mx = true
        /\ Z.of_nat (List.length three_scans) * units mn
           <= sum_units (List.map Product.price three_scans)
           <= Z.of_nat (List.length three_scans) * units mx
        /\ avg = div (fold_left add (List.map Product.price three_scans) zero)
                     (of_Z (Z.of_nat (List.length three_scans)))).
Proof.
  apply (aggregates_of_history three_scans).
  repeat constructor.
Defined.

(** C6. For every text, [extractDiscount] completes and returns the
    maximum of the values of the matched percent occurrences that lie in
    [1, 99], or null if none qualifies; so a non-null [discountPercent] is
    an integer between 1 and 99. *)
Theorem extractDiscount_max_of_plausible :
  forall text : JsString.t,
  exists ms result,
    exec_all discountPattern text = Some ms
    /\ extractDiscount text = Some result
    /\ match result with
       | None =>
           Forall (fun v => ~ 1 <= v <= 99) (occurrence_values ms)
       | Some d =>
           In d (occurrence_values ms) /\ 1 <= d <= 99
           /\ Forall (fun v => 1 <= v <= 99 -> v <= d) (occurrence_values ms)
       end
    /\ (forall r d, parseOcrResult text = Some r ->
                    discountPercent r = Some d -> 1 <= d <= 99).
Proof.
  intros text.
  destruct (exec_all_total discountPattern text discountPattern_ok) as [ms E].
  assert (X : extractDiscount text = Some (max_of (flat_map discount_of_match ms)))
    by (unfold extractDiscount; rewrite E; reflexivity).
  assert (P : forall v, plausible v = true <-> 1 <= v <= 99)
    by (intros v; unfold plausible; rewrite andb_true_iff, Z.leb_le, Z.leb_le; tauto).
  assert (M := max_of_spec (flat_map discount_of_match ms)).
  rewrite discounts_are_plausible_values in M, X.
  assert (R : match max_of (filter plausible (occurrence_values ms)) with
              | None => Forall (fun v => ~ 1 <= v <= 99) (occurrence_values ms)
              | Some d =>
                  In d (occurrence_values ms) /\ 1 <= d <= 99
                  /\ Forall (fun v => 1 <= v <= 99 -> v <= d) (occurrence_values ms)
              end).
  { destruct (max_of (filter plausible (occurrence_values ms))) as [d|].
    - destruct M as [I F]. apply filter_In in I as [I Pd]. apply P in Pd.
      repeat split; try assumption; try lia.
      rewrite Forall_forall in *. intros v Hv Pv. apply F.
      apply filter_In; split; [exact Hv | apply P; exact Pv].
    - rewrite Forall_forall. intros v Hv Pv.
      assert (In v (filter plausible (occurrence_values ms)))
        by (apply filter_In; split; [exact Hv | apply P; exact Pv]).
      rewrite M in H. contradiction. }
  exists ms, (max_of (filter plausible (occurrence_values ms))).
  repeat split; try assumption.
  - destruct (extractPrice_spec text) as (raw & prices & _ & Ep & _).
    destruct (parseOcrResult_fields text prices _ Ep X) as (r' & R' & F').
    rewrite R' in H. injection H as <-.
    destruct F' as (_ & _ & _ & _ & _ & _ & _ & Hd & _).
    rewrite Hd in H0. rewrite H0 in R. lia.
  - destruct (extractPrice_spec text) as (raw & prices & _ & Ep & _).
    destruct (parseOcrResult_fields text prices _ Ep X) as (r' & R' & F').
    rewrite R' in H. injection H as <-.
    destruct F' as (_ & _ & _ & _ & _ & _ & _ & Hd & _).
    rewrite Hd in H0. rewrite H0 in R. lia.
Qed.

(** C7. For every text, [extractBarcode] tries the 13-digit pattern, then
    the 8-digit one, then the 12-digit one, and returns the first match of
    the first pattern that matches, null if none does: a 13-digit run is
    returned whatever other runs the text holds, an 8-digit run when there
    is no 13-digit run, even next to a 12-digit run, and a 12-digit run
    only when there is neither. *)
Theorem extractBarcode_priority :
  forall text : JsString.t,
  (extractBarcode text =
     match exec (digitRun 13) text with
     | Some ean13 => group 1 ean13
     | None =>
         match exec (digitRun 8) text with
         | Some ean8 => group 1 ean8
         | None =>
             match exec (digitRun 12) text with
             | Some upc => group 1 upc
             | None => None
             end
         end
     end)
  /\ (exec (digitRun 13) text <> None <-> has_run 13 text)
  /\ (exec (digitRun 8) text <> None <-> has_run 8 text)
  /\ (exec (digitRun 12) text <> None <-> has_run 12 text)
  /\ (has_run 13 text ->
      exists b, extractBarcode text = Some b /\ first_run 13 text b)
  /\ (~ has_run 13 text -> has_run 8 text ->
      exists b, extractBarcode text = Some b /\ first_run 8 text b)
  /\ (~ has_run 13 text -> ~ has_run 8 text -> has_run 12 text ->
      exists b, extractBarcode text = Some b /\ first_run 12 text b)
  /\ (~ has_run 13 text -> ~ has_run 8 text -> ~ has_run 12 text ->
      extractBarcode text = None).
Proof.
  intros text.
  assert (I : forall n, exec (digitRun (S n)) text <> None <-> has_run (S n) text).
  { intros n; split.
    - intros H. destruct (exec (digitRun (S n)) text) as [m|] eqn:E; [|contradiction].
      apply exec_digitRun_sound in E as (pre & run & _ & R & _).
      exists pre, run; exact R.
    - intros (pre & run & R). eapply exec_digitRun_complete; exact R. }
  split; [reflexivity|]. split; [apply I|]. split; [apply I|]. split; [apply I|].
  unfold extractBarcode. repeat split.
  - intros H. apply exec_digitRun_some in H as (m & run & -> & G & F).
    exists run; auto.
  - intros N13 H. rewrite (exec_digitRun_none _ _ N13).
    apply exec_digitRun_some in H as (m & run & -> & G & F).
    exists run; auto.
  - intros N13 N8 H.
    rewrite (exec_digitRun_none _ _ N13), (exec_digitRun_none _ _ N8).
    apply exec_digitRun_some in H as (m & run & -> & G & F).
    exists run; auto.
  - intros N13 N8 N12.
    rewrite (exec_digitRun_none _ _ N13), (exec_digitRun_none _ _ N8),
            (exec_digitRun_none _ _ N12). reflexivity.
Qed.

(** A tag that holds a run of each length, the 12-digit one first. *)
Example extractBarcode_three_runs :
  extractBarcode (js "123456789012 12345678 4607025392244") = Some (js "4607025392244")
  /\ extractBarcode (js "123456789012 12345678") = Some (js "12345678")
  /\ extractBarcode (js "123456789012") = Some (js "123456789012")
  /\ extractBarcode (js "1234567") = None.
Proof. vm_compute. repeat split. Qed.

(** C8. On the empty string, [parseOcrResult] returns normally, with
    [price], [originalPrice], [pricePerUnit], [unit], [barcode],
    [promoType] and [discountPercent] null, [currency = "RUB"],
    [currencySymbol = "₽"] and [isPromo = false]. *)
Theorem empty_text_parsed :
  parseOcrResult (js "") =
  Some {| price := None;
          originalPrice := None;
          pricePerUnit := None;
          currency := "RUB";
          currencySymbol := "₽";
          unit := None;
          barcode := None;
          isPromo := false;
          promoType := None;
          discountPercent := None;
          rawText := js "" |}.
Proof. vm_compute. reflexivity. Qed.

(** C9. There is a text for which [parseOcrResult] returns a non-null
    [discountPercent] while [isPromo] is false: on the bare percentage
    [10%] the discount pattern matches and no promotion rule does. *)
Theorem discount_without_promo :
  exists (text : JsString.t) (r : ParsedData),
    text = js "10%"
    /\ parseOcrResult text = Some r
    /\ discountPercent r = Some 10
    /\ extractDiscount text = Some (Some 10)
    /\ isPromo r = false
    /\ Forall (fun rule => test (fst rule) text = false) promoPatterns.
Proof.
  eexists; eexists. split; [reflexivity|].
  split; [vm_compute; reflexivity|].
  split; [reflexivity|]. split; [vm_compute; reflexivity|].
  split; [reflexivity|].
  assert (H : forallb (fun rule => negb (test (fst rule) (js "10%"))) promoPatterns = true)
    by (vm_compute; reflexivity).
  rewrite forallb_forall in H. apply Forall_forall. intros rule Hin.
  apply negb_true_iff. apply H; exact Hin.
Qed.

(** C10. For every non-empty price history (whose prices are Numbers, not
    NaN), [Product.getMinPrice() <= Product.getCurrentPrice().price <= Product.getMaxPrice()]: the
    current entry is the last one, and the minimum and the maximum range
    over all entries. *)
Theorem current_price_between_min_and_max :
  forall priceHistory : list Product.PricePoint,
  priceHistory <> [] ->
  Forall (fun p => is_nan (Product.price p) = false) priceHistory ->
  exists current mn mx,
    Product.getCurrentPrice priceHistory = Some current
    /\ Product.getMinPrice priceHistory = Some mn
    /\ Product.getMaxPrice priceHistory = Some mx
    /\ last priceHistory current = current
    /\ leb mn (Product.price current) = true
    /\ leb (Product.price current) mx = true.
Proof.
  intros h Hne N.
  assert (Hl : List.length h <> 0%nat) by (destruct h; simpl; congruence).
  unfold Product.getCurrentPrice, Product.getMinPrice, Product.getMaxPrice.
  destruct (Nat.eqb_spec (List.length h) 0); [contradiction|].
  destruct (nth_error h (List.length h - 1)) as [cur|] eqn:E;
    [|apply nth_error_None in E; lia].
  assert (Nm : Forall (fun x => is_nan x = false) (List.map Product.price h))
    by (apply Forall_map; exact N).
  destruct (Math_min_spec _ Nm) as [Fmin _].
  destruct (Math_max_spec _ Nm) as [Fmax _].
  assert (I : In (Product.price cur) (List.map Product.price h))
    by (apply in_map; eapply nth_error_In; exact E).
  rewrite Forall_forall in Fmin, Fmax.
  exists cur, (Math_min (List.map Product.price h)), (Math_max (List.map Product.price h)).
  repeat split; auto.
  clear - E Hne. revert E. induction h as [|p h IH]; [contradiction|].
  destruct h as [|q h]; simpl.
  - intros E; injection E as <-; reflexivity.
  - intros E. simpl in IH. rewrite Nat.sub_0_r in IH. apply IH; [discriminate | exact E].
Qed.

(** On [three_scans] the three of them are 89.9. *)
Lemma current_price_between_min_and_max_witness :
  exists current mn mx,
    Product.getCurrentPrice three_scans = Some current
    /\ Product.getMinPrice three_scans = Some mn
    /\ Product.getMaxPrice three_scans = Some mx
    /\ last three_scans current = current
    /\ leb mn (Product.price current) = true
    /\ leb (Product.price current) mx = true.
Proof.
  apply (current_price_between_min_and_max three_scans).
  - discriminate.
  - repeat constructor.
Defined.

(* ================================================================== *)
(** * Further properties of the parser and of the routes that use it *)

(** ** The record of [parseOcrResult] *)

Module RecordFacts.

Lemma leb_antisym a b :
  is_price a = true -> is_price b = true ->
  leb a b = true -> leb b a = true -> a = b.
Proof.
  intros Pa Pb Hab Hba. apply price_eq; [assumption | assumption |].
  apply leb_key in Hab as (_ & _ & Hab). apply leb_key in Hba as (_ & _ & Hba).
  unfold key_lt, key_eq in *. lia.
Qed.

Lemma leb_not_ltb a b : leb a b = true -> ltb b a = false.
Proof.
  intros Hab. destruct (ltb b a) eqn:L; [|reflexivity].
  apply leb_key in Hab as (_ & _ & Hab). apply ltb_key in L as (_ & _ & L).
  unfold key_lt, key_eq in *. lia.
Qed.

(** [Math.min] of an ascending array of prices is its first element. *)
Lemma Math_min_sorted x l :
  Forall (fun p => is_price p = true) (x :: l) ->
  StronglySorted num_le (x :: l) ->
  Math_min (x :: l) = x.
Proof.
  intros P S.
  assert (N : Forall (fun p => is_nan p = false) (x :: l)).
  { eapply Forall_impl; [|exact P]. intros p; apply is_price_not_nan. }
  destruct (Math_min_spec (x :: l) N) as [L I].
  specialize (I ltac:(discriminate)).
  rewrite Forall_forall in P, L.
  pose proof (sorted_first_least x l S (is_price_not_nan x (P x (or_introl eq_refl)))) as F.
  rewrite Forall_forall in F.
  apply leb_antisym.
  - apply P; exact I.
  - apply P; left; reflexivity.
  - apply L; left; reflexivity.
  - apply F; exact I.
Qed.

Lemma set_values_nil xs : set_values xs = [] -> xs = [].
Proof. destruct xs; [reflexivity | discriminate]. Qed.

Lemma sort_nil cmp xs : sort cmp xs = [] -> xs = [].
Proof.
  intros E. apply Permutation_nil. rewrite <- E. symmetry. apply sort_perm.
Qed.

(** The price fields of a record, from the candidates of [extractPrice]. *)
Lemma parsed_prices text r :
  parseOcrResult text = Some r ->
  exists raw prices,
    collect_prices pricePatterns text = Some raw
    /\ extractPrice text = Some prices
    /\ (prices = [] <-> raw = [])
    /\ Forall (fun p => is_price p = true /\ in_range p) prices
    /\ StronglySorted num_le prices
    /\ price r = hd_error prices
    /\ originalPrice r =
         (if (2 <=? List.length prices)%nat && isPromo r
          then nth_error prices (List.length prices - 1) else None)
    /\ pricePerUnit r =
         (if (2 <=? List.length prices)%nat then Some (Math_min prices) else None)
    /\ barcode r = extractBarcode text.
Proof.
  intros R.
  destruct (extractPrice_spec text) as (raw & prices & C & E & S & _ & F & _ & _ & St).
  destruct (extractDiscount_total text) as [d D].
  destruct (parseOcrResult_fields text prices d E D)
    as (r' & R' & Hp & Ho & Hu & _ & Hpromo & _ & Hb & _).
  rewrite R in R'. injection R' as <-.
  exists raw, prices. repeat split; try assumption.
  - intros ->. symmetry in S. apply sort_nil, set_values_nil in S. exact S.
  - intros ->. exact S.
  - rewrite Hp. destruct prices; reflexivity.
  - rewrite Ho. replace (fst (detectPromo text)) with (isPromo r); [reflexivity|].
    rewrite <- Hpromo. reflexivity.
Qed.

(** A price field holds one of the candidates. *)
Lemma parsed_price_In text r p :
  parseOcrResult text = Some r ->
  price r = Some p \/ originalPrice r = Some p \/ pricePerUnit r = Some p ->
  exists raw prices,
    collect_prices pricePatterns text = Some raw
    /\ extractPrice text = Some prices
    /\ In p prices /\ In p raw.
Proof.
  intros R H.
  destruct (parsed_prices text r R) as (raw & prices & C & E & _ & F & St & Hp & Ho & Hu & _).
  destruct (extractPrice_spec text) as (raw' & prices' & C' & E' & _ & _ & _ & I' & _).
  rewrite C in C'. injection C' as <-. rewrite E in E'. injection E' as <-.
  exists raw, prices. split; [exact C|]. split; [exact E|].
  assert (I : In p prices); [|split; [exact I | apply I'; exact I]].
  rewrite Forall_forall in F.
  destruct H as [H | [H | H]].
  - rewrite Hp in H. destruct prices; [discriminate|]. injection H as <-. left; reflexivity.
  - rewrite Ho in H. destruct ((2 <=? List.length prices)%nat && isPromo r); [|discriminate].
    apply nth_error_In in H. exact H.
  - rewrite Hu in H. destruct prices as [|x l]; [discriminate|].
    destruct (2 <=? List.length (x :: l))%nat; [|discriminate]. injection H as <-.
    rewrite Math_min_sorted; [left; reflexivity | | exact St].
    apply Forall_forall. intros q Hq. apply F; exact Hq.
Qed.

(** A price field holds a price that passed the guard. *)
Lemma parsed_price_in_range text r p :
  parseOcrResult text = Some r ->
  price r = Some p \/ originalPrice r = Some p \/ pricePerUnit r = Some p ->
  is_price p = true /\ in_range p.
Proof.
  intros R H.
  destruct (parsed_price_In text r p R H) as (raw & prices & _ & E & I & _).
  destruct (extractPrice_spec text) as (raw' & prices' & _ & E' & _ & _ & F & _).
  rewrite E in E'. injection E' as <-.
  rewrite Forall_forall in F. apply F; exact I.
Qed.

(** The original price is not below the price. *)
Lemma parsed_original_price text r p o :
  parseOcrResult text = Some r ->
  price r = Some p -> originalPrice r = Some o ->
  isPromo r = true /\ leb p o = true /\ p <> o.
Proof.
  intros R Hp' Ho'.
  destruct (parsed_prices text r R)
    as (raw & prices & _ & E & _ & F & St & Hp & Ho & _).
  destruct (extractPrice_spec text) as (_ & prices' & _ & E' & _ & _ & _ & _ & ND & _).
  rewrite E in E'. injection E' as <-.
  rewrite Hp in Hp'. rewrite Ho in Ho'.
  destruct prices as [|x l]; [discriminate|]. injection Hp' as <-.
  destruct (2 <=? List.length (x :: l))%nat eqn:L2; [|discriminate].
  destruct (isPromo r); [|discriminate]. cbn [andb] in Ho'.
  split; [reflexivity|].
  destruct l as [|y l]; [discriminate|].
  assert (I : In o (y :: l)).
  { change (nth_error (y :: l) (List.length l) = Some o) in Ho'.
    apply nth_error_In in Ho'. exact Ho'. }
  split.
  - inversion St as [|? ? _ Fp]; subst. rewrite Forall_forall in Fp. apply Fp; exact I.
  - intros ->. inversion ND; subst. contradiction.
Qed.

(** The result of an ordered rule list is the default or in the table. *)
Lemma first_rule_In {A : Type} (rules : list (regexp * A)) dflt text :
  first_rule rules dflt text = dflt
  \/ In (first_rule rules dflt text) (List.map snd rules).
Proof.
  induction rules as [|[re a] rules IH]; simpl; [left; reflexivity|].
  destruct (test re text); [right; left; reflexivity|].
  destruct IH as [IH | IH]; [left | right; right]; exact IH.
Qed.

End RecordFacts.

(* ================================================================== *)
(** ** The scan route *)

Module ScanFacts.
Import ScanRoute RecordFacts.

Lemma has_run_exec n text :
  has_run (S n) text <-> exec (digitRun (S n)) text <> None.
Proof.
  split.
  - intros (pre & run & H). eapply exec_digitRun_complete; exact H.
  - intros H. destruct (exec (digitRun (S n)) text) as [m|] eqn:E; [|contradiction].
    destruct (exec_digitRun_sound n text m E) as (pre & run & _ & D & _).
    exists pre, run; exact D.
Qed.

Lemma exec_digitRun_first n text m :
  exec (digitRun (S n)) text = Some m ->
  exists run, group 1 m = Some run /\ first_run (S n) text run.
Proof.
  intros E. destruct (exec_digitRun_sound n text m E) as (pre & run & G & D & L).
  exists run. split; [exact G|]. exists pre. split; assumption.
Qed.

(** What [extractBarcode] returns: the first run of the first length, in
    the order 13, 8, 12, that the text has a run of. *)
Lemma extractBarcode_run text :
  match extractBarcode text with
  | Some b =>
      exists n,
        first_run n text b
        /\ (n = 13 \/ (n = 8 /\ ~ has_run 13 text)
            \/ (n = 12 /\ ~ has_run 13 text /\ ~ has_run 8 text))%nat
  | None => ~ has_run 13 text /\ ~ has_run 8 text /\ ~ has_run 12 text
  end.
Proof.
  unfold extractBarcode.
  destruct (exec (digitRun 13) text) as [m|] eqn:E13.
  { destruct (exec_digitRun_first _ _ _ E13) as (run & -> & F).
    exists 13%nat. split; [exact F | left; reflexivity]. }
  assert (N13 : ~ has_run 13 text).
  { intros H. apply has_run_exec in H. apply H; exact E13. }
  destruct (exec (digitRun 8) text) as [m|] eqn:E8.
  { destruct (exec_digitRun_first _ _ _ E8) as (run & -> & F).
    exists 8%nat. split; [exact F | right; left; split; [reflexivity | exact N13]]. }
  assert (N8 : ~ has_run 8 text).
  { intros H. apply has_run_exec in H. apply H; exact E8. }
  destruct (exec (digitRun 12) text) as [m|] eqn:E12.
  { destruct (exec_digitRun_first _ _ _ E12) as (run & -> & F).
    exists 12%nat. split; [exact F | right; right; repeat split; assumption]. }
  repeat split; try assumption.
  intros H. apply has_run_exec in H. apply H; exact E12.
Qed.

Lemma first_run_length n text b : first_run n text b -> List.length b = n.
Proof. intros (pre & (post & _ & L & _) & _). exact L. Qed.

(** A barcode is never the empty string: the route's test of it is a test
    for [null]. *)
Lemma barcode_truthy text :
  truthy_string (extractBarcode text) = true <-> extractBarcode text <> None.
Proof.
  pose proof (extractBarcode_run text) as H.
  destruct (extractBarcode text) as [b|]; [|split; [discriminate | intros C; elim C; reflexivity]].
  split; [discriminate|]. intros _.
  destruct H as (n & F & Hn). apply first_run_length in F.
  destruct b; [|reflexivity]. simpl in F. lia.
Qed.

Lemma price_truthy p : is_price p = true -> truthy_number (Some p) = true.
Proof. destruct p as [| | |[] m e]; try discriminate. reflexivity. Qed.

Lemma scan_product_some text now productName r found :
  parseOcrResult text = Some r ->
  extractBarcode text <> None ->
  exists doc,
    scan_product now productName r found = Some doc
    /\ ScanRoute.barcode doc = ScanRoute.barcode (find_or_new productName r found)
    /\ name doc = name (find_or_new productName r found)
    /\ ScanRoute.unit doc = ScanRoute.unit (find_or_new productName r found)
    /\ priceHistory doc =
         priceHistory (find_or_new productName r found)
         ++ match price r with
            | Some p => [entry now r p]
            | None => []
            end.
Proof.
  intros R B. unfold scan_product.
  destruct (parsed_prices text r R) as (raw & prices & _ & _ & _ & _ & _ & _ & _ & _ & Hb).
  rewrite Hb. apply barcode_truthy in B. rewrite B.
  fold (find_or_new productName r found).
  destruct (price r) as [p|] eqn:P.
  - destruct (parsed_price_in_range text r p R (or_introl P)) as [Ip _].
    rewrite (price_truthy p Ip). eexists. split; [reflexivity|].
    repeat split.
  - eexists. split; [reflexivity|]. repeat split. symmetry; apply app_nil_r.
Qed.

Lemma scan_product_none text now productName r found :
  parseOcrResult text = Some r ->
  extractBarcode text = None ->
  scan_product now productName r found = None.
Proof.
  intros R B. unfold scan_product.
  destruct (parsed_prices text r R) as (raw & prices & _ & _ & _ & _ & _ & _ & _ & _ & Hb).
  rewrite Hb, B. reflexivity.
Qed.

Lemma scan_product_inv text now productName r found doc :
  parseOcrResult text = Some r ->
  scan_product now productName r found = Some doc ->
  extractBarcode text <> None
  /\ priceHistory doc =
       priceHistory (find_or_new productName r found)
       ++ match price r with
          | Some p => [entry now r p]
          | None => []
          end.
Proof.
  intros R S.
  destruct (extractBarcode text) as [b|] eqn:B.
  - split; [discriminate|].
    destruct (scan_product_some text now productName r found R) as (doc' & S' & _ & _ & _ & H).
    { rewrite B; discriminate. }
    rewrite S in S'. injection S' as <-. exact H.
  - rewrite (scan_product_none text now productName r found R B) in S. discriminate.
Qed.

Lemma entry_well_formed text now r p :
  parseOcrResult text = Some r -> price r = Some p ->
  well_formed (entry now r p).
Proof.
  intros R P. unfold well_formed. cbn [entry Product.price Product.originalPrice Product.isPromo].
  destruct (parsed_price_in_range text r p R (or_introl P)) as [Ip Rp].
  split; [exact Rp|]. split; [exact Ip|].
  intros o O.
  destruct (parsed_original_price text r p o R P O) as (Pr & L & _).
  destruct (parsed_price_in_range text r o R (or_intror (or_introl O))) as [_ Ro].
  split; [|split]; assumption.
Qed.

Lemma scan_preserves_well_formed text now productName r found doc :
  parseOcrResult text = Some r ->
  scan_product now productName r found = Some doc ->
  Forall well_formed (priceHistory (find_or_new productName r found)) ->
  Forall well_formed (priceHistory doc).
Proof.
  intros R S F. destruct (scan_product_inv _ _ _ _ _ _ R S) as [_ ->].
  apply Forall_app. split; [exact F|].
  destruct (price r) as [p|] eqn:P; constructor; [|constructor].
  eapply entry_well_formed; eassumption.
Qed.

(** Every entry of a history that scans built is well formed. *)
Lemma scanned_well_formed h : scanned h -> Forall well_formed h.
Proof.
  induction 1 as [text now productName r doc R S
                 | text now productName r found doc _ IH R S].
  - eapply scan_preserves_well_formed; [exact R | exact S | constructor].
  - eapply scan_preserves_well_formed; [exact R | exact S | exact IH].
Qed.

Lemma well_formed_not_nan h :
  Forall well_formed h -> Forall (fun x => is_nan x = false) (List.map Product.price h).
Proof.
  intros F. apply Forall_map. eapply Forall_impl; [|exact F].
  intros p (_ & P & _). apply is_price_not_nan; exact P.
Qed.

Lemma getCurrentPrice_app h p : Product.getCurrentPrice (h ++ [p]) = Some p.
Proof.
  unfold Product.getCurrentPrice. rewrite length_app. cbn [List.length].
  replace (List.length h + 1)%nat with (S (List.length h)) by lia.
  cbn [Nat.eqb Nat.sub]. rewrite Nat.sub_0_r.
  rewrite nth_error_app2 by lia. rewrite Nat.sub_diag. reflexivity.
Qed.

Lemma getCurrentPrice_In h p : Product.getCurrentPrice h = Some p -> In p h.
Proof.
  unfold Product.getCurrentPrice. destruct (List.length h =? 0)%nat; [discriminate|].
  apply nth_error_In.
Qed.

Lemma getCurrentPrice_some h :
  h <> [] -> exists p, Product.getCurrentPrice h = Some p.
Proof.
  intros N. destruct (exists_last N) as (h' & p & ->).
  exists p. apply getCurrentPrice_app.
Qed.

Lemma exists_last_or_nil {A : Type} (l : list A) :
  l = [] \/ exists l' x, l = l' ++ [x].
Proof.
  destruct l as [|a l]; [left; reflexivity | right].
  destruct (exists_last (l := a :: l)) as (l' & x & E); [discriminate|].
  exists l', x. exact E.
Qed.

Lemma Math_min_single x : Math_min [x] = x.
Proof. destruct x as [[]| [] | |[] m e]; reflexivity. Qed.

Lemma Math_max_single x : Math_max [x] = x.
Proof. destruct x as [[]| [] | |[] m e]; reflexivity. Qed.

End ScanFacts.

(* ================================================================== *)
(** ** The products routes *)

Module ProductsFacts.
Import ScanRoute ProductsRoute RecordFacts ScanFacts.

Lemma ltb_nan_r a : ltb a S754_nan = false.
Proof. destruct a as [[]|[]| |[] m e]; reflexivity. Qed.

(** [a < b] is false exactly when [b] is NaN or [b <= a], for [a] not
    NaN. *)
Lemma ltb_false_iff a b :
  is_nan a = false ->
  (ltb a b = false <-> is_nan b = true \/ leb b a = true).
Proof.
  intros Na. split.
  - intros L. destruct (is_nan b) eqn:Nb; [left; reflexivity|].
    right. apply ltb_false_leb; assumption.
  - intros [Nb | L].
    + destruct b; try discriminate. apply ltb_nan_r.
    + apply leb_not_ltb; exact L.
Qed.

Lemma price_in_bounds_spec minPrice maxPrice p :
  Forall (fun e => is_nan (Product.price e) = false) (priceHistory p) ->
  (price_in_bounds minPrice maxPrice p = true <->
   exists current,
     Product.getCurrentPrice (priceHistory p) = Some current
     /\ (forall bound, minPrice = Some bound ->
         is_nan bound = true \/ leb bound (Product.price current) = true)
     /\ (forall bound, maxPrice = Some bound ->
         is_nan bound = true \/ leb (Product.price current) bound = true)).
Proof.
  intros F. unfold price_in_bounds.
  destruct (Product.getCurrentPrice (priceHistory p)) as [current|] eqn:C.
  2:{ split; [discriminate | intros (c & H & _); discriminate]. }
  assert (N : is_nan (Product.price current) = false).
  { rewrite Forall_forall in F. apply F. apply getCurrentPrice_In; exact C. }
  split.
  - intros H. exists current. split; [reflexivity|]. split.
    + intros bound ->. destruct (ltb (Product.price current) bound) eqn:L; [discriminate|].
      apply ltb_false_iff in L; assumption.
    + intros bound ->.
      destruct (match minPrice with
                | Some b => ltb (Product.price current) b
                | None => false
                end); [discriminate|].
      unfold gtb in H. fold (ltb bound (Product.price current)) in H.
      destruct (ltb bound (Product.price current)) eqn:L; [discriminate|].
      destruct (is_nan bound) eqn:Nb; [left; reflexivity | right].
      apply ltb_false_leb; assumption.
  - intros (c & E & Hmin & Hmax). injection E as <-.
    assert (Lmin : match minPrice with
                   | Some b => ltb (Product.price current) b
                   | None => false
                   end = false).
    { destruct minPrice as [b|]; [|reflexivity].
      apply ltb_false_iff; [exact N | apply Hmin; reflexivity]. }
    rewrite Lmin.
    assert (Lmax : match maxPrice with
                   | Some b => gtb (Product.price current) b
                   | None => false
                   end = false).
    { destruct maxPrice as [b|]; [|reflexivity].
      unfold gtb. fold (ltb b (Product.price current)).
      destruct (Hmax b eq_refl) as [Nb | L].
      - destruct b; try discriminate. reflexivity.
      - apply leb_not_ltb; exact L. }
    rewrite Lmax. reflexivity.
Qed.

(** *** [slice] *)

Lemma slice_zero {A : Type} (l : list A) : slice 0 l = l.
Proof.
  unfold slice. cbn [Z.ltb Z.compare].
  replace (Z.min 0 (Z.of_nat (List.length l))) with 0 by lia. reflexivity.
Qed.

Lemma slice_neg {A : Type} n (l : list A) :
  0 < n -> slice (- n) l = skipn (List.length l - Z.to_nat n) l.
Proof.
  intros H. unfold slice.
  destruct (- n <? 0) eqn:L; [|apply Z.ltb_ge in L; lia].
  f_equal. lia.
Qed.

Lemma slice_pos {A : Type} n (l : list A) :
  0 <= n -> slice n l = skipn (Z.to_nat n) l.
Proof.
  intros H. unfold slice.
  destruct (n <? 0) eqn:L; [apply Z.ltb_lt in L; lia|].
  destruct (Z.le_ge_cases n (Z.of_nat (List.length l))) as [Hle | Hge].
  - rewrite Z.min_l by exact Hle. reflexivity.
  - rewrite Z.min_r by lia. rewrite Nat2Z.id.
    rewrite skipn_all. symmetry. apply skipn_all2. lia.
Qed.

Lemma slice_suffix {A : Type} start (l : list A) :
  exists dropped, l = dropped ++ slice start l.
Proof.
  unfold slice. eexists. symmetry. apply firstn_skipn.
Qed.

(** *** Sub-sequences *)

Lemma sublist_refl {A : Type} (l : list A) : sublist l l.
Proof. induction l; [apply sublist_nil | apply sublist_keep; assumption]. Qed.

Lemma sublist_trans {A : Type} (l1 l2 l3 : list A) :
  sublist l1 l2 -> sublist l2 l3 -> sublist l1 l3.
Proof.
  intros H12 H23. revert l1 H12.
  induction H23 as [|x l2 l3 _ IH|x l2 l3 _ IH]; intros l1 H12.
  - exact H12.
  - constructor. apply IH; exact H12.
  - inversion H12; subst.
    + apply sublist_skip. apply IH; assumption.
    + apply sublist_keep. apply IH; assumption.
Qed.

Lemma sublist_filter {A : Type} (f : A -> bool) (l : list A) :
  sublist (filter f l) l.
Proof.
  induction l as [|x l IH]; simpl; [constructor|].
  destruct (f x); [apply sublist_keep | apply sublist_skip]; exact IH.
Qed.

Lemma sublist_skipn {A : Type} n (l : list A) : sublist (skipn n l) l.
Proof.
  revert l. induction n as [|n IH]; intros l; [apply sublist_refl|].
  destruct l as [|x l]; [constructor|]. simpl. apply sublist_skip. apply IH.
Qed.

Lemma sublist_In {A : Type} (l1 l2 : list A) x :
  sublist l1 l2 -> In x l1 -> In x l2.
Proof.
  induction 1 as [|y l1 l2 _ IH|y l1 l2 _ IH]; intros H.
  - exact H.
  - right. apply IH; exact H.
  - destruct H as [-> | H]; [left; reflexivity | right; apply IH; exact H].
Qed.

Lemma sublist_Forall {A : Type} (P : A -> Prop) (l1 l2 : list A) :
  sublist l1 l2 -> Forall P l2 -> Forall P l1.
Proof.
  intros S F. rewrite Forall_forall in *. intros x Hx.
  apply F. eapply sublist_In; eassumption.
Qed.

Lemma between_sublist startDate endDate h : sublist (between startDate endDate h) h.
Proof.
  unfold between.
  destruct startDate as [sd|], endDate as [ed|].
  - eapply sublist_trans; apply sublist_filter.
  - apply sublist_filter.
  - apply sublist_filter.
  - apply sublist_refl.
Qed.

Lemma on_or_after_spec date e :
  on_or_after date e = true <-> exists t, date = Some t /\ t <= Product.scannedAt e.
Proof.
  unfold on_or_after. destruct date as [t|].
  - rewrite Z.leb_le. split.
    + intros H. exists t. split; [reflexivity | exact H].
    + intros (t' & E & H). injection E as <-. exact H.
  - split; [discriminate | intros (t & E & _); discriminate].
Qed.

Lemma on_or_before_spec date e :
  on_or_before date e = true <-> exists t, date = Some t /\ Product.scannedAt e <= t.
Proof.
  unfold on_or_before. destruct date as [t|].
  - rewrite Z.leb_le. split.
    + intros H. exists t. split; [reflexivity | exact H].
    + intros (t' & E & H). injection E as <-. exact H.
  - split; [discriminate | intros (t & E & _); discriminate].
Qed.

Lemma between_In startDate endDate h e :
  In e (between startDate endDate h) <-> In e h /\ within startDate endDate e.
Proof.
  unfold between, within.
  destruct startDate as [sd|], endDate as [ed|];
    repeat rewrite filter_In; rewrite ?on_or_after_spec, ?on_or_before_spec.
  - split.
    + intros ((I & S) & E). split; [exact I|]. split; intros d [= <-]; assumption.
    + intros (I & S & E). repeat split; [exact I | apply S | apply E]; reflexivity.
  - split.
    + intros (I & S). split; [exact I|]. split; intros d [=]. subst; assumption.
    + intros (I & S & _). split; [exact I | apply S; reflexivity].
  - split.
    + intros (I & E). split; [exact I|]. split; intros d [=]. subst; assumption.
    + intros (I & _ & E). split; [exact I | apply E; reflexivity].
  - split.
    + intros I. split; [exact I|]. split; intros d [=].
    + intros (I & _). exact I.
Qed.

End ProductsFacts.

(* ================================================================== *)
(** ** What the parser reads is written in the text *)

Module OccurFacts.
Import Words.

Lemma advanced_state_of text w s s1 :
  advanced w s s1 -> state_of text s -> state_of text s1.
Proof.
  unfold advanced, state_of. intros [P R] <-.
  rewrite P, R, rev_app_distr, rev_involutive, <- app_assoc. reflexivity.
Qed.

Lemma derives_state_of text ic r s s1 :
  derives ic r s s1 -> state_of text s -> state_of text s1.
Proof.
  intros D. destruct (derives_advanced ic r s s1 D) as (w & A & _).
  eapply advanced_state_of; exact A.
Qed.

Lemma advanced_occurs text w s s1 :
  advanced w s s1 -> state_of text s -> occurs_in w text.
Proof.
  unfold advanced, state_of. intros [_ R] <-.
  exists (rev (prev s)), (rest s1). rewrite R. reflexivity.
Qed.

(** The captures of a match are parts of the text. *)
Lemma derives_caps_occur text ic r s s1 :
  derives ic r s s1 -> state_of text s ->
  caps_occur text (caps s) -> caps_occur text (caps s1).
Proof.
  induction 1 as [ s | c s ch r R O | cs s ch r R O | s ch r R O
                 | a b s s1 s2 D1 IH1 D2 IH2
                 | a b s s1 D IH | a b s s1 D IH
                 | a s | a s s1 s2 D1 IH1 P D2 IH2
                 | a s | a s s1 D IH
                 | a s | n a s s1 s2 D1 IH1 D2 IH2
                 | i a s s1 D IH | a s | s X ]; intros T C; try exact C.
  - apply IH2; [eapply derives_state_of; eassumption | apply IH1; assumption].
  - apply IH; assumption.
  - apply IH; assumption.
  - apply IH2; [eapply derives_state_of; eassumption | apply IH1; assumption].
  - apply IH; assumption.
  - apply IH2; [eapply derives_state_of; eassumption | apply IH1; assumption].
  - cbn [caps]. constructor; [|apply IH; assumption].
    cbn [snd]. destruct (derives_advanced ic a s s1 D) as (w & A & _).
    rewrite (consumed_advanced w s s1 A). eapply advanced_occurs; eassumption.
Qed.

Lemma match_in_match_of text re m : match_in text re m -> match_of re m.
Proof. intros (s0 & C & _ & D). exists s0. split; assumption. Qed.

Lemma match_in_state_of text re m : match_in text re m -> state_of text (m_end m).
Proof. intros (s0 & _ & T & D). eapply derives_state_of; eassumption. Qed.

Lemma match_in_group text re m i c :
  match_in text re m -> group i m = Some c -> occurs_in c text.
Proof.
  intros (s0 & C & T & D) G.
  assert (O : caps_occur text (caps (m_end m))).
  { eapply derives_caps_occur; [exact D | exact T | rewrite C; constructor]. }
  unfold group in G. apply lookup_cap_In in G.
  unfold caps_occur in O. rewrite Forall_forall in O. apply (O (i, c) G).
Qed.

Lemma search_match_in text re before after m :
  rev before ++ after = text ->
  search re before after = Some m -> match_in text re m.
Proof.
  intros T S. destruct (search_sound re after before m S) as (sk & r0 & E & _ & D & _).
  eexists. split; [|split; [|exact D]]; [reflexivity|].
  unfold state_of. cbn [prev rest]. subst.
  rewrite rev_app_distr, rev_involutive, <- app_assoc. reflexivity.
Qed.

Lemma exec_loop_match_in text re fuel :
  forall before after ms,
    rev before ++ after = text ->
    exec_loop fuel re before after = Some ms -> Forall (match_in text re) ms.
Proof.
  induction fuel as [|fuel IH]; intros before after ms T H; simpl in H; [discriminate|].
  destruct (search re before after) as [m|] eqn:S.
  - destruct (exec_loop fuel re (prev (m_end m)) (rest (m_end m))) as [ms'|] eqn:L;
      [|discriminate].
    injection H as <-.
    pose proof (search_match_in text re before after m T S) as M.
    constructor; [exact M|].
    eapply IH; [|exact L]. apply (match_in_state_of text re m M).
  - injection H as <-. constructor.
Qed.

Lemma exec_all_match_in text re ms :
  exec_all re text = Some ms -> Forall (match_in text re) ms.
Proof. apply exec_loop_match_in. reflexivity. Qed.

(** What one match of a price pattern pushes is written in the text. *)
Lemma price_of_match_written text re m ps :
  In re pricePatterns -> match_in text re m ->
  price_of_match m = Some ps -> Forall (price_written text) ps.
Proof.
  intros I M. unfold price_of_match.
  destruct (group 1 m) as [c|] eqn:G; [|discriminate].
  destruct (_ && _); intros [= <-]; constructor; [|constructor].
  exists c. split; [|split].
  - eapply match_in_group; eassumption.
  - eapply price_capture_decimal; [exact I | eapply match_in_match_of; exact M | exact G].
  - reflexivity.
Qed.

Lemma prices_of_matches_written text re ms :
  In re pricePatterns -> Forall (match_in text re) ms ->
  forall ps, prices_of_matches ms = Some ps -> Forall (price_written text) ps.
Proof.
  intros I. induction 1 as [|m ms M _ IH]; intros ps H; simpl in H.
  - injection H as <-. constructor.
  - destruct (price_of_match m) as [p|] eqn:P; [|discriminate].
    destruct (prices_of_matches ms) as [ps'|]; [|discriminate].
    injection H as <-. apply Forall_app. split.
    + eapply price_of_match_written; eassumption.
    + apply IH; reflexivity.
Qed.

Lemma collect_prices_written text patterns :
  incl patterns pricePatterns ->
  forall ps, collect_prices patterns text = Some ps ->
             Forall (price_written text) ps.
Proof.
  induction patterns as [|re patterns IH]; intros I ps H; simpl in H.
  - injection H as <-. constructor.
  - destruct (exec_all re text) as [ms|] eqn:E; [|discriminate].
    destruct (prices_of_matches ms) as [p|] eqn:P; [|discriminate].
    destruct (collect_prices patterns text) as [ps'|]; [|discriminate].
    injection H as <-. apply Forall_app. split.
    + eapply prices_of_matches_written; [| apply exec_all_match_in; exact E | exact P].
      apply I; left; reflexivity.
    + apply IH; [|reflexivity]. intros x Hx. apply I; right; exact Hx.
Qed.

Lemma extractPrice_written text prices :
  extractPrice text = Some prices -> Forall (price_written text) prices.
Proof.
  intros E.
  destruct (extractPrice_spec text) as (raw & prices' & C & E' & _ & _ & _ & I & _).
  rewrite E in E'. injection E' as <-.
  pose proof (collect_prices_written text pricePatterns (incl_refl _) raw C) as W.
  rewrite Forall_forall in *. intros p Hp. apply W, I, Hp.
Qed.

Lemma discount_of_match_written text m d :
  match_in text discountPattern m -> In d (discount_of_match m) ->
  percent_written text d /\ 1 <= d <= 99.
Proof.
  intros M. unfold discount_of_match.
  destruct (group 1 m) as [c|] eqn:G; [|intros []].
  destruct (parseInt c) as [v|] eqn:P; [|intros []].
  destruct ((0 <? v) && (v <=? 99)) eqn:B; [|intros []].
  intros [<- | []]. split.
  - exists c. split; [|split].
    + eapply match_in_group; eassumption.
    + eapply discount_capture_digits; [eapply match_in_match_of; exact M | exact G].
    + exact P.
  - apply andb_prop in B as [B1 B2]. apply Z.ltb_lt in B1. apply Z.leb_le in B2. lia.
Qed.

Lemma extractDiscount_written text d :
  extractDiscount text = Some (Some d) -> percent_written text d /\ 1 <= d <= 99.
Proof.
  unfold extractDiscount.
  destruct (exec_all discountPattern text) as [ms|] eqn:E; [|discriminate].
  intros [= H].
  pose proof (max_of_spec (flat_map discount_of_match ms)) as S. rewrite H in S.
  destruct S as [I _]. apply in_flat_map in I as (m & Im & Id).
  apply exec_all_match_in in E. rewrite Forall_forall in E.
  eapply discount_of_match_written; [apply E; exact Im | exact Id].
Qed.

End OccurFacts.

(* ================================================================== *)
(** ** Rules of literal words *)

Module KeywordFacts.
Import Words.

(** A literal with the [i] flag matches where it is a prefix, letter case
    ignored, and nowhere else. *)
Lemma rmatch_Lit token :
  forall s k,
    rmatch true (Lit token) s k =
    if prefix_ci token (rest s)
    then k (MState (rev (firstn (List.length token) (rest s)) ++ prev s)
                   (skipn (List.length token) (rest s)) (caps s))
    else None.
Proof.
  induction token as [|c token IH]; intros s k.
  - destruct s; reflexivity.
  - assert (Step : forall k',
      (forall s', k' s' = rmatch true (Lit token) s' k) ->
      step (fun ch => canon true c =? canon true ch) s k' =
      if prefix_ci (c :: token) (rest s)
      then k (MState (rev (firstn (List.length (c :: token)) (rest s)) ++ prev s)
                     (skipn (List.length (c :: token)) (rest s)) (caps s))
      else None).
    { intros k' Hk. unfold step. destruct (rest s) as [|ch r]; [reflexivity|].
      cbn [prefix_ci canon]. destruct (upper c =? upper ch); [|reflexivity].
      cbn [andb]. rewrite Hk, IH. cbn [rest prev caps List.length firstn skipn rev].
      destruct (prefix_ci token r); [|reflexivity].
      rewrite <- app_assoc. reflexivity. }
    destruct token as [|c' token'].
    + apply (Step k). intros s'. destruct s'; reflexivity.
    + apply (Step (fun s' => rmatch true (Lit (c' :: token')) s' k)).
      intros s'; reflexivity.
Qed.

Lemma rmatch_Lit_some token s :
  is_some (rmatch true (Lit token) s (fun s' => Some s')) = prefix_ci token (rest s).
Proof. rewrite rmatch_Lit. destruct (prefix_ci token (rest s)); reflexivity. Qed.

Lemma is_some_orelse (a b : option mstate) :
  is_some (orelse a b) = is_some a || is_some b.
Proof. destruct a; reflexivity. Qed.

Lemma rmatch_alts_some w ws s :
  is_some (rmatch true (alts (lit w) (List.map lit ws)) s (fun s' => Some s')) =
  existsb (fun w => prefix_ci (js w) (rest s)) (w :: ws).
Proof.
  revert w. induction ws as [|w' ws IH]; intros w.
  - cbn [List.map alts existsb]. unfold lit. rewrite rmatch_Lit_some, orb_false_r.
    reflexivity.
  - cbn [List.map alts]. cbn [rmatch]. rewrite is_some_orelse, IH.
    unfold lit at 1. rewrite rmatch_Lit_some. reflexivity.
Qed.

Lemma rmatch_any_of_some words s :
  is_some (rmatch true (any_of words) s (fun s' => Some s')) =
  existsb (fun w => prefix_ci (js w) (rest s)) words.
Proof.
  destruct words as [|w ws]; [reflexivity|]. apply rmatch_alts_some.
Qed.

Lemma existsb_orb {A : Type} (f g : A -> bool) l :
  existsb (fun x => f x || g x) l = existsb f l || existsb g l.
Proof.
  induction l as [|x l IH]; [reflexivity|]. simpl. rewrite IH.
  destruct (f x), (g x), (existsb f l); reflexivity.
Qed.

Lemma existsb_eq {A : Type} (f g : A -> bool) l :
  (forall x, f x = g x) -> existsb f l = existsb g l.
Proof.
  intros E. induction l as [|x l IH]; [reflexivity|]. simpl. rewrite E, IH.
  reflexivity.
Qed.

Lemma search_any_of words after :
  forall before,
    is_some (search (RegExp (any_of words) true) before after) =
    existsb (fun w => contains_ci (js w) after) words.
Proof.
  induction after as [|c after IH]; intros before.
  - cbn [search source ignoreCase].
    pose proof (rmatch_any_of_some words (MState before [] [])) as H.
    cbn [rest] in H.
    transitivity (existsb (fun w => prefix_ci (js w) []) words).
    2:{ apply existsb_eq. intros w. cbn [contains_ci]. rewrite orb_false_r.
        reflexivity. }
    rewrite <- H. destruct (rmatch true (any_of words) _ _); reflexivity.
  - cbn [search source ignoreCase].
    pose proof (rmatch_any_of_some words (MState before (c :: after) [])) as H.
    cbn [rest] in H.
    transitivity (existsb (fun w => prefix_ci (js w) (c :: after)
                                    || contains_ci (js w) after) words).
    2:{ apply existsb_eq. intros w. reflexivity. }
    rewrite existsb_orb, <- H, <- (IH (c :: before)).
    destruct (rmatch true (any_of words) _ _); reflexivity.
Qed.

Lemma test_any_of words text :
  test (RegExp (any_of words) true) text =
  existsb (fun w => contains_ci (js w) text) words.
Proof.
  unfold test, exec. rewrite <- (search_any_of words text []).
  destruct (search _ _ _); reflexivity.
Qed.

(** A rule list of literal words is a keyword lookup. *)
Lemma first_rule_keywords {A : Type} (rules : list (list string * A)) dflt text :
  first_rule (List.map (fun r => (RegExp (any_of (fst r)) true, snd r)) rules)
             dflt text
  = first_keyword rules dflt text.
Proof.
  induction rules as [|[words a] rules IH]; [reflexivity|].
  cbn [List.map first_rule first_keyword fst snd].
  rewrite test_any_of, IH. reflexivity.
Qed.

End KeywordFacts.

(* ================================================================== *)
(** ** Letter case *)

Module CaseFacts.
Import Words RecordFacts.













(** *** Texts that differ in letter case only *)












Lemma forallb_impl {A : Type} (f g : A -> bool) l :
  (forall x, f x = true -> g x = true) -> forallb f l = true -> forallb g l = true.
Proof.
  intros H. rewrite !forallb_forall. intros F x Hx. apply H, F, Hx.
Qed.

(** *** The matcher *)







(** *** Searching *)







(** *** The detectors *)













End CaseFacts.

(* ================================================================== *)
(** ** Words that mark a promotion *)

Module PromoFacts.
Import Words KeywordFacts.

Lemma contains_ci_split token text :
  contains_ci token text = true ->
  exists pre rest0, text = pre ++ rest0 /\ prefix_ci token rest0 = true.
Proof.
  induction text as [|c text IH]; cbn [contains_ci]; intros H.
  - rewrite orb_false_r in H. exists [], []. split; [reflexivity | exact H].
  - apply orb_prop in H as [H | H].
    + exists [], (c :: text). split; [reflexivity | exact H].
    + destruct (IH H) as (pre & rest0 & -> & P).
      exists (c :: pre), rest0. split; [reflexivity | exact P].
Qed.

Lemma prefix_ci_app t1 t2 rest0 :
  prefix_ci (t1 ++ t2) rest0 =
  prefix_ci t1 rest0 && prefix_ci t2 (skipn (List.length t1) rest0).
Proof.
  revert rest0. induction t1 as [|c t1 IH]; intros rest0; [reflexivity|].
  destruct rest0 as [|ch r]; [reflexivity|].
  cbn [app prefix_ci List.length skipn]. rewrite IH, andb_assoc. reflexivity.
Qed.

(** A match somewhere makes the test true. *)
Lemma test_complete re pre rest0 :
  rmatch (ignoreCase re) (source re) (MState (rev pre) rest0 [])
         (fun s => Some s) <> None ->
  test re (pre ++ rest0) = true.
Proof.
  intros H. unfold test, exec.
  pose proof (search_complete re pre [] rest0) as C.
  rewrite app_nil_r in C. specialize (C H).
  destruct (search re [] (pre ++ rest0)); [reflexivity | elim C; reflexivity].
Qed.

(** A rule that tests true: the result is a row of the table. *)
Lemma first_rule_hit {A : Type} (rules : list (regexp * A)) dflt text re a :
  In (re, a) rules -> test re text = true ->
  In (first_rule rules dflt text) (List.map snd rules).
Proof.
  induction rules as [|[re' a'] rules IH]; intros I T; [contradiction|].
  cbn [first_rule List.map snd].
  destruct (test re' text) eqn:T'; [left; reflexivity|].
  destruct I as [[= -> ->] | I]; [congruence|]. right. apply IH; assumption.
Qed.

Lemma promo_rule_hit text k re a pre rest0 :
  nth_error promoPatterns k = Some (re, a) ->
  text = pre ++ rest0 ->
  rmatch (ignoreCase re) (source re) (MState (rev pre) rest0 [])
         (fun s => Some s) <> None ->
  fst (detectPromo text) = true.
Proof.
  intros N -> H. apply nth_error_In in N.
  pose proof (first_rule_hit promoPatterns (false, None) (pre ++ rest0) re a N
                (test_complete re pre rest0 H)) as I.
  assert (T : forallb (fun x : bool * option string => fst x)
                      (List.map snd promoPatterns) = true) by reflexivity.
  rewrite forallb_forall in T. apply (T _ I).
Qed.

(** A literal matches where it is a prefix. *)
Lemma literal_matches token s :
  prefix_ci token (rest s) = true ->
  rmatch true (Lit token) s (fun s' => Some s') <> None.
Proof. intros P. rewrite rmatch_Lit, P. discriminate. Qed.

(** A stem followed by one of two endings matches where the stem with
    either ending is a prefix. *)
Lemma stem_matches stem e1 e2 e s :
  e = e1 \/ e = e2 ->
  prefix_ci (stem ++ [e]) (rest s) = true ->
  rmatch true (Seq (Lit stem) (Class [AChar e1; AChar e2])) s
         (fun s' => Some s') <> None.
Proof.
  intros E P. rewrite prefix_ci_app in P. apply andb_prop in P as [P1 P2].
  cbn [rmatch]. rewrite rmatch_Lit, P1. unfold step. cbn [rest prev caps].
  destruct (skipn (List.length stem) (rest s)) as [|ch r]; [discriminate|].
  cbn [prefix_ci] in P2. rewrite andb_true_r in P2.
  assert (C : in_class true [AChar e1; AChar e2] ch = true).
  { unfold in_class. cbn [existsb atom_matches canon].
    destruct E as [<- | <-]; rewrite P2; [reflexivity | apply orb_true_r]. }
  rewrite C. discriminate.
Qed.

Lemma promo_word_detected w text :
  In w promoWords -> contains_ci (js w) text = true ->
  fst (detectPromo text) = true.
Proof.
  intros I C. apply contains_ci_split in C as (pre & rest0 & E & P).
  set (s := MState (rev pre) rest0 []).
  change rest0 with (rest s) in P.
  unfold promoWords in I. cbn [In] in I.
  destruct I as [<- | [<- | [<- | [<- | [<- | [<- | [<- | [<- | [<- | []]]]]]]]]].
  - apply (promo_rule_hit text 0 _ _ pre rest0 eq_refl E).
    apply (stem_matches (js "акци") (code "я") (code "и") (code "я"));
      [left; reflexivity | exact P].
  - apply (promo_rule_hit text 0 _ _ pre rest0 eq_refl E).
    apply (stem_matches (js "акци") (code "я") (code "и") (code "и"));
      [right; reflexivity | exact P].
  - apply (promo_rule_hit text 1 _ _ pre rest0 eq_refl E).
    apply (stem_matches (js "скидк") (code "а") (code "и") (code "а"));
      [left; reflexivity | exact P].
  - apply (promo_rule_hit text 1 _ _ pre rest0 eq_refl E).
    apply (stem_matches (js "скидк") (code "а") (code "и") (code "и"));
      [right; reflexivity | exact P].
  - apply (promo_rule_hit text 2 _ _ pre rest0 eq_refl E).
    apply literal_matches; exact P.
  - apply (promo_rule_hit text 4 _ _ pre rest0 eq_refl E).
    apply literal_matches; exact P.
  - apply (promo_rule_hit text 5 _ _ pre rest0 eq_refl E).
    apply literal_matches; exact P.
  - apply (promo_rule_hit text 6 _ _ pre rest0 eq_refl E).
    apply literal_matches; exact P.
  - apply (promo_rule_hit text 10 _ _ pre rest0 eq_refl E).
    apply literal_matches; exact P.
Qed.

End PromoFacts.

(* ================================================================== *)
(** ** [String.prototype.replace] *)

Module ReplaceFacts.

Lemma replace_first_absent x y s :
  ~ In x s -> JsString.replace_first x y s = s.
Proof.
  induction s as [|c s IH]; intros N; [reflexivity|]. cbn [JsString.replace_first].
  destruct (Z.eqb_spec c x) as [-> | _]; [elim N; left; reflexivity|].
  rewrite IH; [reflexivity|]. intros H; apply N; right; exact H.
Qed.

Lemma replace_first_present x y pre post :
  ~ In x pre ->
  JsString.replace_first x y (pre ++ x :: post) = pre ++ y :: post.
Proof.
  induction pre as [|c pre IH]; intros N; cbn [app JsString.replace_first].
  - rewrite Z.eqb_refl. reflexivity.
  - destruct (Z.eqb_spec c x) as [-> | _]; [elim N; left; reflexivity|].
    rewrite IH; [reflexivity|]. intros H; apply N; right; exact H.
Qed.

End ReplaceFacts.

(* ================================================================== *)
(** ** The loops over the matches of a pattern *)

Module LoopFacts.
Import Words OccurFacts.

(** Where a match found by [search] lies. *)
Lemma search_bounds re before after m :
  search re before after = Some m ->
  exists skipped w,
    after = skipped ++ w ++ rest (m_end m)
    /\ prev (m_end m) = rev w ++ rev skipped ++ before
    /\ m_index m = (List.length before + List.length skipped)%nat
    /\ (consumes (source re) = true -> w <> []).
Proof.
  intros S. destruct (search_sound re after before m S) as (sk & r0 & E & I & D & _).
  destruct (derives_advanced _ _ _ _ D) as (w & [P R] & C).
  cbn [prev rest] in P, R. exists sk, w. subst after r0.
  repeat split; assumption.
Qed.

Lemma firstn_exact {A : Type} (a b : list A) n :
  n = List.length a -> firstn n (a ++ b) = a.
Proof.
  intros ->. induction a as [|x a IH]; [apply firstn_O|].
  cbn [List.length app firstn]. rewrite IH. reflexivity.
Qed.

Lemma skipn_exact {A : Type} (a b : list A) n :
  n = List.length a -> skipn n (a ++ b) = b.
Proof.
  intros ->. induction a as [|x a IH]; [reflexivity|]. exact IH.
Qed.

Lemma search_matched re before after m :
  search re before after = Some m ->
  (List.length before <= m_index m)%nat
  /\ (m_index m <= position (m_end m))%nat
  /\ (consumes (source re) = true -> (m_index m < position (m_end m))%nat)
  /\ (position (m_end m) <= List.length before + List.length after)%nat
  /\ matched m
     = firstn (position (m_end m) - m_index m)
              (skipn (m_index m) (rev before ++ after)).
Proof.
  intros S. destruct (search_bounds re before after m S) as (sk & w & E & P & I & C).
  unfold matched, position. rewrite P, I, E.
  rewrite !length_app, !length_rev.
  assert (Lw : (List.length w + (List.length sk + List.length before)
                - (List.length before + List.length sk) = List.length w)%nat) by lia.
  rewrite Lw. repeat split; try lia.
  - intros H. specialize (C H). destruct w; [elim C; reflexivity | simpl; lia].
  - rewrite (firstn_exact (rev w)) by (rewrite length_rev; reflexivity).
    rewrite rev_involutive.
    rewrite (app_assoc (rev before) sk).
    rewrite skipn_exact by (rewrite length_app, length_rev; reflexivity).
    rewrite firstn_exact by reflexivity. reflexivity.
Qed.

Lemma exec_loop_in_turn text re fuel :
  forall before after ms,
    rev before ++ after = text ->
    exec_loop fuel re before after = Some ms ->
    Forall (fun m => (List.length before <= m_index m)%nat) ms
    /\ StronglySorted in_turn ms
    /\ Forall (fun m =>
                 (m_index m <= position (m_end m) <= List.length text)%nat
                 /\ (consumes (source re) = true ->
                     (m_index m < position (m_end m))%nat)
                 /\ matched m
                    = firstn (position (m_end m) - m_index m)
                             (skipn (m_index m) text)) ms.
Proof.
  induction fuel as [|fuel IH]; intros before after ms T H; simpl in H; [discriminate|].
  destruct (search re before after) as [m|] eqn:S.
  2:{ injection H as <-. repeat split; constructor. }
  destruct (exec_loop fuel re (prev (m_end m)) (rest (m_end m))) as [ms'|] eqn:L;
    [|discriminate].
  injection H as <-.
  pose proof (search_match_in text re before after m T S) as M.
  pose proof (match_in_state_of text re m M) as T'.
  destruct (IH _ _ _ T' L) as (F1 & St & F2).
  destruct (search_matched re before after m S) as (B1 & B2 & B3 & B4 & B5).
  assert (Len : List.length text = (List.length before + List.length after)%nat).
  { rewrite <- T, length_app, length_rev. reflexivity. }
  split; [|split].
  - constructor; [exact B1|]. eapply Forall_impl; [|exact F1].
    intros m' Hm'. cbv beta in Hm'. unfold position in B2. lia.
  - constructor; [exact St|]. exact F1.
  - constructor; [|exact F2].
    rewrite Len, <- T. repeat split; assumption.
Qed.

End LoopFacts.

(* ================================================================== *)
(** ** Rules that an earlier rule shadows *)

Module ShadowFacts.
Import Words KeywordFacts PromoFacts.

(** The result of a rule list is not past the first rule that tests
    true. *)
Lemma first_rule_within {A : Type} (rules : list (regexp * A)) dflt text :
  forall k re a,
    nth_error rules k = Some (re, a) -> test re text = true ->
    In (first_rule rules dflt text) (List.map snd (firstn (S k) rules)).
Proof.
  induction rules as [|[re' a'] rules IH]; intros k re a N T.
  - destruct k; discriminate.
  - cbn [first_rule firstn List.map snd].
    destruct (test re' text) eqn:T'; [left; reflexivity|].
    destruct k as [|k].
    + injection N as -> ->. congruence.
    + right. apply (IH k re a N T).
Qed.

(** The third alternative of a rule, a literal, matches where it is a
    prefix. *)
Lemma third_literal_matches x y token s :
  prefix_ci token (rest s) = true ->
  rmatch true (Alt x (Alt y (Lit token))) s (fun s' => Some s') <> None.
Proof.
  intros P. cbn [rmatch].
  assert (H : is_some (orelse (rmatch true x s (fun s' => Some s'))
                         (orelse (rmatch true y s (fun s' => Some s'))
                                 (rmatch true (Lit token) s (fun s' => Some s'))))
              = true).
  { rewrite !is_some_orelse, rmatch_Lit_some, P, !orb_true_r. reflexivity. }
  intros E. rewrite E in H. discriminate H.
Qed.

Lemma millilitre_holds_litre text :
  contains_ci (js "миллилитр") text = true ->
  test (RegExp (alts (Seq (lit "за") (Seq (Star space) (lit "л")))
                     [lit "/л"; lit "литр"]) true) text = true.
Proof.
  intros C. apply contains_ci_split in C as (pre & rest0 & -> & P).
  change (js "миллилитр") with (js "милли" ++ js "литр") in P.
  rewrite prefix_ci_app in P. apply andb_prop in P as [P1 P2].
  rewrite <- (firstn_skipn (List.length (js "милли")) rest0), app_assoc.
  apply test_complete. cbn [ignoreCase source alts].
  apply third_literal_matches. exact P2.
Qed.

End ShadowFacts.

(* ================================================================== *)
(** ** Runs of blanks and digits *)

Module RunFacts.
Import Words KeywordFacts PromoFacts.

Lemma orelse_right (a b : option mstate) : b <> None -> orelse a b <> None.
Proof. destruct a; [discriminate | intros H; exact H]. Qed.

Lemma orelse_left (a b : option mstate) : a <> None -> orelse a b <> None.
Proof. destruct a; [discriminate | intros H; elim H; reflexivity]. Qed.

(** [cs*] can take a whole run of characters of the class, if the rest of
    the pattern matches after the run. *)
Lemma star_class_run ic cs k run :
  forall s tail,
    rest s = run ++ tail ->
    forallb (in_class ic cs) run = true ->
    k (MState (rev run ++ prev s) tail (caps s)) <> None ->
    rmatch ic (Star (Class cs)) s k <> None.
Proof.
  induction run as [|c run IH]; intros s tail R F K.
  - assert (E : MState (rev [] ++ prev s) tail (caps s) = s).
    { destruct s as [p r cp]. cbn [prev rest caps rev app] in *. subst r. reflexivity. }
    rewrite E in K. cbn [rmatch].
    destruct (List.length (rest s)); [exact K | apply orelse_right; exact K].
  - cbn [forallb] in F. apply andb_prop in F as [Fc F].
    specialize (IH (MState (c :: prev s) (run ++ tail) (caps s)) tail eq_refl F).
    cbn [prev rest caps] in IH.
    assert (K' : k (MState (rev run ++ c :: prev s) tail (caps s)) <> None).
    { cbn [rev] in K. rewrite <- app_assoc in K. exact K. }
    specialize (IH K'). cbn [rmatch] in IH. cbn [rest] in IH.
    cbn [rmatch]. rewrite R. cbn [app List.length].
    apply orelse_left. unfold step. rewrite R. cbn [app]. rewrite Fc.
    unfold progressed, position. cbn [prev List.length].
    replace (Nat.eqb (S (List.length (prev s))) (List.length (prev s))) with false
      by (symmetry; apply Nat.eqb_neq; lia).
    cbn [negb]. exact IH.
Qed.

Lemma seq_unfold ic a b s k :
  rmatch ic (Seq a b) s k = rmatch ic a s (fun s' => rmatch ic b s' k).
Proof. reflexivity. Qed.

Lemma class_step ic cs k c s tail :
  rest s = c :: tail -> in_class ic cs c = true ->
  k (MState (c :: prev s) tail (caps s)) <> None ->
  rmatch ic (Class cs) s k <> None.
Proof. intros R C K. cbn [rmatch]. unfold step. rewrite R, C. exact K. Qed.

Lemma char_step c k s tail :
  rest s = c :: tail ->
  k (MState (c :: prev s) tail (caps s)) <> None ->
  rmatch true (Char c) s k <> None.
Proof.
  intros R K. cbn [rmatch]. unfold step. rewrite R. cbn [canon].
  rewrite Z.eqb_refl. exact K.
Qed.

Lemma space_class ws :
  forallb is_space ws = true -> forallb (in_class true [ASpace]) ws = true.
Proof.
  intros F. eapply CaseFacts.forallb_impl; [|exact F].
  intros x H. unfold in_class. cbn [existsb atom_matches]. rewrite H. reflexivity.
Qed.

Lemma digit_class ds :
  forallb is_digit ds = true -> forallb (in_class true [ADigit]) ds = true.
Proof.
  intros F. eapply CaseFacts.forallb_impl; [|exact F].
  intros x H. unfold in_class. cbn [existsb atom_matches]. rewrite H. reflexivity.
Qed.

(** The pattern of a minus, blanks, digits, blanks and a percent sign
    matches such a run. *)
Lemma minus_percent_matches before ws ds ws' post :
  forallb is_space ws = true -> forallb is_digit ds = true -> ds <> [] ->
  forallb is_space ws' = true ->
  rmatch true
         (Seq (lit "-") (Seq (Star space) (Seq (Plus digit)
            (Seq (Star space) (lit "%")))))
         (MState before (45 :: ws ++ ds ++ ws' ++ 37 :: post) [])
         (fun s => Some s) <> None.
Proof.
  intros Fw Fd Nd Fw'. destruct ds as [|d ds]; [elim Nd; reflexivity|].
  cbn [forallb] in Fd. apply andb_prop in Fd as [Fd0 Fd].
  change (lit "-") with (Char 45). change (lit "%") with (Char 37).
  unfold Plus, space, digit.
  rewrite seq_unfold. eapply char_step; [reflexivity|]. cbn [prev rest caps].
  rewrite seq_unfold.
  eapply (star_class_run true [ASpace] _ ws); [reflexivity | apply space_class; exact Fw|].
  cbn [prev rest caps].
  rewrite !seq_unfold. eapply class_step; [reflexivity | |].
  { unfold in_class. cbn [existsb atom_matches]. rewrite Fd0. reflexivity. }
  cbn [prev rest caps].
  eapply (star_class_run true [ADigit] _ ds); [reflexivity | apply digit_class; exact Fd|].
  cbn [prev rest caps]. rewrite seq_unfold.
  eapply (star_class_run true [ASpace] _ ws'); [reflexivity | apply space_class; exact Fw'|].
  cbn [prev rest caps].
  eapply char_step; [reflexivity|]. discriminate.
Qed.

End RunFacts.

(* ================================================================== *)
(** * Further properties of the parser, the model and the routes *)

Import Words RecordFacts ScanFacts ProductsFacts OccurFacts KeywordFacts CaseFacts
       PromoFacts.
Import RouteScenario.

(** X1. What [extractBarcode] returns is a run of exactly 13, 8 or 12
    decimal digits of the text between word boundaries, the first run of
    that length, and a length is used only when the text has no run of a
    length tried before it; [null] is returned only when the text has no
    run of any of the three lengths. *)
Theorem extractBarcode_result text :
  match extractBarcode text with
  | Some b =>
      exists n,
        first_run n text b
        /\ (n = 13 \/ (n = 8 /\ ~ has_run 13 text)
            \/ (n = 12 /\ ~ has_run 13 text /\ ~ has_run 8 text))%nat
        /\ List.length b = n
        /\ forallb is_digit b = true
        /\ occurs_in b text
  | None => ~ has_run 13 text /\ ~ has_run 8 text /\ ~ has_run 12 text
  end.
Proof.
  pose proof (extractBarcode_run text) as H.
  destruct (extractBarcode text) as [b|]; [|exact H].
  destruct H as (n & F & Hn). exists n. split; [exact F|]. split; [exact Hn|].
  destruct F as (pre & (post & E & L & D & _) & _).
  split; [exact L|]. split; [exact D|]. exists pre, post. exact E.
Qed.

(** X2. The three price fields of the record: each one, when not [null],
    is one of the collected candidates, lies strictly between 0 and
    1 000 000 and is truthy; [price] is [null] exactly when no candidate
    was collected, and then the other two are [null] as well. *)
Theorem price_fields_in_range text :
  exists r raw,
    parseOcrResult text = Some r
    /\ collect_prices pricePatterns text = Some raw
    /\ (price r = None <-> raw = [])
    /\ (forall p,
          price r = Some p \/ originalPrice r = Some p \/ pricePerUnit r = Some p ->
          in_range p /\ In p raw /\ ScanRoute.truthy_number (Some p) = true)
    /\ (price r = None -> originalPrice r = None /\ pricePerUnit r = None).
Proof.
  destruct (parseOcrResult_total text) as [r R].
  destruct (parsed_prices text r R)
    as (raw & prices & C & E & N & F & St & Hp & Ho & Hu & _).
  exists r, raw. split; [exact R|]. split; [exact C|]. split; [|split].
  - rewrite Hp, <- N. destruct prices; split; try discriminate; reflexivity.
  - intros p H.
    destruct (parsed_price_in_range text r p R H) as [Ip Rp].
    destruct (parsed_price_In text r p R H) as (raw' & prices' & C' & _ & _ & I).
    rewrite C in C'. injection C' as <-.
    split; [exact Rp|]. split; [exact I | apply price_truthy; exact Ip].
  - rewrite Hp, Ho, Hu. destruct prices; [split; reflexivity | discriminate].
Qed.

(** X3. [pricePerUnit] is no price per unit: it is [price] again when
    there are two candidates or more, and [null] otherwise. *)
Theorem pricePerUnit_is_price text :
  exists r prices,
    parseOcrResult text = Some r
    /\ extractPrice text = Some prices
    /\ pricePerUnit r = (if (2 <=? List.length prices)%nat then price r else None).
Proof.
  destruct (parseOcrResult_total text) as [r R].
  destruct (parsed_prices text r R)
    as (raw & prices & C & E & N & F & St & Hp & Ho & Hu & _).
  exists r, prices. split; [exact R|]. split; [exact E|].
  rewrite Hu, Hp. destruct prices as [|x l]; [reflexivity|].
  destruct (2 <=? List.length (x :: l))%nat; [|reflexivity].
  rewrite Math_min_sorted; [reflexivity | | exact St].
  eapply Forall_impl; [|exact F]. intros p [P _]; exact P.
Qed.

(** X4. The detectors return rows of their tables: the currency code and
    its symbol are one of the six pairs, never the code of one with the
    symbol of another; [isPromo] is true exactly when [promoType] is not
    [null]; [unit] is [null] or one of the six units. *)
Theorem detectors_return_table_rows text :
  exists r,
    parseOcrResult text = Some r
    /\ In (currency r, currencySymbol r) (List.map snd currencyPatterns)
    /\ ((isPromo r, promoType r) = (false, None)
        \/ In (isPromo r, promoType r) (List.map snd promoPatterns))
    /\ (isPromo r = true <-> promoType r <> None)
    /\ (unit r = None \/ In (unit r) (List.map snd unitPatterns)).
Proof.
  destruct (extractPrice_spec text) as (raw & prices & _ & E & _).
  destruct (extractDiscount_total text) as [d D].
  destruct (parseOcrResult_fields text prices d E D)
    as (r & R & _ & _ & _ & Hc & Hp & Hu & _).
  exists r. split; [exact R|].
  assert (P : (isPromo r, promoType r) = (false, None)
              \/ In (isPromo r, promoType r) (List.map snd promoPatterns)).
  { rewrite Hp. apply first_rule_In. }
  split; [|split; [exact P|split]].
  - rewrite Hc. unfold detectCurrency.
    destruct (first_rule_In currencyPatterns ("RUB", "₽")%string text) as [-> | I];
      [left; reflexivity | exact I].
  - destruct P as [P | P].
    + injection P as -> ->. split; [discriminate | intros H; elim H; reflexivity].
    + assert (T : forallb (fun x : bool * option string =>
                             fst x && is_some (snd x))
                          (List.map snd promoPatterns) = true) by reflexivity.
      rewrite forallb_forall in T. specialize (T _ P). cbn [fst snd] in T.
      apply andb_prop in T as [T1 T2].
      split; [intros _; destruct (promoType r); [discriminate | discriminate T2]
             | intros _; exact T1].
  - rewrite Hu. unfold extractUnit.
    destruct (first_rule_In unitPatterns None text) as [-> | I];
      [left; reflexivity | right; exact I].
Qed.

(** X5. [detectCurrency] is a keyword lookup: it returns the row of the
    first currency one of whose words occurs in the text, letter case
    ignored, and the rouble row when no word of any row occurs. *)
Theorem detectCurrency_keyword_lookup text :
  detectCurrency text = first_keyword currencyKeywords ("RUB", "₽")%string text.
Proof.
  unfold detectCurrency.
  exact (first_rule_keywords currencyKeywords ("RUB", "₽")%string text).
Qed.



(** X7. What the parser reads is written in the text: every candidate of
    [extractPrice], hence every price field of the record, is the value
    [parseFloat] gives to a run of digits, points and commas of the text
    with its first comma made a point; [discountPercent], when not
    [null], is between 1 and 99 and the value of a run of digits of the
    text. *)
Theorem prices_and_discount_written_in_text text :
  exists r prices,
    parseOcrResult text = Some r
    /\ extractPrice text = Some prices
    /\ Forall (price_written text) prices
    /\ (forall p,
          price r = Some p \/ originalPrice r = Some p \/ pricePerUnit r = Some p ->
          price_written text p)
    /\ (forall d, discountPercent r = Some d ->
                  percent_written text d /\ 1 <= d <= 99).
Proof.
  destruct (extractPrice_spec text) as (raw & prices & _ & E & _).
  destruct (extractDiscount_total text) as [d D].
  destruct (parseOcrResult_fields text prices d E D)
    as (r & R & _ & _ & _ & _ & _ & _ & _ & Hd & _).
  pose proof (extractPrice_written text prices E) as W.
  exists r, prices. split; [exact R|]. split; [exact E|]. split; [exact W|]. split.
  - intros p H.
    destruct (parsed_price_In text r p R H) as (raw' & prices' & _ & E' & I & _).
    rewrite E in E'. injection E' as <-.
    rewrite Forall_forall in W. apply W; exact I.
  - intros d' H. subst d. rewrite H in D.
    apply extractDiscount_written; exact D.
Qed.

(** X8. A scan touches a product exactly when the text holds a barcode.
    The document then saved keeps the barcode, the name and the unit of
    the product it started from, the one found or a new one with the
    barcode of the text, and its history is the old one with at most one
    entry added at the end: the entry of the parsed price, which is never
    dropped by the test of its truth, and no entry for a [null] price. *)
Theorem scan_touches_product_iff_barcode text now productName found :
  exists r,
    parseOcrResult text = Some r
    /\ (ScanRoute.scan_product now productName r found = None
        <-> ~ has_run 13 text /\ ~ has_run 8 text /\ ~ has_run 12 text)
    /\ (forall doc,
          ScanRoute.scan_product now productName r found = Some doc ->
          ScanRoute.barcode doc
          = ScanRoute.barcode (ScanRoute.find_or_new productName r found)
          /\ ScanRoute.name doc
             = ScanRoute.name (ScanRoute.find_or_new productName r found)
          /\ ScanRoute.unit doc
             = ScanRoute.unit (ScanRoute.find_or_new productName r found)
          /\ ScanRoute.priceHistory doc
             = ScanRoute.priceHistory (ScanRoute.find_or_new productName r found)
               ++ match price r with
                  | Some p => [ScanRoute.entry now r p]
                  | None => []
                  end)
    /\ ScanRoute.barcode (ScanRoute.find_or_new productName r None)
       = extractBarcode text.
Proof.
  destruct (parseOcrResult_total text) as [r R].
  exists r. split; [exact R|].
  pose proof (extractBarcode_run text) as Run.
  destruct (extractBarcode text) as [b|] eqn:B.
  - destruct (scan_product_some text now productName r found R) as (doc & S & H).
    { rewrite B; discriminate. }
    split; [|split].
    + rewrite S. split; [discriminate|]. intros (N13 & N8 & N12).
      destruct Run as (n & (pre & Dr & _) & [-> | [[-> _] | [-> _]]]);
        exfalso; [apply N13 | apply N8 | apply N12]; exists pre, b; exact Dr.
    + intros doc' S'. rewrite S in S'. injection S' as <-. exact H.
    + destruct (parsed_prices text r R) as (raw & prices & _ & _ & _ & _ & _ & _ & _ & _ & Hb).
      cbn [ScanRoute.find_or_new ScanRoute.new_product ScanRoute.barcode].
      rewrite Hb, B. reflexivity.
  - rewrite (scan_product_none text now productName r found R B).
    split; [|split].
    + split; [intros _; exact Run | reflexivity].
    + intros doc [=].
    + destruct (parsed_prices text r R) as (raw & prices & _ & _ & _ & _ & _ & _ & _ & _ & Hb).
      cbn [ScanRoute.find_or_new ScanRoute.new_product ScanRoute.barcode].
      rewrite Hb, B. reflexivity.
Qed.

(** The history of [kefir_scan] is one that scans built. *)
Lemma kefir_scanned : ScanRoute.scanned kefir_history.
Proof.
  assert (H : exists r doc,
             parseOcrResult kefir = Some r
             /\ ScanRoute.scan_product 0 (js "Кефир") r None = Some doc
             /\ ScanRoute.priceHistory doc = kefir_history).
  { vm_compute. eexists. eexists. split; [reflexivity|]. split; reflexivity. }
  destruct H as (r & doc & R & S & <-).
  exact (ScanRoute.scanned_first kefir 0 (js "Кефир") r doc R S).
Qed.

Lemma kefir_history_not_empty : kefir_history <> [].
Proof. vm_compute. discriminate. Qed.

(** X9. Every entry of a history that scans built, starting from a new
    product, is well formed: its price passed the guard of [extractPrice],
    and it has an original price only if it is a promotion, the original
    price then being in the range too and not below the price. *)
Theorem scanned_history_well_formed h :
  ScanRoute.scanned h -> Forall ScanRoute.well_formed h.
Proof.
  induction 1 as [text now productName r doc R S
                 | text now productName r found doc _ IH R S].
  - eapply scan_preserves_well_formed; [exact R | exact S | constructor].
  - eapply scan_preserves_well_formed; [exact R | exact S | exact IH].
Qed.

Lemma scanned_history_well_formed_witness :
  Forall ScanRoute.well_formed kefir_history.
Proof.
  apply (scanned_history_well_formed kefir_history).
  exact kefir_scanned.
Defined.

(** X10. On a non-empty history that scans built, with no assumption on
    the Numbers: the current, the least and the greatest price exist, all
    three lie strictly between 0 and 1 000 000, the least and the greatest
    are prices of entries, and least <= current <= greatest. *)
Theorem scanned_history_aggregates h :
  ScanRoute.scanned h -> h <> [] ->
  exists current mn mx,
    Product.getCurrentPrice h = Some current
    /\ Product.getMinPrice h = Some mn
    /\ Product.getMaxPrice h = Some mx
    /\ in_range (Product.price current) /\ in_range mn /\ in_range mx
    /\ In mn (List.map Product.price h) /\ In mx (List.map Product.price h)
    /\ leb mn (Product.price current) = true
    /\ leb (Product.price current) mx = true.
Proof.
  intros Sc N.
  pose proof (scanned_well_formed h Sc) as W.
  pose proof (well_formed_not_nan h W) as NN.
  destruct (getCurrentPrice_some h N) as [current C].
  pose proof (getCurrentPrice_In h current C) as I.
  assert (Nm : List.map Product.price h <> []).
  { destruct h; [elim N; reflexivity | discriminate]. }
  destruct (Math_min_spec _ NN) as [Lmin Imin]. specialize (Imin Nm).
  destruct (Math_max_spec _ NN) as [Lmax Imax]. specialize (Imax Nm).
  assert (R : forall x, In x (List.map Product.price h) -> in_range x).
  { intros x Hx. apply in_map_iff in Hx as (e & <- & He).
    rewrite Forall_forall in W. destruct (W e He) as [Rg _]. exact Rg. }
  exists current, (Math_min (List.map Product.price h)),
         (Math_max (List.map Product.price h)).
  unfold Product.getMinPrice, Product.getMaxPrice.
  destruct h as [|e h']; [elim N; reflexivity|]. cbn [List.length Nat.eqb].
  rewrite Forall_forall in Lmin, Lmax.
  assert (Ic : In (Product.price current) (List.map Product.price (e :: h')))
    by (apply in_map; exact I).
  repeat split; try reflexivity; try assumption;
    try (apply R; assumption); try (apply Lmin; exact Ic); try (apply Lmax; exact Ic).
Qed.

Lemma scanned_history_aggregates_witness :
  exists current mn mx,
    Product.getCurrentPrice kefir_history = Some current
    /\ Product.getMinPrice kefir_history = Some mn
    /\ Product.getMaxPrice kefir_history = Some mx
    /\ in_range (Product.price current) /\ in_range mn /\ in_range mx
    /\ In mn (List.map Product.price kefir_history)
    /\ In mx (List.map Product.price kefir_history)
    /\ leb mn (Product.price current) = true
    /\ leb (Product.price current) mx = true.
Proof.
  apply (scanned_history_aggregates kefir_history).
  - exact kefir_scanned.
  - exact kefir_history_not_empty.
Defined.

(** X11. The aggregates can be kept up to date: after a push of [e] the
    current price is [e], and the least and the greatest price are those
    before the push combined with the price of [e] by [Math.min] and
    [Math.max], or that price itself on an empty history. *)
Theorem push_updates_aggregates h e :
  Product.getCurrentPrice (h ++ [e]) = Some e
  /\ Product.getMinPrice (h ++ [e])
     = Some match Product.getMinPrice h with
            | Some mn => min2 mn (Product.price e)
            | None => Product.price e
            end
  /\ Product.getMaxPrice (h ++ [e])
     = Some match Product.getMaxPrice h with
            | Some mx => max2 mx (Product.price e)
            | None => Product.price e
            end.
Proof.
  split; [apply getCurrentPrice_app|].
  unfold Product.getMinPrice, Product.getMaxPrice.
  rewrite length_app. cbn [List.length].
  replace (List.length h + 1)%nat with (S (List.length h)) by lia.
  cbn [Nat.eqb]. rewrite map_app. cbn [List.map].
  unfold Math_min, Math_max. rewrite !fold_left_app. cbn [fold_left].
  destruct h as [|x h'].
  - cbn [List.length Nat.eqb List.map fold_left].
    change (min2 (S754_infinity false) (Product.price e)) with (Math_min [Product.price e]).
    change (max2 (S754_infinity true) (Product.price e)) with (Math_max [Product.price e]).
    rewrite Math_min_single, Math_max_single. split; reflexivity.
  - cbn [List.length Nat.eqb]. split; reflexivity.
Qed.

(** X12. The price filter of the product list, when a bound is given: a
    product is kept exactly when it has a current price that is not below
    the lower bound and not above the upper bound; a product without a
    history is dropped, and a bound that is NaN (a parameter that is no
    number) bounds nothing. *)
Theorem price_filter_bounds minPrice maxPrice products p :
  ProductsRoute.is_given minPrice || ProductsRoute.is_given maxPrice = true ->
  Forall (fun e => is_nan (Product.price e) = false) (ScanRoute.priceHistory p) ->
  (In p (ProductsRoute.filter_by_price minPrice maxPrice products) <->
   In p products
   /\ exists current,
       Product.getCurrentPrice (ScanRoute.priceHistory p) = Some current
       /\ (forall bound, minPrice = Some bound ->
           is_nan bound = true \/ leb bound (Product.price current) = true)
       /\ (forall bound, maxPrice = Some bound ->
           is_nan bound = true \/ leb (Product.price current) bound = true)).
Proof.
  intros G F. unfold ProductsRoute.filter_by_price. rewrite G.
  rewrite filter_In, (price_in_bounds_spec minPrice maxPrice p F). reflexivity.
Qed.

(** [milk_product], at 89.9, is within the bounds 50 and 100. *)
Lemma price_filter_bounds_witness :
  In milk_product
     (ProductsRoute.filter_by_price (Some (of_Z 50)) (Some (of_Z 100)) [milk_product])
  <-> In milk_product [milk_product]
      /\ exists current,
          Product.getCurrentPrice (ScanRoute.priceHistory milk_product) = Some current
          /\ (forall bound, Some (of_Z 50) = Some bound ->
              is_nan bound = true \/ leb bound (Product.price current) = true)
          /\ (forall bound, Some (of_Z 100) = Some bound ->
              is_nan bound = true \/ leb (Product.price current) bound = true).
Proof.
  apply (price_filter_bounds (Some (of_Z 50)) (Some (of_Z 100)) [milk_product]
           milk_product).
  - reflexivity.
  - repeat constructor.
Defined.

(** X13. The limit of the price-history route: the charted entries are
    the last ones of those within the dates.  A positive limit [n] keeps
    the last [n] of them (all when there are fewer), and so does the
    default 100; the limit 0 and a limit that is no number keep them all;
    a negative limit [-n] drops the first [n]. *)
Theorem limit_keeps_latest_entries startDate endDate limit h :
  (exists dropped,
      ProductsRoute.between startDate endDate h
      = dropped ++ ProductsRoute.charted startDate endDate limit h)
  /\ List.length (ProductsRoute.charted startDate endDate limit h)
     = match limit with
       | None =>
           Nat.min 100 (List.length (ProductsRoute.between startDate endDate h))
       | Some None => List.length (ProductsRoute.between startDate endDate h)
       | Some (Some n) =>
           if 0 <? n
           then Nat.min (Z.to_nat n)
                        (List.length (ProductsRoute.between startDate endDate h))
           else (List.length (ProductsRoute.between startDate endDate h)
                 - Z.to_nat (- n))%nat
       end.
Proof.
  unfold ProductsRoute.charted.
  generalize (ProductsRoute.between startDate endDate h) as history. intros history.
  split; [apply slice_suffix|].
  destruct limit as [[n|]|]; cbn [ProductsRoute.slice_start].
  - destruct (0 <? n) eqn:P.
    + apply Z.ltb_lt in P. rewrite slice_neg by exact P. rewrite length_skipn. lia.
    + apply Z.ltb_ge in P. rewrite slice_pos by lia. rewrite length_skipn. reflexivity.
  - rewrite slice_zero. reflexivity.
  - rewrite (slice_neg 100) by lia. rewrite length_skipn. lia.
Qed.

(** X14. The charted entries are entries of the history in their order,
    each one within the dates of the query; an invalid date leaves none;
    and every entry of the history within the dates passes the date
    filters. *)
Theorem charted_entries_within_dates startDate endDate limit h :
  ProductsRoute.sublist (ProductsRoute.charted startDate endDate limit h) h
  /\ Forall (ProductsRoute.within startDate endDate)
            (ProductsRoute.charted startDate endDate limit h)
  /\ (startDate = Some None \/ endDate = Some None ->
      ProductsRoute.charted startDate endDate limit h = [])
  /\ (forall e, In e h -> ProductsRoute.within startDate endDate e ->
                In e (ProductsRoute.between startDate endDate h)).
Proof.
  assert (Sub : ProductsRoute.sublist
                  (ProductsRoute.charted startDate endDate limit h)
                  (ProductsRoute.between startDate endDate h)).
  { unfold ProductsRoute.charted, ProductsRoute.slice. apply sublist_skipn. }
  assert (W : Forall (ProductsRoute.within startDate endDate)
                     (ProductsRoute.charted startDate endDate limit h)).
  { apply Forall_forall. intros e He.
    apply (sublist_In _ _ _ Sub) in He. apply between_In in He. apply He. }
  split; [|split; [exact W|split]].
  - eapply sublist_trans; [exact Sub | apply between_sublist].
  - intros H.
    destruct (ProductsRoute.charted startDate endDate limit h) as [|e l]; [reflexivity|].
    apply Forall_cons_iff in W as [[Ws We] _]. exfalso.
    destruct H as [H | H].
    + destruct (Ws None H) as (t & [=] & _).
    + destruct (We None H) as (t & [=] & _).
  - intros e I We. apply between_In. split; assumption.
Qed.

(** X15. The statistics of the price-history route are those of the whole
    history, not of the charted entries; still every charted price lies
    between [stats.min] and [stats.max], for a history without NaN. *)
Theorem charted_prices_within_stats startDate endDate limit h :
  Forall (fun e => is_nan (Product.price e) = false) h ->
  Forall (fun e =>
            exists mn mx,
              Product.getMinPrice h = Some mn
              /\ Product.getMaxPrice h = Some mx
              /\ leb mn (Product.price e) = true
              /\ leb (Product.price e) mx = true)
         (ProductsRoute.charted startDate endDate limit h).
Proof.
  intros F. apply Forall_forall. intros e He.
  assert (I : In e h).
  { eapply sublist_In; [|exact He].
    eapply sublist_trans; [|apply between_sublist].
    unfold ProductsRoute.charted, ProductsRoute.slice. apply sublist_skipn. }
  assert (NN : Forall (fun x => is_nan x = false) (List.map Product.price h)).
  { apply Forall_map. exact F. }
  destruct (Math_min_spec _ NN) as [Lmin _].
  destruct (Math_max_spec _ NN) as [Lmax _].
  rewrite Forall_forall in Lmin, Lmax.
  unfold Product.getMinPrice, Product.getMaxPrice.
  destruct h as [|x h']; [contradiction|]. cbn [List.length Nat.eqb].
  eexists. eexists. split; [reflexivity|]. split; [reflexivity|].
  split; [apply Lmin | apply Lmax]; apply in_map; exact I.
Qed.

(** On [three_scans], all scanned at time 0, with the dates -1 and 1 and
    the limit 2. *)
Lemma charted_prices_within_stats_witness :
  Forall (fun e =>
            exists mn mx,
              Product.getMinPrice three_scans = Some mn
              /\ Product.getMaxPrice three_scans = Some mx
              /\ leb mn (Product.price e) = true
              /\ leb (Product.price e) mx = true)
         (ProductsRoute.charted (Some (Some (-1))) (Some (Some 1)) (Some (Some 2))
                                three_scans).
Proof.
  apply (charted_prices_within_stats (Some (Some (-1))) (Some (Some 1))
           (Some (Some 2)) three_scans).
  repeat constructor.
Defined.

(** X16. The words of promotion are always detected: a text that holds
    one of [promoWords], in any letter case and anywhere, also inside a
    longer word, is parsed as a promotion with a promotion type. *)
Theorem promo_words_mark_promotion text w :
  In w promoWords -> contains_ci (js w) text = true ->
  exists r,
    parseOcrResult text = Some r /\ isPromo r = true /\ promoType r <> None.
Proof.
  intros I C.
  pose proof (promo_word_detected w text I C) as D.
  destruct (extractPrice_spec text) as (raw & prices & _ & E & _).
  destruct (extractDiscount_total text) as [d Dd].
  destruct (parseOcrResult_fields text prices d E Dd)
    as (r & R & _ & _ & _ & _ & Hp & _).
  exists r. split; [exact R|].
  assert (P : In (detectPromo text) (List.map snd promoPatterns)).
  { unfold detectPromo in *.
    destruct (first_rule_In promoPatterns (false, None) text) as [Z | Z];
      [rewrite Z in D; discriminate D | exact Z]. }
  assert (T : forallb (fun x : bool * option string => fst x && is_some (snd x))
                      (List.map snd promoPatterns) = true) by reflexivity.
  rewrite forallb_forall in T. specialize (T _ P). rewrite <- Hp in T.
  cbn [fst snd] in T. apply andb_prop in T as [T1 T2].
  split; [exact T1|]. destruct (promoType r); [discriminate | discriminate T2].
Qed.

(** [tag_capital] holds [АКЦИЯ]. *)
Lemma promo_words_mark_promotion_witness :
  exists r,
    parseOcrResult tag_capital = Some r /\ isPromo r = true /\ promoType r <> None.
Proof.
  apply (promo_words_mark_promotion tag_capital "акция"%string).
  - left; reflexivity.
  - vm_compute; reflexivity.
Defined.

(** X17. A comma is read as the decimal point: for two matches whose
    captures are the same digits around a comma in one and around a point
    in the other, the loop of [extractPrice] pushes the same price. *)
Theorem comma_read_as_point m1 m2 a b :
  forallb is_digit a = true -> forallb is_digit b = true ->
  group 1 m1 = Some (a ++ 44 :: b) ->
  group 1 m2 = Some (a ++ 46 :: b) ->
  price_of_match m1 = price_of_match m2.
Proof.
  intros Da Db G1 G2. unfold price_of_match. rewrite G1, G2.
  assert (N : forall l, forallb is_digit l = true -> ~ In 44 l).
  { intros l D H. rewrite forallb_forall in D. specialize (D _ H). discriminate D. }
  change (code ",") with 44. change (code ".") with 46.
  rewrite (ReplaceFacts.replace_first_present 44 46 a b (N a Da)).
  rewrite (ReplaceFacts.replace_first_absent 44 46 (a ++ 46 :: b)); [reflexivity|].
  intros H. apply in_app_or in H as [H | [H | H]].
  - exact (N a Da H).
  - discriminate H.
  - exact (N b Db H).
Qed.

(** The captures [89,90] and [89.90]. *)
Lemma comma_read_as_point_witness :
  price_of_match (MatchResult 0 (MState [] [] [(1%nat, js "89,90")]))
  = price_of_match (MatchResult 0 (MState [] [] [(1%nat, js "89.90")])).
Proof.
  apply (comma_read_as_point _ _ (js "89") (js "90")); reflexivity.
Defined.

(** X18. The word [миллилитр] never gives the unit [мл]: it holds
    [литр], which the rule of the litre, an earlier one, detects; so a
    text with that word, in any letter case, gets the unit of one of the
    first three rules. *)
Theorem millilitre_word_gives_earlier_unit text :
  contains_ci (js "миллилитр") text = true ->
  exists r,
    parseOcrResult text = Some r
    /\ In (unit r) [Some "кг"; Some "шт"; Some "л"]%string.
Proof.
  intros C.
  destruct (extractPrice_spec text) as (raw & prices & _ & E & _).
  destruct (extractDiscount_total text) as [d D].
  destruct (parseOcrResult_fields text prices d E D)
    as (r & R & _ & _ & _ & _ & _ & Hu & _).
  exists r. split; [exact R|]. rewrite Hu. unfold extractUnit.
  exact (ShadowFacts.first_rule_within unitPatterns None text 2 _ _ eq_refl
           (ShadowFacts.millilitre_holds_litre text C)).
Qed.

(** A tag of 250 millilitres. *)
Lemma millilitre_word_gives_earlier_unit_witness :
  exists r,
    parseOcrResult (js "Сок 250 миллилитров") = Some r
    /\ In (unit r) [Some "кг"; Some "шт"; Some "л"]%string.
Proof.
  apply (millilitre_word_gives_earlier_unit (js "Сок 250 миллилитров")).
  vm_compute; reflexivity.
Defined.

(** X19. The loops of [extractPrice] and [extractDiscount] over the
    matches of one pattern end, and they visit occurrences of the text
    from left to right that do not overlap: every match is a non-empty
    part of the text, the one between its index and its end, and it
    starts where the match before it ended, or after it. *)
Theorem loops_visit_occurrences_in_turn text :
  Forall (fun re =>
            exists ms,
              exec_all re text = Some ms
              /\ StronglySorted in_turn ms
              /\ Forall (fun m =>
                           (m_index m < position (m_end m) <= List.length text)%nat
                           /\ matched m
                              = firstn (position (m_end m) - m_index m)
                                       (skipn (m_index m) text)) ms)
         (discountPattern :: pricePatterns).
Proof.
  assert (C : Forall (fun re => consumes (source re) = true)
                     (discountPattern :: pricePatterns))
    by (repeat constructor).
  eapply Forall_impl; [|exact C]. intros re Cre.
  destruct (exec_all_total re text Cre) as [ms E].
  exists ms. split; [exact E|].
  destruct (LoopFacts.exec_loop_in_turn text re _ [] text ms eq_refl E)
    as (_ & St & F).
  split; [exact St|].
  eapply Forall_impl; [|exact F]. intros m ((B1 & B2) & B3 & B4).
  specialize (B3 Cre). repeat split; try assumption.
Qed.

(** X20. The filters of the product list only remove products: what is
    listed is the page in its order with some products left out.  When a
    price bound is given every listed product has a price history, and
    with [hasPromo] the current entry of every listed product is a
    promotion. *)
Theorem filters_only_remove minPrice maxPrice hasPromo products :
  ProductsRoute.sublist
    (ProductsRoute.listed minPrice maxPrice hasPromo products) products
  /\ (ProductsRoute.is_given minPrice || ProductsRoute.is_given maxPrice = true ->
      Forall (fun p => ScanRoute.priceHistory p <> [])
             (ProductsRoute.listed minPrice maxPrice hasPromo products))
  /\ (hasPromo = true ->
      Forall (fun p =>
                exists current,
                  Product.getCurrentPrice (ScanRoute.priceHistory p) = Some current
                  /\ Product.isPromo current = true)
             (ProductsRoute.listed minPrice maxPrice hasPromo products)).
Proof.
  unfold ProductsRoute.listed.
  assert (S1 : ProductsRoute.sublist
                 (ProductsRoute.filter_by_price minPrice maxPrice products) products).
  { unfold ProductsRoute.filter_by_price.
    destruct (_ || _); [apply sublist_filter | apply sublist_refl]. }
  assert (S2 : forall l, ProductsRoute.sublist (ProductsRoute.filter_by_promo hasPromo l) l).
  { intros l. unfold ProductsRoute.filter_by_promo.
    destruct hasPromo; [apply sublist_filter | apply sublist_refl]. }
  split; [|split].
  - eapply sublist_trans; [apply S2 | exact S1].
  - intros G. eapply sublist_Forall; [apply S2|].
    unfold ProductsRoute.filter_by_price. rewrite G.
    apply Forall_forall. intros p Hp. apply filter_In in Hp as [_ Hp].
    unfold ProductsRoute.price_in_bounds, Product.getCurrentPrice in Hp.
    intros E. rewrite E in Hp. discriminate Hp.
  - intros ->. cbn [ProductsRoute.filter_by_promo].
    apply Forall_forall. intros p Hp. apply filter_In in Hp as [_ Hp].
    destruct (Product.getCurrentPrice (ScanRoute.priceHistory p)) as [current|];
      [|discriminate].
    exists current. split; [reflexivity | exact Hp].
Qed.

(** X21. The history that the compare route returns for a product is the
    last 30 entries of its history, all of them when there are fewer; its
    last entry is the current price that the route returns beside it. *)
Theorem compared_history_ends_with_current h :
  (exists dropped, h = dropped ++ ProductsRoute.compared h)
  /\ List.length (ProductsRoute.compared h) = Nat.min 30 (List.length h)
  /\ Product.getCurrentPrice (ProductsRoute.compared h) = Product.getCurrentPrice h.
Proof.
  unfold ProductsRoute.compared.
  split; [apply slice_suffix|].
  rewrite (slice_neg 30) by lia. change (Z.to_nat 30) with 30%nat.
  split; [rewrite length_skipn; lia|].
  destruct (exists_last_or_nil h) as [-> | (h' & e & ->)]; [reflexivity|].
  rewrite length_app. cbn [List.length].
  rewrite skipn_app.
  replace (List.length h' + 1 - 30 - List.length h')%nat with 0%nat by lia.
  cbn [skipn]. rewrite !getCurrentPrice_app. reflexivity.
Qed.

(** X22. Who reads a scan by its id: a record that does not exist gives
    404; an existing one is returned exactly when it has no owner or its
    owner is the caller; otherwise, for an owned record and a caller who
    is not the owner, anonymous callers included, the answer is 403. *)
Theorem scan_read_access found user :
  match HistoryRoute.get_scan found user with
  | HistoryRoute.Json scan =>
      found = Some scan
      /\ (HistoryRoute.userId scan = None \/ HistoryRoute.userId scan = user)
  | HistoryRoute.NotFound => found = None
  | HistoryRoute.Forbidden =>
      exists scan owner,
        found = Some scan
        /\ HistoryRoute.userId scan = Some owner
        /\ user <> Some owner
  end.
Proof.
  unfold HistoryRoute.get_scan.
  destruct found as [scan|]; [|reflexivity].
  destruct (HistoryRoute.userId scan) as [owner|] eqn:O.
  - destruct user as [u|].
    + destruct (Z.eqb_spec owner u) as [-> | N]; cbn [negb].
      * split; [reflexivity | right; exact O].
      * exists scan, owner. repeat split; [exact O|]. intros [= E]. apply N.
        symmetry; exact E.
    + exists scan, owner. repeat split; [exact O | discriminate].
  - split; [reflexivity | left; exact O].
Qed.

(** X23. The scans that the list and the summary select for a caller are
    scans the caller can read by id, but a user can also read by id the
    scans without owner, which the list never shows to a user.  A scan is
    deleted only by its owner, so a scan without owner is never deleted,
    and every scan a user can delete is one that the list shows and that
    the user can read. *)
Theorem selected_scans_are_readable user scan :
  (HistoryRoute.selects user scan = true ->
   HistoryRoute.get_scan (Some scan) user = HistoryRoute.Json scan)
  /\ (HistoryRoute.userId scan = None ->
      HistoryRoute.get_scan (Some scan) user = HistoryRoute.Json scan
      /\ (user <> None -> HistoryRoute.selects user scan = false))
  /\ (forall id u,
        HistoryRoute.deletes id u scan = true ->
        HistoryRoute.userId scan = Some u
        /\ HistoryRoute.selects (Some u) scan = true
        /\ HistoryRoute.get_scan (Some scan) (Some u) = HistoryRoute.Json scan).
Proof.
  unfold HistoryRoute.selects, HistoryRoute.get_scan, HistoryRoute.deletes.
  destruct (HistoryRoute.userId scan) as [owner|].
  - split; [|split].
    + destruct user as [u|]; [|discriminate]. intros ->. reflexivity.
    + discriminate.
    + intros id u H. apply andb_prop in H as [_ H].
      apply Z.eqb_eq in H. subst owner. rewrite Z.eqb_refl.
      repeat split.
  - split; [|split].
    + intros _. reflexivity.
    + intros _. split; [reflexivity|].
      destruct user; [reflexivity | intros C; elim C; reflexivity].
    + intros id u H. apply andb_prop in H as [_ H]. discriminate H.
Qed.

(** X24. A minus sign before a percentage marks a promotion: a text that
    holds a minus, then digits, then a percent sign, with any blanks
    between them, is parsed with [isPromo] true, whatever else it holds. *)
Theorem minus_percent_marks_promotion text pre ws ds ws' post :
  text = pre ++ 45 :: ws ++ ds ++ ws' ++ 37 :: post ->
  forallb is_space ws = true -> forallb is_digit ds = true -> ds <> [] ->
  forallb is_space ws' = true ->
  exists r, parseOcrResult text = Some r /\ isPromo r = true.
Proof.
  intros E Fw Fd Nd Fw'.
  destruct (extractPrice_spec text) as (raw & prices & _ & Ep & _).
  destruct (extractDiscount_total text) as [d D].
  destruct (parseOcrResult_fields text prices d Ep D)
    as (r & R & _ & _ & _ & _ & Hp & _).
  exists r. split; [exact R|].
  change (isPromo r) with (fst (isPromo r, promoType r)). rewrite Hp.
  apply (promo_rule_hit text 7 _ _ pre _ eq_refl E).
  apply RunFacts.minus_percent_matches; assumption.
Qed.

(** The text [Сыр - 20 % 199 руб]. *)
Lemma minus_percent_marks_promotion_witness :
  exists r, parseOcrResult (js "Сыр - 20 % 199 руб") = Some r /\ isPromo r = true.
Proof.
  apply (minus_percent_marks_promotion (js "Сыр - 20 % 199 руб")
           (js "Сыр ") (js " ") (js "20") (js " ") (js " 199 руб"));
    try reflexivity.
  discriminate.
Defined.
